(** * Fat Hacks 2025 trip planner: the task store, the due-state classifier,
    the reminder engine and the share-link codec of [src/App.tsx].

    The development follows the source file top down.  JavaScript strings
    are sequences of UTF-16 code units, numbers that the code computes with
    are integers or [NaN], optional properties are [option] fields, and
    React state is threaded explicitly through the handlers. *)

From Stdlib Require Import ZArith NArith List Bool Lia String Ascii.
From Stdlib Require Import Zify.
From Stdlib Require DecimalFacts DecimalPos DecimalZ.
From stdpp Require Import base gmap.
Import ListNotations.
Local Open Scope Z_scope.

(** ** JavaScript values used by the planner *)

(** A JavaScript string: its UTF-16 code units. *)
Definition jstring := list N.

(** A string literal of the source (ASCII). *)
Definition lit (s : string) : jstring :=
  List.map N_of_ascii (list_ascii_of_string s).

(** [a === b] on strings. *)
Fixpoint str_eqb (a b : jstring) : bool :=
  match a, b with
  | [], [] => true
  | x :: a', y :: b' => N.eqb x y && str_eqb a' b'
  | _, _ => false
  end.

(** The numbers of the planner: millisecond timestamps, minute counts and
    [NaN] (what [new Date(s).getTime()] yields on a string that is no date).
    Timestamps are integers of magnitude at most 8.64e15, so sums and
    differences are exact in a double, and so is [Math.floor(x / 60000)]
    for [0 <= x < 1.6e16]: the quotient is below [2^38], where doubles are
    spaced [2^-15] apart, less than twice the distance [1/60000] of a
    non-integral quotient to the next integer. *)
Inductive jsnum : Type :=
| Num (z : Z)
| NaN.

Definition js_gt (a b : jsnum) : bool :=
  match a, b with Num x, Num y => Z.ltb y x | _, _ => false end.

Definition js_ge (a b : jsnum) : bool :=
  match a, b with Num x, Num y => Z.leb y x | _, _ => false end.

Definition js_le (a b : jsnum) : bool :=
  match a, b with Num x, Num y => Z.leb x y | _, _ => false end.

Definition js_sub (a b : jsnum) : jsnum :=
  match a, b with Num x, Num y => Num (x - y) | _, _ => NaN end.

(** [Math.max(a, b)]: [NaN] as soon as one argument is. *)
Definition Math_max (a b : jsnum) : jsnum :=
  match a, b with Num x, Num y => Num (Z.max x y) | _, _ => NaN end.

(** [Math.floor(a / k)] for a positive integer constant [k]. *)
Definition Math_floor_div (a : jsnum) (k : Z) : jsnum :=
  match a with Num x => Num (x / k) | NaN => NaN end.

(** ** Data model (lines 23-42) *)

Inductive Status : Type := NotStarted | InProgress | Done.

Definition Status_eqb (a b : Status) : bool :=
  match a, b with
  | NotStarted, NotStarted | InProgress, InProgress | Done, Done => true
  | _, _ => false
  end.

Record Task : Type := mkTask {
  id : jstring;
  title : jstring;
  category : jstring;
  assignee : jstring;
  status : Status;
  details : option jstring;
  sla : option jstring;
  reminderLeadMinutes : option Z;
  reminderSent : option bool;
  createdAt : jstring;
  updatedAt : jstring
}.

Record Settings : Type := mkSettings { kickoffISO : option jstring }.

(** Truthiness of an optional string: [undefined] and the empty string are
    falsy. *)
Definition truthy (o : option jstring) : option jstring :=
  match o with
  | Some (c :: r) => Some (c :: r)
  | _ => None
  end.

(** [!t.reminderSent] reads an absent flag as not sent. *)
Definition sent (t : Task) : bool :=
  match reminderSent t with Some b => b | None => false end.

(** ** A concrete clock reading for ISO strings

    [isoTime] is [new Date(s).getTime()] on the strings that
    [toISOString()] produces, [YYYY-MM-DDTHH:mm:ss.sssZ]; every other string
    is read as no date.  The classifier and the scheduler below are stated
    for an arbitrary [getTime]; [isoTime] instantiates it in the examples. *)

Definition digit (c : N) : option Z :=
  if (N.leb 48 c && N.leb c 57)%bool then Some (Z.of_N c - 48) else None.

Fixpoint digits (acc : Z) (s : jstring) : option Z :=
  match s with
  | [] => Some acc
  | c :: r => match digit c with
              | Some d => digits (acc * 10 + d) r
              | None => None
              end
  end.

Definition leap (y : Z) : bool :=
  ((y mod 4 =? 0) && negb (y mod 100 =? 0) || (y mod 400 =? 0))%bool.

Definition daysInMonth (y m : Z) : Z :=
  if m =? 2 then (if leap y then 29 else 28)
  else if (m =? 4) || (m =? 6) || (m =? 9) || (m =? 11) then 30 else 31.

(** Days from 1970-01-01 to the civil date [y-m-d]. *)
Definition daysFromCivil (y m d : Z) : Z :=
  let y' := if m <=? 2 then y - 1 else y in
  let era := y' / 400 in
  let yoe := y' - era * 400 in
  let mp := if m <=? 2 then m + 9 else m - 3 in
  let doy := (153 * mp + 2) / 5 + d - 1 in
  let doe := yoe * 365 + yoe / 4 - yoe / 100 + doy in
  era * 146097 + doe - 719468.

Definition isoTime (s : jstring) : jsnum :=
  match s with
  | [y1; y2; y3; y4; 45%N; m1; m2; 45%N; d1; d2; 84%N;
     h1; h2; 58%N; i1; i2; 58%N; s1; s2; 46%N; f1; f2; f3; 90%N] =>
      match digits 0 [y1; y2; y3; y4], digits 0 [m1; m2], digits 0 [d1; d2],
            digits 0 [h1; h2], digits 0 [i1; i2], digits 0 [s1; s2],
            digits 0 [f1; f2; f3] with
      | Some y, Some m, Some d, Some h, Some i, Some sec, Some ms =>
          if (1 <=? m) && (m <=? 12) && (1 <=? d) && (d <=? daysInMonth y m)
             && (h <=? 23) && (i <=? 59) && (sec <=? 59)
          then Num ((((daysFromCivil y m d * 24 + h) * 60 + i) * 60 + sec) * 1000 + ms)
          else NaN
      | _, _, _, _, _, _, _ => NaN
      end
  | _ => NaN
  end.

(** ** Due-state classifier (line 250) *)

Record DueState : Type := mkDue {
  overdue : bool;
  dueSoon : bool;
  soonMins : jsnum
}.

Section Classifier.

(** [new Date(s).getTime()] of the runtime. *)
Variable getTime : jstring -> jsnum.

(** [dueState(t)], with the value [Date.now()] returns as [now]. *)
Definition dueState (now : Z) (t : Task) : DueState :=
  match truthy (sla t) with
  | None => {| overdue := false; dueSoon := false; soonMins := Num 0 |}
  | Some s =>
      let due := getTime s in
      let overdue := js_gt (Num now) due && negb (Status_eqb (status t) Done) in
      let delta := Math_max (Num 0) (js_sub due (Num now)) in
      let soonMins := Math_floor_div delta 60000 in
      {| overdue := overdue;
         dueSoon := negb overdue && js_le soonMins (Num 240);
         soonMins := soonMins |}
  end.

(** The classifier as section 4.2 of the specification words it. *)
Definition classify_spec (now : Z) (t : Task) : DueState :=
  match truthy (sla t) with
  | None => {| overdue := false; dueSoon := false; soonMins := Num 0 |}
  | Some s =>
      let deadline := getTime s in
      let overdue := js_gt (Num now) deadline && negb (Status_eqb (status t) Done) in
      let minutesRemaining :=
        Math_max (Num 0) (Math_floor_div (js_sub deadline (Num now)) 60000) in
      {| overdue := overdue;
         dueSoon := negb overdue && js_le minutesRemaining (Num 240);
         soonMins := minutesRemaining |}
  end.

End Classifier.

(** ** Field edits of the task table (lines 216-222)

    Each input of a row calls [onUpdate] with a copy of the task in which
    one field is replaced and [updatedAt] is refreshed; the deadline and the
    lead inputs also write [reminderSent: false]. *)

Inductive Edit : Type :=
| EditTitle (v : jstring)
| EditCategory (v : jstring)
| EditAssignee (v : jstring)
| EditStatus (v : Status)
| EditSla (v : jstring)      (* [e.target.value] of the datetime-local input *)
| EditLead (v : jstring).    (* [e.target.value] of the number input *)

Definition set_updatedAt (stamp : jstring) (t : Task) : Task :=
  mkTask (id t) (title t) (category t) (assignee t) (status t) (details t)
         (sla t) (reminderLeadMinutes t) (reminderSent t) (createdAt t) stamp.

Definition set_reminderSent (b : bool) (t : Task) : Task :=
  mkTask (id t) (title t) (category t) (assignee t) (status t) (details t)
         (sla t) (reminderLeadMinutes t) (Some b) (createdAt t) (updatedAt t).

Section TaskTable.

(** [new Date(v).toISOString()] and [Number(v)] of the runtime. *)
Variable localToISO : jstring -> jstring.
Variable toNumber : jstring -> Z.

(** The object an [onChange] handler passes to [onUpdate]; [stamp] is
    [new Date().toISOString()] at the time of the edit. *)
Definition editTask (stamp : jstring) (e : Edit) (t : Task) : Task :=
  match e with
  | EditTitle v =>
      mkTask (id t) v (category t) (assignee t) (status t) (details t)
             (sla t) (reminderLeadMinutes t) (reminderSent t) (createdAt t) stamp
  | EditCategory v =>
      mkTask (id t) (title t) v (assignee t) (status t) (details t)
             (sla t) (reminderLeadMinutes t) (reminderSent t) (createdAt t) stamp
  | EditAssignee v =>
      mkTask (id t) (title t) (category t) v (status t) (details t)
             (sla t) (reminderLeadMinutes t) (reminderSent t) (createdAt t) stamp
  | EditStatus v =>
      mkTask (id t) (title t) (category t) (assignee t) v (details t)
             (sla t) (reminderLeadMinutes t) (reminderSent t) (createdAt t) stamp
  | EditSla v =>
      mkTask (id t) (title t) (category t) (assignee t) (status t) (details t)
             (match v with [] => None | _ => Some (localToISO v) end)
             (reminderLeadMinutes t) (Some false) (createdAt t) stamp
  | EditLead v =>
      mkTask (id t) (title t) (category t) (assignee t) (status t) (details t)
             (sla t)
             (match v with [] => None | _ => Some (toNumber v) end)
             (Some false) (createdAt t) stamp
  end.

End TaskTable.

(** ** Remote rows (lines 346-348) *)

(** A row of the [tasks] relation as the remote store delivers it: every
    column but the key may be [null]. *)
Record Row : Type := mkRow {
  r_id : jstring;
  r_title : option jstring;
  r_category : option jstring;
  r_assignee : option jstring;
  r_status : option Status;
  r_details : option jstring;
  r_sla : option jstring;
  r_reminder_lead_minutes : option Z;
  r_reminder_sent : option bool;
  r_created_at : option jstring;
  r_updated_at : option jstring
}.

(** [a ?? b]. *)
Definition nullish {A : Type} (a : option A) (b : A) : A :=
  match a with Some x => x | None => b end.

(** [dbToTask(r)]; [stamp] is [new Date().toISOString()], the default of
    both timestamps. [PEOPLE[0]] is ["Buzza"]. *)
Definition dbToTask (stamp : jstring) (r : Row) : Task :=
  {| id := r_id r;
     title := nullish (r_title r) [];
     category := nullish (r_category r) [];
     assignee := nullish (r_assignee r) (lit "Buzza");
     status := nullish (r_status r) NotStarted;
     details := r_details r;
     sla := r_sla r;
     reminderLeadMinutes := r_reminder_lead_minutes r;
     reminderSent := Some (nullish (r_reminder_sent r) false);
     createdAt := nullish (r_created_at r) stamp;
     updatedAt := nullish (r_updated_at r) stamp |}.

(** [taskToDb(t, tripSlug)] without the [trip_slug] column, which the
    remote call carries. *)
Definition taskToDb (t : Task) : Row :=
  {| r_id := id t;
     r_title := truthy (Some (title t));
     r_category := truthy (Some (category t));
     r_assignee := Some (assignee t);
     r_status := Some (status t);
     r_details := truthy (details t);
     r_sla := truthy (sla t);
     r_reminder_lead_minutes := reminderLeadMinutes t;
     r_reminder_sent := Some (nullish (reminderSent t) false);
     r_created_at := Some (createdAt t);
     r_updated_at := Some (updatedAt t) |}.

(** ** Live change events (line 378) *)

Inductive EventType : Type := INSERT | UPDATE | DELETE.

Record Payload : Type := mkPayload {
  eventType : EventType;
  p_new : option Row;
  p_old : option Row
}.

(** The updater the subscription callback passes to [setTasks]; [None] when
    the callback calls no setter or the updater returns [prev] itself. *)
Definition liveUpdater (stamp : jstring) (p : Payload) (prev : list Task)
  : option (list Task) :=
  match eventType p, p_new p, p_old p with
  | INSERT, Some r, _ =>
      if existsb (fun x => str_eqb (id x) (r_id r)) prev then None
      else Some (dbToTask stamp r :: prev)
  | UPDATE, Some r, _ =>
      Some (List.map (fun t => if str_eqb (id t) (r_id r) then dbToTask stamp r else t) prev)
  | DELETE, _, Some r =>
      Some (List.filter (fun t => negb (str_eqb (id t) (r_id r))) prev)
  | _, _, _ => None
  end.

(** The canonical list after the event. *)
Definition applyPayload (stamp : jstring) (p : Payload) (prev : list Task) : list Task :=
  match liveUpdater stamp p prev with Some l => l | None => prev end.

(** ** CRUD updaters (lines 385-387) *)

Definition updateTask_upd (next : Task) (prev : list Task) : list Task :=
  List.map (fun t => if str_eqb (id t) (id next) then next else t) prev.

Definition addTask_upd (t : Task) (prev : list Task) : list Task := t :: prev.

Definition deleteTask_upd (i : jstring) (prev : list Task) : list Task :=
  List.filter (fun t => negb (str_eqb (id t) i)) prev.

(** ** Reminder engine (lines 235-243 and 506) *)

(** What one firing hands to the notification channels, with the identifier
    passed to [onFlag]. *)
Record Remind : Type := mkRemind {
  rem_id : jstring;
  rem_title : jstring;      (* [t.title || "(no title)"] *)
  rem_assignee : jstring;
  rem_due : jstring;        (* [formatDateTime(t.sla)] *)
  rem_lead : Z              (* [t.reminderLeadMinutes || 0] *)
}.

(** The updater of [onFlag(id)]. *)
Definition onFlag_upd (stamp : jstring) (i : jstring) (prev : list Task) : list Task :=
  List.map (fun t => if str_eqb (id t) i
                     then set_updatedAt stamp (set_reminderSent true t) else t) prev.

Section Reminders.

Variable getTime : jstring -> jsnum.
Variable formatDateTime : jstring -> jstring.

(** [fireAt] of a task whose deadline string is [s]. *)
Definition fireAt (t : Task) (s : jstring) : jsnum :=
  js_sub (getTime s) (Num (nullish (reminderLeadMinutes t) 0 * 60 * 1000)).

(** The guard of the loop body: the task is looked at, and it is due. *)
Definition fires (now : Z) (t : Task) : bool :=
  match truthy (sla t) with
  | None => false
  | Some s =>
      if Status_eqb (status t) Done then false
      else js_ge (Num now) (fireAt t s) && negb (sent t)
  end.

Definition remind (t : Task) : Remind :=
  {| rem_id := id t;
     rem_title := nullish (truthy (Some (title t))) (lit "(no title)");
     rem_assignee := assignee t;
     rem_due := formatDateTime (nullish (sla t) []);
     rem_lead := nullish (reminderLeadMinutes t) 0 |}.

(** [tasks.forEach(...)] of one tick: [todo] is what is left of the list
    the effect closed over, [cur] the canonical list with the updaters of
    the [onFlag] calls made so far applied. *)
Fixpoint tick_loop (now : Z) (stamp : jstring) (todo cur : list Task)
  : list Remind * list Task :=
  match todo with
  | [] => ([], cur)
  | t :: rest =>
      if fires now t then
        let '(evs, cur') := tick_loop now stamp rest (onFlag_upd stamp (id t) cur) in
        (remind t :: evs, cur')
      else tick_loop now stamp rest cur
  end.

(** One run of [tick]: the effect is set up again after every change of
    the list, so the list it closed over is the canonical one. *)
Definition tick (now : Z) (stamp : jstring) (tasks : list Task)
  : list Remind * list Task :=
  tick_loop now stamp tasks tasks.

(** A sequence of ticks, each with its clock reading and its stamp. *)
Fixpoint run_ticks (clock : list (Z * jstring)) (tasks : list Task)
  : list (list Remind) * list Task :=
  match clock with
  | [] => ([], tasks)
  | (now, stamp) :: rest =>
      let '(evs, tasks') := tick now stamp tasks in
      let '(log, final) := run_ticks rest tasks' in
      (evs :: log, final)
  end.

End Reminders.

(** ** JavaScript values and JSON text (the built-ins behind lines 47-48
    and 392-393)

    Object properties are kept in insertion order.  Numbers are integers,
    written in plain decimal as JavaScript writes integers below 1e21.  A
    number literal with a fraction or an exponent has no counterpart in the
    data model; it is carried as its text. *)

(** [s] without the prefix it starts with. *)
Fixpoint starts_with (prefix s : jstring) : option jstring :=
  match prefix, s with
  | [], _ => Some s
  | p :: prefix', c :: s' => if N.eqb p c then starts_with prefix' s' else None
  | _ :: _, [] => None
  end.

#[local] Set Warnings "-register-all".
Inductive jsval : Type :=
| JUndefined
| JNull
| JBool (b : bool)
| JNum (z : Z)
| JReal (lexeme : jstring)
| JStr (s : jstring)
| JArr (l : list jsval)
| JObj (l : list (jstring * jsval)).

Section Text.
Local Open Scope N_scope.

Definition in_range (lo hi c : N) : bool := (lo <=? c) && (c <=? hi).

Definition is_high (c : N) : bool := in_range 55296 56319 c.
Definition is_low (c : N) : bool := in_range 56320 57343 c.
Definition is_digit (c : N) : bool := in_range 48 57 c.
Definition is_alnum (c : N) : bool :=
  in_range 48 57 c || in_range 65 90 c || in_range 97 122 c.

Definition mem (c : N) (set : jstring) : bool := existsb (N.eqb c) set.

(** One hexadecimal digit, upper or lower case. *)
Definition hexu (n : N) : N := if n <? 10 then 48 + n else 55 + n.
Definition hexl (n : N) : N := if n <? 10 then 48 + n else 87 + n.

Definition hexval (c : N) : option N :=
  if in_range 48 57 c then Some (c - 48)
  else if in_range 65 70 c then Some (c - 55)
  else if in_range 97 102 c then Some (c - 87)
  else None.

Definition hex2 (a b : N) : option N :=
  match hexval a, hexval b with
  | Some x, Some y => Some (x * 16 + y)
  | _, _ => None
  end.

Definition hex4 (a b c d : N) : option N :=
  match hex2 a b, hex2 c d with
  | Some x, Some y => Some (x * 256 + y)
  | _, _ => None
  end.

(** *** [JSON.stringify] *)

Definition uescape (c : N) : jstring :=
  [92; 117; hexl (c / 4096); hexl ((c / 256) mod 16);
   hexl ((c / 16) mod 16); hexl (c mod 16)].

(** A code unit that is not half of a surrogate pair. *)
Definition quote1 (c : N) : jstring :=
  if c =? 8 then [92; 98]
  else if c =? 9 then [92; 116]
  else if c =? 10 then [92; 110]
  else if c =? 12 then [92; 102]
  else if c =? 13 then [92; 114]
  else if c =? 34 then [92; 34]
  else if c =? 92 then [92; 92]
  else if (c <? 32) || is_high c || is_low c then uescape c
  else [c].

(** The body of [QuoteJSONString]: a surrogate pair goes through, a lone
    surrogate is escaped. *)
Fixpoint quote_units (s : jstring) : jstring :=
  match s with
  | [] => []
  | c :: tl =>
      if is_high c then
        match tl with
        | l :: tl' =>
            if is_low l then c :: l :: quote_units tl'
            else uescape c ++ quote_units tl
        | [] => uescape c
        end
      else quote1 c ++ quote_units tl
  end.

Definition QuoteJSONString (s : jstring) : jstring :=
  [34] ++ quote_units s ++ [34].

Fixpoint uint_chars (d : Decimal.uint) : jstring :=
  match d with
  | Decimal.Nil => []
  | Decimal.D0 d => 48 :: uint_chars d
  | Decimal.D1 d => 49 :: uint_chars d
  | Decimal.D2 d => 50 :: uint_chars d
  | Decimal.D3 d => 51 :: uint_chars d
  | Decimal.D4 d => 52 :: uint_chars d
  | Decimal.D5 d => 53 :: uint_chars d
  | Decimal.D6 d => 54 :: uint_chars d
  | Decimal.D7 d => 55 :: uint_chars d
  | Decimal.D8 d => 56 :: uint_chars d
  | Decimal.D9 d => 57 :: uint_chars d
  end.

(** [Number::toString] of an integer. *)
Definition number_chars (z : Z) : jstring :=
  match Z.to_int z with
  | Decimal.Pos d => uint_chars d
  | Decimal.Neg d => 45 :: uint_chars d
  end.

Fixpoint join (l : list jstring) : jstring :=
  match l with
  | [] => []
  | [x] => x
  | x :: l' => x ++ [44] ++ join l'
  end.

Definition is_undefined (v : jsval) : bool :=
  match v with JUndefined => true | _ => false end.

(** The members an object serialises: a property whose value is
    [undefined] is left out. *)
Fixpoint members_with (f : jsval -> jstring) (l : list (jstring * jsval))
  : list jstring :=
  match l with
  | [] => []
  | (k, x) :: l' =>
      if is_undefined x then members_with f l'
      else (QuoteJSONString k ++ [58] ++ f x) :: members_with f l'
  end.

(** [SerializeJSONProperty] on a defined value; an [undefined] array
    element is written [null]. *)
Fixpoint serialize (v : jsval) : jstring :=
  match v with
  | JUndefined => lit "null"
  | JNull => lit "null"
  | JBool true => lit "true"
  | JBool false => lit "false"
  | JNum z => number_chars z
  | JReal l => l
  | JStr s => QuoteJSONString s
  | JArr l => [91] ++ join (List.map serialize l) ++ [93]
  | JObj l => [123] ++ join (members_with serialize l) ++ [125]
  end.

(** [JSON.stringify(v)]: [undefined] for [undefined]. *)
Definition JSON_stringify (v : jsval) : option jstring :=
  match v with
  | JUndefined => None
  | _ => Some (serialize v)
  end.

(** *** [JSON.parse] *)

Fixpoint skip_ws (s : jstring) : jstring :=
  match s with
  | c :: tl => if mem c [32; 9; 10; 13] then skip_ws tl else s
  | [] => []
  end.

(** The characters of a string literal after its opening quote, up to
    and including the closing one. *)
Fixpoint parse_string (s : jstring) : option (jstring * jstring) :=
  match s with
  | [] => None
  | c :: tl =>
      if c =? 34 then Some ([], tl)
      else if c =? 92 then
        match tl with
        | e :: tl1 =>
            let unit (u : N) (r : jstring) :=
              match parse_string r with
              | Some (body, rest) => Some (u :: body, rest)
              | None => None
              end in
            if e =? 117 then
              match tl1 with
              | a :: b :: c' :: d :: tl2 =>
                  match hex4 a b c' d with
                  | Some u =>
                      match parse_string tl2 with
                      | Some (body, rest) => Some (u :: body, rest)
                      | None => None
                      end
                  | None => None
                  end
              | _ => None
              end
            else if e =? 34 then unit 34 tl1
            else if e =? 92 then unit 92 tl1
            else if e =? 47 then unit 47 tl1
            else if e =? 98 then unit 8 tl1
            else if e =? 102 then unit 12 tl1
            else if e =? 110 then unit 10 tl1
            else if e =? 114 then unit 13 tl1
            else if e =? 116 then unit 9 tl1
            else None
        | [] => None
        end
      else if c <? 32 then None
      else
        match parse_string tl with
        | Some (body, rest) => Some (c :: body, rest)
        | None => None
        end
  end.

Fixpoint take_digits (s : jstring) : jstring * jstring :=
  match s with
  | c :: tl =>
      if is_digit c then let '(ds, r) := take_digits tl in (c :: ds, r)
      else ([], s)
  | [] => ([], [])
  end.

Fixpoint uint_of_chars (s : jstring) : Decimal.uint :=
  match s with
  | [] => Decimal.Nil
  | c :: tl =>
      let d := uint_of_chars tl in
      if c =? 48 then Decimal.D0 d else if c =? 49 then Decimal.D1 d
      else if c =? 50 then Decimal.D2 d else if c =? 51 then Decimal.D3 d
      else if c =? 52 then Decimal.D4 d else if c =? 53 then Decimal.D5 d
      else if c =? 54 then Decimal.D6 d else if c =? 55 then Decimal.D7 d
      else if c =? 56 then Decimal.D8 d else Decimal.D9 d
  end.

(** The integer part: [0], or a non-zero digit and more digits. *)
Definition lex_int (s : jstring) : option (jstring * jstring) :=
  match s with
  | c :: tl =>
      if c =? 48 then Some ([48], tl)
      else if is_digit c then let '(ds, r) := take_digits tl in Some (c :: ds, r)
      else None
  | [] => None
  end.

(** The optional fraction: a point and at least one digit. *)
Definition lex_frac (s : jstring) : option (jstring * jstring) :=
  match s with
  | 46 :: tl =>
      match take_digits tl with
      | ([], _) => None
      | (ds, r) => Some (46 :: ds, r)
      end
  | _ => Some ([], s)
  end.

(** The optional exponent: [e] or [E], a sign, at least one digit. *)
Definition lex_exp (s : jstring) : option (jstring * jstring) :=
  match s with
  | c :: tl =>
      if mem c [101; 69] then
        let '(sign, tl1) :=
          match tl with
          | x :: tl' => if mem x [43; 45] then ([x], tl') else ([], tl)
          | [] => ([], tl)
          end in
        match take_digits tl1 with
        | ([], _) => None
        | (ds, r) => Some (c :: sign ++ ds, r)
        end
      else Some ([], s)
  | [] => Some ([], s)
  end.

Definition parse_number (s : jstring) : option (jsval * jstring) :=
  let '(neg, s1) := match s with
                    | c :: tl => if c =? 45 then (true, tl) else (false, s)
                    | [] => (false, s)
                    end in
  match lex_int s1 with
  | None => None
  | Some (ip, r1) =>
      match lex_frac r1 with
      | None => None
      | Some (fp, r2) =>
          match lex_exp r2 with
          | None => None
          | Some (ep, r3) =>
              match fp, ep with
              | [], [] =>
                  let d := uint_of_chars ip in
                  Some (JNum (Z.of_int (if neg then Decimal.Neg d else Decimal.Pos d)), r3)
              | _, _ =>
                  Some (JReal ((if neg then [45] else []) ++ ip ++ fp ++ ep), r3)
              end
          end
      end
  end.

(** Writing a property: a key already there keeps its place and takes
    the new value. *)
Fixpoint obj_set (k : jstring) (v : jsval) (l : list (jstring * jsval))
  : list (jstring * jsval) :=
  match l with
  | [] => [(k, v)]
  | (k', v') :: l' =>
      if str_eqb k' k then (k', v) :: l' else (k', v') :: obj_set k v l'
  end.

Definition build_object (ms : list (jstring * jsval)) : jsval :=
  JObj (fold_left (fun acc kv => obj_set (fst kv) (snd kv) acc) ms []).

(** Recursive descent over the JSON grammar; [fuel] bounds the nesting
    and the number of elements, and the length of the text is enough. *)
Fixpoint parse_val (fuel : nat) (s : jstring) {struct fuel}
  : option (jsval * jstring) :=
  match fuel with
  | O => None
  | S f =>
      match skip_ws s with
      | [] => None
      | c :: tl =>
          if c =? 123 then
            match starts_with [125] (skip_ws tl) with
            | Some r => Some (JObj [], r)
            | None =>
                match parse_members f tl with
                | Some (ms, r) => Some (build_object ms, r)
                | None => None
                end
            end
          else if c =? 91 then
            match starts_with [93] (skip_ws tl) with
            | Some r => Some (JArr [], r)
            | None =>
                match parse_elems f tl with
                | Some (vs, r) => Some (JArr vs, r)
                | None => None
                end
            end
          else if c =? 34 then
            match parse_string tl with
            | Some (str, r) => Some (JStr str, r)
            | None => None
            end
          else
            match c :: tl with
            | 116 :: 114 :: 117 :: 101 :: r => Some (JBool true, r)
            | 102 :: 97 :: 108 :: 115 :: 101 :: r => Some (JBool false, r)
            | 110 :: 117 :: 108 :: 108 :: r => Some (JNull, r)
            | _ => parse_number (c :: tl)
            end
      end
  end
with parse_elems (fuel : nat) (s : jstring) {struct fuel}
  : option (list jsval * jstring) :=
  match fuel with
  | O => None
  | S f =>
      match parse_val f s with
      | None => None
      | Some (v, r) =>
          match skip_ws r with
          | 44 :: r' =>
              match parse_elems f r' with
              | Some (vs, r'') => Some (v :: vs, r'')
              | None => None
              end
          | 93 :: r' => Some ([v], r')
          | _ => None
          end
      end
  end
with parse_members (fuel : nat) (s : jstring) {struct fuel}
  : option (list (jstring * jsval) * jstring) :=
  match fuel with
  | O => None
  | S f =>
      match skip_ws s with
      | 34 :: r =>
          match parse_string r with
          | None => None
          | Some (k, r1) =>
              match skip_ws r1 with
              | 58 :: r2 =>
                  match parse_val f r2 with
                  | None => None
                  | Some (v, r3) =>
                      match skip_ws r3 with
                      | 44 :: r4 =>
                          match parse_members f r4 with
                          | Some (ms, r5) => Some ((k, v) :: ms, r5)
                          | None => None
                          end
                      | 125 :: r4 => Some ([(k, v)], r4)
                      | _ => None
                      end
                  end
              | _ => None
              end
          end
      | _ => None
      end
  end.

(** [JSON.parse(s)]; [None] is the [SyntaxError]. *)
Definition JSON_parse (s : jstring) : option jsval :=
  match parse_val (S (length s)) s with
  | Some (v, r) => match skip_ws r with [] => Some v | _ => None end
  | None => None
  end.

End Text.

(** ** Transport encodings: [encodeURIComponent], [unescape], [btoa] and
    their inverses *)

Section Transport.
Local Open Scope N_scope.

(** The UTF-8 octets of a code point. *)
Definition utf8 (v : N) : list N :=
  if v <? 128 then [v]
  else if v <? 2048 then [192 + v / 64; 128 + v mod 64]
  else if v <? 65536 then
    [224 + v / 4096; 128 + (v / 64) mod 64; 128 + v mod 64]
  else
    [240 + v / 262144; 128 + (v / 4096) mod 64;
     128 + (v / 64) mod 64; 128 + v mod 64].

(** [%XX], upper case. *)
Definition pct (b : N) : jstring := [37; hexu (b / 16); hexu (b mod 16)].

(** [A-Z a-z 0-9 - _ . ! ~ * ' ( )] *)
Definition uriUnreserved (c : N) : bool :=
  is_alnum c || mem c [45; 95; 46; 33; 126; 42; 39; 40; 41].

(** [encodeURIComponent(s)]; [None] is the [URIError] on a lone
    surrogate. *)
Fixpoint encodeURIComponent (s : jstring) : option jstring :=
  match s with
  | [] => Some []
  | c :: tl =>
      if uriUnreserved c then option_map (cons c) (encodeURIComponent tl)
      else if is_low c then None
      else if is_high c then
        match tl with
        | l :: tl' =>
            if is_low l then
              option_map
                (app (flat_map pct (utf8 ((c - 55296) * 1024 + (l - 56320) + 65536))))
                (encodeURIComponent tl')
            else None
        | [] => None
        end
      else option_map (app (flat_map pct (utf8 c))) (encodeURIComponent tl)
  end.

(** [unescape(s)]: [%uXXXX] and [%XX] become the code unit they name; a
    [%] that starts neither stays. *)
Fixpoint unescape (s : jstring) : jstring :=
  match s with
  | [] => []
  | c :: tl =>
      if c =? 37 then
        match tl with
        | a :: tl1 =>
            if a =? 117 then
              match tl1 with
              | h1 :: h2 :: h3 :: h4 :: tl' =>
                  match hex4 h1 h2 h3 h4 with
                  | Some u => u :: unescape tl'
                  | None => c :: unescape tl
                  end
              | _ => c :: unescape tl
              end
            else
              match tl1 with
              | b :: tl' =>
                  match hex2 a b with
                  | Some u => u :: unescape tl'
                  | None => c :: unescape tl
                  end
              | [] => c :: unescape tl
              end
        | [] => c :: unescape tl
        end
      else c :: unescape tl
  end.

(** [A-Z a-z 0-9 @ * _ + - . /] *)
Definition escapeUnreserved (c : N) : bool :=
  is_alnum c || mem c [64; 42; 95; 43; 45; 46; 47].

Definition escape1 (c : N) : jstring :=
  if escapeUnreserved c then [c]
  else if c <? 256 then pct c
  else [37; 117; hexu (c / 4096); hexu ((c / 256) mod 16);
        hexu ((c / 16) mod 16); hexu (c mod 16)].

(** [escape(s)] *)
Definition escape (s : jstring) : jstring := flat_map escape1 s.

(** One [%XX] continuation octet: its six payload bits. *)
Definition continuation (s : jstring) : option (N * jstring) :=
  match s with
  | c :: a :: b :: tl =>
      if c =? 37 then
        match hex2 a b with
        | Some o => if in_range 128 191 o then Some (o - 128, tl) else None
        | None => None
        end
      else None
  | _ => None
  end.

(** The code units of a code point. *)
Definition utf16 (v : N) : jstring :=
  if v <? 65536 then [v]
  else [55296 + (v - 65536) / 1024; 56320 + (v - 65536) mod 1024].

Fixpoint decodeURI_go (fuel : nat) (s : jstring) : option jstring :=
  match fuel with
  | O => None
  | S f =>
      match s with
      | [] => Some []
      | c :: tl =>
          if c =? 37 then
            match tl with
            | a :: b :: tl1 =>
                match hex2 a b with
                | None => None
                | Some o =>
                    if o <? 128 then option_map (cons o) (decodeURI_go f tl1)
                    else if o <? 192 then None
                    else if o <? 224 then
                      match continuation tl1 with
                      | Some (c1, tl2) =>
                          let v := (o - 192) * 64 + c1 in
                          if v <? 128 then None
                          else option_map (app (utf16 v)) (decodeURI_go f tl2)
                      | None => None
                      end
                    else if o <? 240 then
                      match continuation tl1 with
                      | Some (c1, tl2) =>
                          match continuation tl2 with
                          | Some (c2, tl3) =>
                              let v := (o - 224) * 4096 + c1 * 64 + c2 in
                              if (v <? 2048) || in_range 55296 57343 v then None
                              else option_map (app (utf16 v)) (decodeURI_go f tl3)
                          | None => None
                          end
                      | None => None
                      end
                    else if o <? 248 then
                      match continuation tl1 with
                      | Some (c1, tl2) =>
                          match continuation tl2 with
                          | Some (c2, tl3) =>
                              match continuation tl3 with
                              | Some (c3, tl4) =>
                                  let v := (o - 240) * 262144 + c1 * 4096 + c2 * 64 + c3 in
                                  if in_range 65536 1114111 v
                                  then option_map (app (utf16 v)) (decodeURI_go f tl4)
                                  else None
                              | None => None
                              end
                          | None => None
                          end
                      | None => None
                      end
                    else None
                end
            | _ => None
            end
          else option_map (cons c) (decodeURI_go f tl)
      end
  end.

(** [decodeURIComponent(s)]; [None] is the [URIError]. *)
Definition decodeURIComponent (s : jstring) : option jstring :=
  decodeURI_go (S (length s)) s.

(** The base64 alphabet. *)
Definition b64char (n : N) : N :=
  if n <? 26 then 65 + n
  else if n <? 52 then 71 + n
  else if n <? 62 then n - 4
  else if n =? 62 then 43 else 47.

Definition b64val (c : N) : option N :=
  if in_range 65 90 c then Some (c - 65)
  else if in_range 97 122 c then Some (c - 71)
  else if in_range 48 57 c then Some (c + 4)
  else if c =? 43 then Some 62
  else if c =? 47 then Some 63
  else None.

Fixpoint b64enc (s : list N) : jstring :=
  match s with
  | a :: b :: c :: tl =>
      b64char (a / 4) :: b64char ((a mod 4) * 16 + b / 16)
        :: b64char ((b mod 16) * 4 + c / 64) :: b64char (c mod 64) :: b64enc tl
  | [a; b] =>
      [b64char (a / 4); b64char ((a mod 4) * 16 + b / 16);
       b64char ((b mod 16) * 4); 61]
  | [a] => [b64char (a / 4); b64char ((a mod 4) * 16); 61; 61]
  | [] => []
  end.

(** [btoa(s)]; [None] is the error on a code unit above 255. *)
Definition btoa (s : jstring) : option jstring :=
  if forallb (fun c => c <? 256) s then Some (b64enc s) else None.

Fixpoint b64dec (l : list N) : list N :=
  match l with
  | a :: b :: c :: d :: tl =>
      (a * 4 + b / 16) :: ((b mod 16) * 16 + c / 4) :: ((c mod 4) * 64 + d)
        :: b64dec tl
  | [a; b; c] => [a * 4 + b / 16; (b mod 16) * 16 + c / 4]
  | [a; b] => [a * 4 + b / 16]
  | _ => []
  end.

Fixpoint sextets (s : jstring) : option (list N) :=
  match s with
  | [] => Some []
  | c :: tl =>
      match b64val c, sextets tl with
      | Some v, Some l => Some (v :: l)
      | _, _ => None
      end
  end.

(** The text without its one or two closing [=]. *)
Fixpoint remove_padding (s : jstring) : jstring :=
  match s with
  | [] => []
  | [a] => if a =? 61 then [] else [a]
  | [a; b] => if b =? 61 then (if a =? 61 then [] else [a]) else [a; b]
  | c :: tl => c :: remove_padding tl
  end.

(** Padding counts only in a text whose length is a multiple of four. *)
Definition strip_padding (s : jstring) : jstring :=
  if (N.of_nat (length s) mod 4 =? 0) then remove_padding s else s.

(** [atob(s)], the forgiving base64 decoder; [None] is its error. *)
Definition atob (s : jstring) : option jstring :=
  let s1 := List.filter (fun c => negb (mem c [9; 10; 12; 13; 32])) s in
  let s2 := strip_padding s1 in
  if N.of_nat (length s2) mod 4 =? 1 then None
  else option_map b64dec (sextets s2).

End Transport.

(** ** Share-state codec (lines 392-393) *)

(** [encodeState(data)]; [None] when the fallback of the [catch] throws
    too. *)
Definition encodeState (data : jsval) : option jstring :=
  let text := match JSON_stringify data with
              | Some t => t
              | None => lit "undefined"
              end in
  match encodeURIComponent text with
  | Some p =>
      match btoa (unescape p) with
      | Some token => Some token
      | None => btoa text
      end
  | None => btoa text
  end.

(** [decodeState(s)]; [None] when the fallback of the [catch] throws too. *)
Definition decodeState (s : jstring) : option jsval :=
  let fallback := match atob s with
                  | Some bytes => JSON_parse bytes
                  | None => None
                  end in
  match atob s with
  | Some bytes =>
      match decodeURIComponent (escape bytes) with
      | Some text =>
          match JSON_parse text with
          | Some v => Some v
          | None => fallback
          end
      | None => fallback
      end
  | None => fallback
  end.

(** ** Tasks and settings as JavaScript objects

    [Task] and [Settings] are TypeScript views of plain objects.  An absent
    optional field is a property that is missing or holds [undefined]. *)

(** [v.k] for a [v] that is neither [null] nor [undefined]. *)
Definition prop (k : jstring) (v : jsval) : jsval :=
  match v with
  | JObj l =>
      match List.find (fun kv => str_eqb (fst kv) k) l with
      | Some kv => snd kv
      | None => JUndefined
      end
  | _ => JUndefined
  end.

Definition Status_str (s : Status) : jstring :=
  match s with
  | NotStarted => lit "Not Started"
  | InProgress => lit "In Progress"
  | Done => lit "Done"
  end.

Definition Status_of_str (s : jstring) : option Status :=
  if str_eqb s (lit "Not Started") then Some NotStarted
  else if str_eqb s (lit "In Progress") then Some InProgress
  else if str_eqb s (lit "Done") then Some Done
  else None.

Definition optional {A : Type} (f : A -> jsval) (o : option A) : jsval :=
  match o with Some x => f x | None => JUndefined end.

Definition Task_toJS (t : Task) : jsval :=
  JObj [ (lit "id", JStr (id t));
         (lit "title", JStr (title t));
         (lit "category", JStr (category t));
         (lit "assignee", JStr (assignee t));
         (lit "status", JStr (Status_str (status t)));
         (lit "details", optional JStr (details t));
         (lit "sla", optional JStr (sla t));
         (lit "reminderLeadMinutes", optional JNum (reminderLeadMinutes t));
         (lit "reminderSent", optional JBool (reminderSent t));
         (lit "createdAt", JStr (createdAt t));
         (lit "updatedAt", JStr (updatedAt t)) ].

Definition Settings_toJS (s : Settings) : jsval :=
  JObj [ (lit "kickoffISO", optional JStr (kickoffISO s)) ].

Definition as_str (v : jsval) : option jstring :=
  match v with JStr s => Some s | _ => None end.

Definition as_num (v : jsval) : option Z :=
  match v with JNum z => Some z | _ => None end.

Definition as_bool (v : jsval) : option bool :=
  match v with JBool b => Some b | _ => None end.

Definition as_optional {A : Type} (f : jsval -> option A) (v : jsval)
  : option (option A) :=
  match v with
  | JUndefined => Some None
  | _ => option_map Some (f v)
  end.

(** The task an object denotes, when its properties have the types of
    [Task]. *)
Definition Task_ofJS (v : jsval) : option Task :=
  i ← as_str (prop (lit "id") v);
  ti ← as_str (prop (lit "title") v);
  ca ← as_str (prop (lit "category") v);
  a ← as_str (prop (lit "assignee") v);
  st ← as_str (prop (lit "status") v) ≫= Status_of_str;
  d ← as_optional as_str (prop (lit "details") v);
  sl ← as_optional as_str (prop (lit "sla") v);
  le ← as_optional as_num (prop (lit "reminderLeadMinutes") v);
  se ← as_optional as_bool (prop (lit "reminderSent") v);
  cr ← as_str (prop (lit "createdAt") v);
  up ← as_str (prop (lit "updatedAt") v);
  Some (mkTask i ti ca a st d sl le se cr up).

Fixpoint Tasks_ofJS_list (l : list jsval) : option (list Task) :=
  match l with
  | [] => Some []
  | v :: l' =>
      t ← Task_ofJS v; ts ← Tasks_ofJS_list l'; Some (t :: ts)
  end.

Definition Tasks_ofJS (v : jsval) : option (list Task) :=
  match v with JArr l => Tasks_ofJS_list l | _ => None end.

Definition Settings_ofJS (v : jsval) : option Settings :=
  match v with
  | JObj _ => k ← as_optional as_str (prop (lit "kickoffISO") v); Some (mkSettings k)
  | _ => None
  end.

(** The snapshot [{ tasks, settings }] of [openShare]. *)
Record Snapshot : Type := mkSnapshot {
  snap_tasks : list Task;
  snap_settings : Settings
}.

Definition Snapshot_toJS (s : Snapshot) : jsval :=
  JObj [ (lit "tasks", JArr (List.map Task_toJS (snap_tasks s)));
         (lit "settings", Settings_toJS (snap_settings s)) ].

Definition Snapshot_ofJS (v : jsval) : option Snapshot :=
  ts ← Tasks_ofJS (prop (lit "tasks") v);
  se ← Settings_ofJS (prop (lit "settings") v);
  Some (mkSnapshot ts se).

(** Every code unit of the snapshot's strings is a 16-bit value. *)
Definition units_ok (s : jstring) : bool := forallb (fun c => N.ltb c 65536) s.

Definition opt_units_ok (o : option jstring) : bool :=
  match o with Some s => units_ok s | None => true end.

Definition Task_ok (t : Task) : bool :=
  units_ok (id t) && units_ok (title t) && units_ok (category t)
  && units_ok (assignee t) && opt_units_ok (details t) && opt_units_ok (sla t)
  && units_ok (createdAt t) && units_ok (updatedAt t).

Definition Snapshot_ok (s : Snapshot) : bool :=
  forallb Task_ok (snap_tasks s) && opt_units_ok (kickoffISO (snap_settings s)).

(** ** Share-link import (line 395) *)

Inductive Cmd : Type :=
| Alert (msg : jstring)
| SetTasks (v : jsval)
| SetSettings (v : jsval)
| ReplaceState.

(** A number literal that is not zero written out (a literal that
    underflows to zero is not told apart). *)
Fixpoint mantissa_nonzero (s : jstring) : bool :=
  match s with
  | [] => false
  | c :: tl =>
      if mem c [101; 69]%N then false
      else in_range 49 57 c || mantissa_nonzero tl
  end.

Definition js_truthy (v : jsval) : bool :=
  match v with
  | JUndefined | JNull => false
  | JBool b => b
  | JNum z => negb (Z.eqb z 0)
  | JReal l => mantissa_nonzero l
  | JStr s => match s with [] => false | _ => true end
  | JArr _ | JObj _ => true
  end.

Definition is_array (v : jsval) : bool :=
  match v with JArr _ => true | _ => false end.

(** What the import effect does at mount for the fragment [hash];
    [confirmed] is the answer to the [confirm] dialog, should it open. *)
Definition importEffect (hash : jstring) (confirmed : bool) : list Cmd :=
  match starts_with (lit "#state=") hash with
  | None => []
  | Some stateStr =>
      (match decodeState stateStr with
       | None => [Alert (lit "Bad share link")]
       | Some obj =>
           if confirmed then
             match obj with
             | JNull | JUndefined => [Alert (lit "Bad share link")]
             | _ =>
                 (if js_truthy (prop (lit "tasks") obj) && is_array (prop (lit "tasks") obj)
                  then [SetTasks (prop (lit "tasks") obj)] else [])
                 ++ (if js_truthy (prop (lit "settings") obj)
                     then [SetSettings (prop (lit "settings") obj)] else [])
             end
           else []
       end) ++ [ReplaceState]
  end.

(** ** The reconciliation engine: React state of [App] (lines 351-395, 506)

    [tasks] is the canonical list; [tasksLocal] is the state of
    [useLocalStorage]; [storage] is [localStorage], holding for each key
    the value [ls.write] was given. *)

Inductive Stored : Type :=
| STasks (l : list Task)
| SSettings (s : Settings)
| SPeople (l : list jstring).

Record CloudConfig : Type := mkCloud { url : jstring; key : jstring }.

Record App : Type := mkApp {
  tasks : list Task;
  settings : Settings;
  tasksLocal : list Task;
  settingsLocal : Settings;
  storage : gmap jstring Stored;
  client : option CloudConfig;
  connected : bool;
  error : option jstring
}.

Inductive RemoteCall : Type :=
| UpsertTrip                                  (* [trips.upsert({ slug })] *)
| UpsertKickoff (iso : option jstring)
| UpsertTask (r : Row)
| InsertTask (r : Row)
| DeleteRow (i : jstring)
| SelectTasks.

(** A value thrown or rejected with: its [message] property and its
    [String(e)]. *)
Record Thrown : Type := mkThrown { e_message : option jstring; e_text : jstring }.

(** What an awaited remote call settles to: the client resolves to
    [{ data, error }] (line 346 reads both), or the promise rejects. *)
Inductive Settled (A : Type) : Type :=
| Resolved (data : option A) (err : option Thrown)
| Rejected (e : Thrown).
Arguments Resolved {A} data err.
Arguments Rejected {A} e.

Section Engine.

Variable tripSlug : jstring.
Variable getTime : jstring -> jsnum.
Variable formatDateTime : jstring -> jstring.

Definition tasksKey : jstring := lit "fh25.tasks." ++ tripSlug.
Definition settingsKey : jstring := lit "fh25.settings." ++ tripSlug.

(** [ls.read(k, fallback)] on the tasks key. *)
Definition readTasks (st : gmap jstring Stored) (fallback : list Task) : list Task :=
  match st !! tasksKey with
  | Some (STasks l) => l
  | _ => fallback
  end.

Definition with_tasks (l : list Task) (a : App) : App :=
  mkApp l (settings a) (tasksLocal a) (settingsLocal a) (storage a)
        (client a) (connected a) (error a).

Definition with_settings (s : Settings) (a : App) : App :=
  mkApp (tasks a) s (tasksLocal a) (settingsLocal a) (storage a)
        (client a) (connected a) (error a).

(** The effects of lines 381 and 56 after a render in which [tasks]
    changed: [setTasksLocal(tasks)], then [ls.write(key, val)]. *)
Definition persistTasks (a : App) : App :=
  mkApp (tasks a) (settings a) (tasks a) (settingsLocal a)
        (<[tasksKey := STasks (tasks a)]> (storage a))
        (client a) (connected a) (error a).

Definition persistSettings (a : App) : App :=
  mkApp (tasks a) (settings a) (tasksLocal a) (settings a)
        (<[settingsKey := SSettings (settings a)]> (storage a))
        (client a) (connected a) (error a).

(** [setTasks(updater)]: when the updater hands back a new array the
    component renders again and the persist effects run; when it hands
    back [prev] ([None]) React bails out. *)
Definition setTasks (upd : list Task -> option (list Task)) (a : App) : App :=
  match upd (tasks a) with
  | Some l => persistTasks (with_tasks l a)
  | None => a
  end.

Definition setSettings (s : Settings) (a : App) : App :=
  persistSettings (with_settings s a).

(** [client && connected] *)
Definition online (a : App) : bool :=
  match client a with Some _ => connected a | None => false end.

Definition remote (a : App) (calls : list RemoteCall) : list RemoteCall :=
  if online a then calls else [].

(** The first render: state seeded from the cache, then the mount
    effects of [useLocalStorage]. *)
Definition mount (st : gmap jstring Stored) (seed : list Task) : App :=
  let l := readTasks st seed in
  let s := match st !! settingsKey with
           | Some (SSettings s) => s
           | _ => mkSettings None
           end in
  mkApp l s l s (<[settingsKey := SSettings s]> (<[tasksKey := STasks l]> st))
        None false None.

Inductive Action : Type :=
| AddTask (t : Task)
| UpdateTask (next : Task)
| DeleteTask (i : jstring)
| LiveEvent (stamp : jstring) (p : Payload)
| ReminderTick (now : Z) (stamp : jstring)
| ImportTasks (l : list Task)
| ImportSettings (s : Settings)
| CloudTasks (stamp : jstring) (outcome : Settled (list Row))
| ResetDemo (seed : list Task)
| SetKickoff (iso : option jstring).

(** The upserts of the [onFlag] calls of one tick: each looks its task up
    in the list the render closed over. *)
Definition flagCalls (stamp : jstring) (closure : list Task) (evs : list Remind)
  : list RemoteCall :=
  flat_map (fun ev =>
              match List.find (fun x => str_eqb (id x) (rem_id ev)) closure with
              | Some t => [UpsertTask (taskToDb (set_updatedAt stamp (set_reminderSent true t)))]
              | None => []
              end) evs.

(** One handler run to completion, with the effects it triggers. *)
Definition step (act : Action) (a : App) : App * list RemoteCall :=
  match act with
  | AddTask t =>
      (setTasks (fun prev => Some (addTask_upd t prev)) a, remote a [InsertTask (taskToDb t)])
  | UpdateTask next =>
      (setTasks (fun prev => Some (updateTask_upd next prev)) a,
       remote a [UpsertTask (taskToDb next)])
  | DeleteTask i =>
      (setTasks (fun prev => Some (deleteTask_upd i prev)) a, remote a [DeleteRow i])
  | LiveEvent stamp p =>
      (if online a then setTasks (liveUpdater stamp p) a else a, [])
  | ReminderTick now stamp =>
      let '(evs, l) := tick getTime formatDateTime now stamp (tasks a) in
      (setTasks (fun _ => match evs with [] => None | _ => Some l end) a,
       remote a (flagCalls stamp (tasks a) evs))
  | ImportTasks l => (setTasks (fun _ => Some l) a, [])
  | ImportSettings s => (setSettings s a, [])
  | CloudTasks stamp outcome =>
      if online a then
        match outcome with
        | Resolved data None =>
            (setTasks (fun _ => Some (List.map (dbToTask stamp) (nullish data []))) a,
             [SelectTasks])
        | _ => (a, [SelectTasks])
        end
      else (a, [])
  | ResetDemo seed => (setTasks (fun _ => Some seed) a, [])
  | SetKickoff iso =>
      (setSettings (mkSettings iso) a, remote a [UpsertKickoff iso])
  end.

Fixpoint run (acts : list Action) (a : App) : App * list RemoteCall :=
  match acts with
  | [] => (a, [])
  | act :: rest =>
      let '(a1, c1) := step act a in
      let '(a2, c2) := run rest a1 in
      (a2, c1 ++ c2)
  end.

(** What the commands of the import effect do to the state; [None] when
    a setter is handed a value outside the data model. *)
Definition applyCmd (c : Cmd) (a : App) : option App :=
  match c with
  | SetTasks v => option_map (fun l => fst (step (ImportTasks l) a)) (Tasks_ofJS v)
  | SetSettings v => option_map (fun s => fst (step (ImportSettings s) a)) (Settings_ofJS v)
  | Alert _ | ReplaceState => Some a
  end.

Fixpoint applyCmds (cs : list Cmd) (a : App) : option App :=
  match cs with
  | [] => Some a
  | c :: cs' => match applyCmd c a with
                | Some a' => applyCmds cs' a'
                | None => None
                end
  end.

(** *** [useSupabase] (lines 315-344) *)

Definition with_conn (c : option CloudConfig) (on : bool) (e : option jstring)
           (a : App) : App :=
  mkApp (tasks a) (settings a) (tasksLocal a) (settingsLocal a) (storage a) c on e.

(** First effect: [getEnvSupabase()] resolved to [env]. *)
Definition createClientEffect (env : option CloudConfig) (a : App) : App :=
  match env with
  | Some cfg => with_conn (Some cfg) (connected a) (error a) a
  | None => a
  end.

(** [String(e.message || e)] *)
Definition errorText (e : Thrown) : jstring :=
  match truthy (e_message e) with
  | Some m => m
  | None => e_text e
  end.

(** Second effect, [run()]: the awaited upsert settles to [outcome]. *)
Definition ensureTrip (outcome : Settled unit) (a : App) : App * list RemoteCall :=
  match client a with
  | None => (a, [])
  | Some cfg =>
      match outcome with
      | Resolved _ _ => (with_conn (Some cfg) true (error a) a, [UpsertTrip])
      | Rejected e => (with_conn (Some cfg) false (Some (errorText e)) a, [UpsertTrip])
      end
  end.

(** Start of a session: mount, the two effects in order (the second sees
    no client yet), and the second again once [client] has changed. *)
Definition startSession (st : gmap jstring Stored) (seed : list Task)
           (env : option CloudConfig) (outcome : Settled unit)
  : App * list RemoteCall :=
  let a0 := mount st seed in
  let '(a1, c1) := ensureTrip outcome a0 in
  let a2 := createClientEffect env a1 in
  let '(a3, c3) := match env with
                   | Some _ => ensureTrip outcome a2
                   | None => (a2, [])
                   end in
  (a3, c1 ++ c3).

End Engine.

(** ** Cache keys (lines 298-299 and 354-361) *)

Definition peopleKey (tripSlug : jstring) : jstring := lit "fh25.people." ++ tripSlug.

Definition supabaseUrlKey : jstring := lit "fh25.supabase.url".
Definition supabaseKeyKey : jstring := lit "fh25.supabase.key".

(** ** The cache as text: [ls] (lines 46-50)

    [localStorage] maps keys to strings; [ls.write] stores the JSON text of
    a value and [ls.read] parses it back, with a fallback. *)

(** [ls.write(k, v)]: [setItem] turns the [undefined] that
    [JSON.stringify(undefined)] returns into the text [undefined]. *)
Definition ls_write (k : jstring) (v : jsval) (st : gmap jstring jstring)
  : gmap jstring jstring :=
  <[k := match JSON_stringify v with
         | Some text => text
         | None => lit "undefined"
         end]> st.

(** [ls.read(k, fallback)]: the fallback when the key is missing, when the
    text is empty and when [JSON.parse] throws. *)
Definition ls_read (st : gmap jstring jstring) (k : jstring) (fallback : jsval)
  : jsval :=
  match st !! k with
  | Some (c :: raw) =>
      match JSON_parse (c :: raw) with
      | Some v => v
      | None => fallback
      end
  | _ => fallback
  end.

Definition ls_remove (k : jstring) (st : gmap jstring jstring)
  : gmap jstring jstring :=
  delete k st.

(** ** Countdown (lines 100-110) *)

Record Parts : Type := mkParts {
  days : Z;
  hours : Z;
  minutes : Z;
  seconds : Z
}.

Section Countdown.

Variable getTime : jstring -> jsnum.

(** [target]: [undefined] is [None]. *)
Definition countdownTarget (kickoff : option jstring) : option jsnum :=
  option_map getTime (truthy kickoff).

(** [diff]: a target that is [undefined], [0] or [NaN] is falsy.  The
    other targets are numbers, and so is [Math.max(0, target - now)]. *)
Definition countdownDiff (kickoff : option jstring) (now : Z) : option Z :=
  match countdownTarget kickoff with
  | Some (Num t) => if t =? 0 then None else Some (Z.max 0 (t - now))
  | Some NaN | None => None
  end.

(** [parts]; [%] is the remainder that takes the sign of the dividend.
    The quotients are exact in a double: [diff] is below [8.8e15], so
    [diff / 1000] is below [2^43], where doubles are spaced less than
    [1/1000] apart. *)
Definition countdownParts (kickoff : option jstring) (now : Z) : option Parts :=
  match countdownDiff kickoff now with
  | None => None
  | Some diff =>
      let s := diff / 1000 in
      Some {| days := s / 86400;
              hours := Z.rem s 86400 / 3600;
              minutes := Z.rem s 3600 / 60;
              seconds := Z.rem s 60 |}
  end.

End Countdown.

(** ** New-task form (lines 140-148) *)

Record Form : Type := mkForm {
  f_title : jstring;
  f_category : jstring;
  f_assignee : jstring;
  f_status : Status;
  f_details : jstring;
  f_sla : jstring;               (* the value of the datetime-local input *)
  f_lead : option jsnum          (* [lead]: a number or [undefined] *)
}.

Section TaskForm.

Variable localToISO : jstring -> jstring.

(** The task [submit] hands to [onAdd]; [fresh] is what [uid()] returns and
    [stamp] is [new Date().toISOString()]. *)
Definition submit (fresh stamp : jstring) (f : Form) : Task :=
  {| id := fresh;
     title := f_title f;
     category := f_category f;
     assignee := f_assignee f;
     status := f_status f;
     details := truthy (Some (f_details f));
     sla := match f_sla f with [] => None | _ => Some (localToISO (f_sla f)) end;
     reminderLeadMinutes := match f_lead f with
                            | Some (Num z) => Some z
                            | Some NaN | None => None
                            end;
     reminderSent := None;
     createdAt := stamp;
     updatedAt := stamp |}.

End TaskForm.

(** ** Demo data (lines 12-21 and 251) *)

Definition PEOPLE : list jstring :=
  [lit "Buzza"; lit "Stork"; lit "Marty"; lit "Robbie"; lit "Ronnie"].

Definition DEFAULT_TASKS : list jstring :=
  [lit "Flights"; lit "Accommodation"; lit "Golf Games"; lit "Car Hire";
   lit "Grocery"; lit "Liquor"; lit "Partay Supplies"].

(** The note of the third seed task; 8226 is the bullet. *)
Definition seedNote : jstring :=
  lit "Book 2x rounds " ++ [8226%N] ++ lit " 8am tee times " ++ [8226%N]
  ++ lit " 4 players".

Section Seeds.

(** [new Date(ms).toISOString()] of the runtime. *)
Variable toISOString : Z -> jstring.

(** [fresh i] is what the [i]-th call of [uid()] returns and [roll i] what
    the [i]-th [Math.floor(Math.random() * 5)] does, a number below 5. *)
Variable fresh : nat -> jstring.
Variable roll : nat -> nat.

Definition plusDays (now : Z) (d : Z) : jstring :=
  toISOString (now + d * 24 * 3600 * 1000).

Definition seedTask (now : Z) (i : nat) (cat : jstring) : Task :=
  {| id := fresh i;
     title := cat;
     category := cat;
     assignee := nth (roll i) PEOPLE [];
     status := match (i mod 3)%nat with
               | O => Done
               | 1%nat => InProgress
               | _ => NotStarted
               end;
     details := Some (if (i =? 2)%nat then seedNote else []);
     sla := Some (plusDays now (Z.of_nat i + 1));
     reminderLeadMinutes := Some 60;
     reminderSent := Some false;
     createdAt := toISOString now;
     updatedAt := toISOString now |}.

(** [makeSeedTasks()], with the clock reading [now]. *)
Definition makeSeedTasks (now : Z) : list Task :=
  List.map (fun ic => seedTask now (fst ic) (snd ic))
           (combine (seq 0 (length DEFAULT_TASKS)) DEFAULT_TASKS).

End Seeds.

(** ** Assignees (lines 361-362 and 477) *)

(** [set.add(x)] on a set kept in insertion order. *)
Definition Set_add (x : jstring) (set : list jstring) : list jstring :=
  if existsb (str_eqb x) set then set else set ++ [x].

(** [Array.from(new Set(l))] *)
Definition Array_from_Set (l : list jstring) : list jstring :=
  fold_left (fun set x => Set_add x set) l [].

(** [allAssignees] *)
Definition allAssignees (people : list jstring) (tasks : list Task) : list jstring :=
  Array_from_Set
    (people ++ List.filter (fun s => match s with [] => false | _ => true end)
                           (List.map assignee tasks)).

(** White space and line terminators, what [trim] strips. *)
Definition is_space (c : N) : bool :=
  mem c [9; 10; 11; 12; 13; 32; 160; 5760; 8232; 8233; 8239; 8287; 12288; 65279]%N
  || in_range 8192 8202 c.

Fixpoint trimStart (s : jstring) : jstring :=
  match s with
  | c :: r => if is_space c then trimStart r else s
  | [] => []
  end.

Definition trim (s : jstring) : jstring := rev (trimStart (rev (trimStart s))).

(** The Add button of the assignee dialog: the list of people after it. *)
Definition addPerson (newAssignee : jstring) (people : list jstring) : list jstring :=
  match trim newAssignee with
  | [] => people
  | n => if existsb (str_eqb n) people then people else people ++ [n]
  end.

(** ** Dashboard (lines 259-260 and 389) *)

Definition count (f : Task -> bool) (l : list Task) : nat :=
  length (List.filter f l).

Record Cards : Type := mkCards {
  n_total : nat;
  n_done : nat;
  n_inprog : nat;
  n_notStarted : nat;
  n_overdue : nat;
  n_soon : nat
}.

Record AssigneeRow : Type := mkAssigneeRow {
  a_name : jstring;
  a_total : nat;
  a_done : nat
}.

Section Dashboard.

Variable getTime : jstring -> jsnum.

(** Line 389, and [overdue] of the dashboard. *)
Definition overdueCount (now : Z) (l : list Task) : nat :=
  count (fun t => overdue (dueState getTime now t)) l.

(** The six numbers of the stat cards; [now] is the clock reading of the
    render. *)
Definition cards (now : Z) (l : list Task) : Cards :=
  {| n_total := length l;
     n_done := count (fun t => Status_eqb (status t) Done) l;
     n_inprog := count (fun t => Status_eqb (status t) InProgress) l;
     n_notStarted := count (fun t => Status_eqb (status t) NotStarted) l;
     n_overdue := overdueCount now l;
     n_soon := count (fun t => negb (overdue (dueState getTime now t))
                               && dueSoon (dueState getTime now t)) l |}.

Definition byAssignee (l : list Task) : list AssigneeRow :=
  List.map (fun name =>
              {| a_name := name;
                 a_total := count (fun t => str_eqb (assignee t) name) l;
                 a_done := count (fun t => str_eqb (assignee t) name
                                           && Status_eqb (status t) Done) l |})
           (Array_from_Set (List.map assignee l)).

End Dashboard.

(** ** Supabase credentials (lines 290-313, 398-399 and 490) *)

(** What [getEnvSupabase] reads besides the cache: the two globals, and
    what [get] returns on the query and on the fragment parameters. *)
Record Location : Type := mkLocation {
  SUPABASE_URL : jsval;
  SUPABASE_ANON_KEY : jsval;
  search_sb_url : option jstring;
  search_sb_key : option jstring;
  search_sb : option jstring;
  hash_sb_url : option jstring;
  hash_sb_key : option jstring;
  hash_sb : option jstring
}.

(** [a || b] *)
Definition or_else (a b : jsval) : jsval := if js_truthy a then a else b.

(** What [URLSearchParams.get] returns: a string or [null]. *)
Definition param (o : option jstring) : jsval :=
  match o with Some s => JStr s | None => JNull end.

(** [JSON.parse(atob(decodeURIComponent(packed)))]; [None] when one of the
    three throws. *)
Definition unpack (packed : jsval) : option jsval :=
  match packed with
  | JStr p =>
      match decodeURIComponent p with
      | Some b64 =>
          match atob b64 with
          | Some text => JSON_parse text
          | None => None
          end
      | None => None
      end
  | _ => None
  end.

(** [getEnvSupabase()]; [loc] is [None] when [new URL(href)] throws.
    Reading a property of [null] throws, into the inner [catch]. *)
Definition getEnvSupabase (loc : option Location) (st : gmap jstring jstring)
  : option (jsval * jsval) :=
  match loc with
  | None => None
  | Some l =>
      let url := or_else (or_else (or_else (SUPABASE_URL l) (param (search_sb_url l)))
                                  (param (hash_sb_url l)))
                         (ls_read st supabaseUrlKey JUndefined) in
      let key := or_else (or_else (or_else (SUPABASE_ANON_KEY l) (param (search_sb_key l)))
                                  (param (hash_sb_key l)))
                         (ls_read st supabaseKeyKey JUndefined) in
      let packed := or_else (param (search_sb l)) (param (hash_sb l)) in
      let '(url', key') :=
        if (negb (js_truthy url) || negb (js_truthy key)) && js_truthy packed then
          match unpack packed with
          | Some JNull | None => (url, key)
          | Some decoded =>
              (or_else (prop (lit "url") decoded) url,
               or_else (prop (lit "key") decoded) key)
          end
        else (url, key) in
      if js_truthy url' && js_truthy key' then Some (url', key') else None
  end.

(** The Connect button (line 490): [None] when it returns early. *)
Definition connectCloud (connUrl connKey : jstring) (st : gmap jstring jstring)
  : option (gmap jstring jstring) :=
  match connUrl, connKey with
  | _ :: _, _ :: _ =>
      Some (ls_write supabaseKeyKey (JStr connKey)
                     (ls_write supabaseUrlKey (JStr connUrl) st))
  | _, _ => None
  end.

(** [disconnectCloud()] (line 399), up to the reload. *)
Definition disconnectCloud (st : gmap jstring jstring) : gmap jstring jstring :=
  ls_remove supabaseKeyKey (ls_remove supabaseUrlKey st).

(** ** Share link (line 394) *)

(** The URL [openShare] shows; [None] when [encodeState] throws. *)
Definition openShare (origin pathname tripSlug : jstring) (a : App)
  : option jstring :=
  option_map
    (fun token => origin ++ pathname ++ lit "?trip=" ++ tripSlug
                  ++ lit "#state=" ++ token)
    (encodeState (Snapshot_toJS (mkSnapshot (tasks a) (settings a)))).

(** [location.hash] of a page opened at [href]: the fragment with its
    number sign (35), empty when there is none or it is empty.  The
    fragment of a share link is made of base64 characters, which the URL
    parser leaves as they are. *)
Fixpoint location_hash (href : jstring) : jstring :=
  match href with
  | [] => []
  | c :: r =>
      if (c =? 35)%N then match r with [] => [] | _ :: _ => href end
      else location_hash r
  end.

(** ** Sorted views (lines 189 and 275) *)

Definition js_lt (a b : jsnum) : bool :=
  match a, b with Num x, Num y => Z.ltb x y | _, _ => false end.

(** [Array.prototype.sort(cmp)], by insertion from the left; [before a b]
    is [cmp(a, b) < 0].  The sort of the runtime is stable, so for a
    comparator that orders the elements consistently this is its result;
    for another comparator the runtime may order the elements
    differently. *)
Fixpoint insert_sorted (before : Task -> Task -> bool) (x : Task) (l : list Task)
  : list Task :=
  match l with
  | [] => [x]
  | y :: r => if before x y then x :: l else y :: insert_sorted before x r
  end.

Definition Array_sort (before : Task -> Task -> bool) (l : list Task) : list Task :=
  fold_left (fun acc x => insert_sorted before x acc) l [].

(** [hay.includes(needle)] *)
Fixpoint includes (hay needle : jstring) : bool :=
  match starts_with needle hay with
  | Some _ => true
  | None => match hay with
            | [] => false
            | _ :: r => includes r needle
            end
  end.

(** [l.join(" ")] *)
Fixpoint join_space (l : list jstring) : jstring :=
  match l with
  | [] => []
  | [x] => x
  | x :: r => x ++ [32%N] ++ join_space r
  end.

Section Views.

Variable getTime : jstring -> jsnum.

(** [String.prototype.toLowerCase] of the runtime. *)
Variable toLowerCase : jstring -> jstring.

(** [new Date(t.sla!).getTime()] *)
Definition slaTime (t : Task) : jsnum := getTime (nullish (sla t) []).

(** The list under Upcoming SLAs (line 275); [now] is the clock reading
    of the render. *)
Definition upcoming (now : Z) (l : list Task) : list Task :=
  Array_sort
    (fun a b => js_lt (js_sub (slaTime a) (slaTime b)) (Num 0))
    (List.filter
       (fun t => js_lt (js_sub (slaTime t) (Num now)) (Num (72 * 3600 * 1000)))
       (List.filter
          (fun t => match truthy (sla t) with
                    | Some s => js_gt (getTime s) (Num now)
                    | None => false
                    end) l)).

(** Whether the line that nothing is due in the next 72 hours shows. *)
Definition nothingDue (now : Z) (l : list Task) : bool :=
  match List.filter
          (fun t => match truthy (sla t) with
                    | Some s => js_gt (getTime s) (Num now)
                                && js_lt (js_sub (getTime s) (Num now))
                                         (Num (72 * 3600 * 1000))
                    | None => false
                    end) l with
  | [] => true
  | _ => false
  end.

(** The text a row is searched in. *)
Definition searchText (t : Task) : jstring :=
  toLowerCase
    (join_space
       (List.filter (fun s => match s with [] => false | _ => true end)
                    [title t; category t; assignee t; Status_str (status t);
                     nullish (details t) []])).

(** The sort key of the order by due date: the deadline, or [Infinity]
    ([None]) without one. *)
Definition dueKey (t : Task) : option jsnum :=
  option_map getTime (truthy (sla t)).

(** Whether the comparator of the order by due date is negative:
    a difference with [NaN], and [Infinity - Infinity], are [NaN]. *)
Definition dueBefore (a b : Task) : bool :=
  match dueKey a, dueKey b with
  | Some x, Some y => js_lt (js_sub x y) (Num 0)
  | Some (Num _), None => true
  | _, _ => false
  end.

Definition updatedBefore (a b : Task) : bool :=
  js_lt (js_sub (getTime (updatedAt b)) (getTime (updatedAt a))) (Num 0).

(** [filtered] of the task table (line 189): [q], [who], [state] and
    [sort] are the search box and the three selects. *)
Definition filtered (q who state sort : jstring) (l : list Task) : list Task :=
  let l1 := if str_eqb who (lit "All") then l
            else List.filter (fun t => str_eqb (assignee t) who) l in
  let l2 := if str_eqb state (lit "All") then l1
            else List.filter (fun t => str_eqb (Status_str (status t)) state) l1 in
  let l3 := match trim q with
            | [] => l2
            | _ => List.filter (fun t => includes (searchText t) (toLowerCase q)) l2
            end in
  if str_eqb sort (lit "due") then Array_sort dueBefore l3
  else if str_eqb sort (lit "updated") then Array_sort updatedBefore l3
  else l3.

End Views.

(** ** Evaluation with effects (line 250 once more)

    Evaluating a function body can throw, and it can reach what outlives
    the call: the clock, and [localStorage] through [ls] (lines 46-50);
    the module itself declares no variable that is assigned again.  A
    computation takes the world it runs in and yields what the body
    returned or threw, with the world it leaves behind. *)

Record World : Type := mkWorld {
  dateNow : Z;                                (* what [Date.now()] returns *)
  localStorage : gmap jstring jstring
}.

Inductive Outcome (A : Type) : Type :=
| Returned (a : A)
| Threw (e : Thrown).
Arguments Returned {A} a.
Arguments Threw {A} e.

Definition Eval (A : Type) : Type := World -> Outcome A * World.

#[global] Instance Eval_ret : MRet Eval :=
  fun A (a : A) (w : World) => (Returned a, w).

#[global] Instance Eval_bind : MBind Eval :=
  fun A B (k : A -> Eval B) (m : Eval A) (w : World) =>
    match m w with
    | (Returned a, w') => k a w'
    | (Threw e, w') => (Threw e, w')
    end.

(** [throw e] *)
Definition throw {A : Type} (e : Thrown) : Eval A := fun w => (Threw e, w).

(** [Date.now()] *)
Definition Date_now : Eval Z := fun w => (Returned (dateNow w), w).

(** [localStorage.getItem(k)] and [localStorage.setItem(k, v)] *)
Definition getItem (k : jstring) : Eval (option jstring) :=
  fun w => (Returned (localStorage w !! k), w).

Definition setItem (k v : jstring) : Eval unit :=
  fun w => (Returned tt, mkWorld (dateNow w) (<[k := v]> (localStorage w))).

(** A [Date] object: its time value, [NaN] when the date is invalid. *)
Record DateObject : Type := mkDate { timeValue : jsnum }.

Section Evaluation.

Variable getTime : jstring -> jsnum.
Variable toISOString : Z -> jstring.

(** [new Date(s)] on a string: a string that is no date gives an invalid
    date, not an exception. *)
Definition Date_new (s : jstring) : Eval DateObject := mret (mkDate (getTime s)).

(** [d.getTime()] *)
Definition Date_getTime (d : DateObject) : Eval jsnum := mret (timeValue d).

(** [d.toISOString()]: a [RangeError] on an invalid date. *)
Definition Date_toISOString (d : DateObject) : Eval jstring :=
  match timeValue d with
  | Num ms => mret (toISOString ms)
  | NaN => throw (mkThrown (Some (lit "Invalid time value"))
                           (lit "RangeError: Invalid time value"))
  end.

(** [dueState(t)] statement by statement. *)
Definition evalDueState (t : Task) : Eval DueState :=
  match truthy (sla t) with
  | None => mret {| overdue := false; dueSoon := false; soonMins := Num 0 |}
  | Some s =>
      d ← Date_new s;
      due ← Date_getTime d;
      now ← Date_now;
      let overdue := js_gt (Num now) due && negb (Status_eqb (status t) Done) in
      let delta := Math_max (Num 0) (js_sub due (Num now)) in
      let soonMins := Math_floor_div delta 60000 in
      mret {| overdue := overdue;
              dueSoon := negb overdue && js_le soonMins (Num 240);
              soonMins := soonMins |}
  end.

(** The deadline edit of a table row (line 221), up to the call of
    [onUpdate]: the new deadline, or what [toISOString] throws. *)
Definition evalSlaEdit (v : jstring) : Eval (option jstring) :=
  match v with
  | [] => mret None
  | _ => d ← Date_new v; iso ← Date_toISOString d; mret (Some iso)
  end.

End Evaluation.

(** * Vocabulary of the statements *)

(** ** Sample data *)

(** A finished task whose deadline is 2025-01-01 00:00 UTC. *)
Definition doneTask : Task :=
  mkTask (lit "k3f9") (lit "Flights") (lit "Flights") (lit "Buzza") Done None
         (Some (lit "2025-01-01T00:00:00.000Z")) (Some 60) (Some true)
         (lit "2024-12-01T00:00:00.000Z") (lit "2024-12-02T00:00:00.000Z").

(** A task in progress whose reminder has been sent. *)
Definition flaggedTask : Task :=
  mkTask (lit "k3f9") (lit "Flights") (lit "Flights") (lit "Buzza") InProgress None
         (Some (lit "2025-01-01T00:00:00.000Z")) (Some 60) (Some true)
         (lit "2024-12-01T00:00:00.000Z") (lit "2024-12-02T00:00:00.000Z").

(** An open task due at midnight, to be reminded an hour before. *)
Definition dueTask : Task :=
  mkTask (lit "m81q") (lit "Car Hire") (lit "Car Hire") (lit "Stork") NotStarted None
         (Some (lit "2025-01-01T00:00:00.000Z")) (Some 60) (Some false)
         (lit "2024-12-01T00:00:00.000Z") (lit "2024-12-02T00:00:00.000Z").

(** Ticks every five minutes from ten minutes before the threshold of
    [dueTask] (23:00 on 2024-12-31) to ten minutes after its deadline. *)
Definition someClock : list (Z * jstring) :=
  List.map (fun k => (1735686000000 - 600000 + Z.of_nat k * 300000,
                      lit "2024-12-31T23:00:00.000Z"))
           (seq 0 17).

(** A task with every optional field absent. *)
Definition bareTask : Task :=
  mkTask (lit "q7z1") [] [] (lit "Marty") NotStarted None None None None
         (lit "2024-12-01T00:00:00.000Z") (lit "2024-12-01T00:00:00.000Z").

(** A task with every optional field present; its details hold a bullet
    (U+2022), a surrogate pair (U+1F3CC) and a lone surrogate. *)
Definition fullTask : Task :=
  mkTask (lit "m81q") (lit "Golf " ++ [34%N] ++ lit "Games" ++ [34%N]) (lit "Golf Games")
         (lit "Robbie")
         InProgress
         (Some (lit "Book 2x rounds " ++ [8226; 55356; 57292; 55357]%N ++ lit " 8am\tee"))
         (Some (lit "2025-01-01T00:00:00.000Z")) (Some 60) (Some false)
         (lit "2024-12-01T00:00:00.000Z") (lit "2024-12-02T00:00:00.000Z").

(** Both tasks, with a kickoff. *)
Definition someSnapshot : Snapshot :=
  mkSnapshot [bareTask; fullTask] (mkSettings (Some (lit "2025-03-01T08:00:00.000Z"))).

(** ** Classifier, edits, reminders and cache *)

(** Successive reads of the classifier, each with its own clock
    reading. *)
Definition dueStates (getTime : jstring -> jsnum) (reads : list (Z * Task))
  : list DueState :=
  List.map (fun r => dueState getTime (fst r) (snd r)) reads.

(** The edits that touch the deadline or the lead. *)
Definition rearms (e : Edit) : bool :=
  match e with
  | EditSla _ | EditLead _ => true
  | _ => false
  end.

(** What [onFlag] makes of a task. *)
Definition flagged (stamp : jstring) (t : Task) : Task :=
  set_updatedAt stamp (set_reminderSent true t).

(** The reminders of one tick that carry the identifier [i]. *)
Definition reminds_for (i : jstring) (evs : list Remind) : nat :=
  length (List.filter (fun e => str_eqb (rem_id e) i) evs).

(** The first task of the list with the identifier [i]. *)
Definition lookup_task (i : jstring) (l : list Task) : option Task :=
  List.find (fun x => str_eqb (id x) i) l.

(** [x] is the task [t] up to the fields [onFlag] writes. *)
Definition same_obligation (t x : Task) : Prop :=
  id x = id t /\ sla x = sla t /\ status x = status t
  /\ reminderLeadMinutes x = reminderLeadMinutes t.

(** The fire threshold of a task whose deadline reads [d]. *)
Definition threshold (t : Task) (d : Z) : Z :=
  d - nullish (reminderLeadMinutes t) 0 * 60000.

(** Per tick, the number of reminders a task with threshold [F] is due:
    one at the first tick at or past [F] while it is armed, none
    elsewhere. *)
Fixpoint first_crossing (F : Z) (armed : bool) (clock : list (Z * jstring))
  : list nat :=
  match clock with
  | [] => []
  | c :: rest =>
      if armed && (F <=? fst c) then 1%nat :: first_crossing F false rest
      else 0%nat :: first_crossing F armed rest
  end.

(** The cache holds the canonical list. *)
Definition synced (tripSlug : jstring) (a : App) : Prop :=
  storage a !! tasksKey tripSlug = Some (STasks (tasks a)) /\ tasksLocal a = tasks a.

(** ** Codec *)

Section CodecVocabulary.
Local Open Scope N_scope.

(** The sextets of a byte string, without padding. *)
Fixpoint b64sextets (s : list N) : list N :=
  match s with
  | a :: b :: c :: tl =>
      a / 4 :: (a mod 4) * 16 + b / 16 :: (b mod 16) * 4 + c / 64 :: c mod 64
        :: b64sextets tl
  | [a; b] => [a / 4; (a mod 4) * 16 + b / 16; (b mod 16) * 4]
  | [a] => [a / 4; (a mod 4) * 16]
  | [] => []
  end.

(** Octets. *)
Definition bytes_ok (s : list N) : Prop := Forall (fun c => c < 256) s.

(** The padding [btoa] closes its output with. *)
Fixpoint b64pad (s : list N) : jstring :=
  match s with
  | _ :: _ :: _ :: tl => b64pad tl
  | [_; _] => [61]
  | [_] => [61; 61]
  | [] => []
  end.

(** Strings without a lone surrogate. *)
Inductive wf16 : jstring -> Prop :=
| wf16_nil : wf16 []
| wf16_unit (c : N) (s : jstring) :
    c < 65536 -> is_high c = false -> is_low c = false -> wf16 s -> wf16 (c :: s)
| wf16_pair (h l : N) (s : jstring) :
    is_high h = true -> is_low l = true -> wf16 s -> wf16 (h :: l :: s).

(** The code point of a surrogate pair. *)
Definition pair_point (h l : N) : N := (h - 55296) * 1024 + (l - 56320) + 65536.

(** The UTF-8 octets of a string, pairs read as one code point. *)
Fixpoint utf8_bytes (s : jstring) : list N :=
  match s with
  | [] => []
  | c :: tl =>
      if is_high c then
        match tl with
        | l :: tl' =>
            if is_low l then utf8 (pair_point c l) ++ utf8_bytes tl'
            else utf8 c ++ utf8_bytes tl
        | [] => utf8 c
        end
      else utf8 c ++ utf8_bytes tl
  end.

(** What [parse_string] does with the rest once it has read a unit. *)
Definition read_unit (c : N) (r : option (jstring * jstring))
  : option (jstring * jstring) :=
  match r with
  | Some (body, rest) => Some (c :: body, rest)
  | None => None
  end.

(** Text of ASCII characters. *)
Definition ascii_only (s : jstring) : bool := forallb (fun c => c <? 128) s.

(** The text after a value in compact JSON: nothing, or a comma or a
    closing bracket. *)
Definition delimited (rest : jstring) : Prop :=
  match rest with
  | [] => True
  | c :: _ => c = 44 \/ c = 93 \/ c = 125
  end.

(** A decimal numeral that starts with a digit other than zero. *)
Definition leading (d : Decimal.uint) : Prop :=
  match d with
  | Decimal.Nil | Decimal.D0 _ => False
  | _ => True
  end.

(** No key twice. *)
Fixpoint distinct (l : list jstring) : bool :=
  match l with
  | [] => true
  | k :: r => negb (existsb (str_eqb k) r) && distinct r
  end.

(** The values [JSON.parse] gives back as they were: no [undefined], no
    fraction or exponent, 16-bit code units, and no key twice in an
    object. *)
Fixpoint json_ok (v : jsval) : bool :=
  match v with
  | JUndefined | JReal _ => false
  | JNull | JBool _ | JNum _ => true
  | JStr s => units_ok s
  | JArr l => forallb json_ok l
  | JObj l =>
      forallb (fun kv => units_ok (fst kv) && json_ok (snd kv)) l
      && distinct (List.map fst l)
  end.

(** The fuel [parse_val] uses on the text of a value. *)
Fixpoint need (v : jsval) : nat :=
  match v with
  | JArr l => S (list_sum (List.map (fun x => S (need x)) l))
  | JObj l => S (list_sum (List.map (fun kv => S (need (snd kv))) l))
  | _ => 1
  end.

(** The text of a value, followed by a delimiter, parses to the value and
    leaves the delimiter. *)
Definition reads_back (v : jsval) : Prop :=
  json_ok v = true ->
  forall fuel rest, (need v <= fuel)%nat -> delimited rest ->
                    parse_val fuel (serialize v ++ rest) = Some (v, rest).

(** The text of one property. *)
Definition member (kv : jstring * jsval) : jstring :=
  QuoteJSONString (fst kv) ++ [58] ++ serialize (snd kv).

(** A property [json_ok] accepts. *)
Definition member_ok (kv : jstring * jsval) : bool :=
  units_ok (fst kv) && json_ok (snd kv).

(** The properties that do not hold [undefined], their values mapped. *)
Fixpoint defined_members (f : jsval -> jsval) (l : list (jstring * jsval))
  : list (jstring * jsval) :=
  match l with
  | [] => []
  | (k, x) :: l' =>
      if is_undefined x then defined_members f l'
      else (k, f x) :: defined_members f l'
  end.

(** The value [JSON.stringify] writes: properties that hold [undefined]
    are gone, and an [undefined] array element is [null]. *)
Fixpoint written (v : jsval) : jsval :=
  match v with
  | JUndefined => JNull
  | JArr l => JArr (List.map written l)
  | JObj l => JObj (defined_members written l)
  | _ => v
  end.

End CodecVocabulary.

(** Encode, decode, and read the result as a snapshot. *)
Definition round_trip (s : Snapshot) : option Snapshot :=
  match encodeState (Snapshot_toJS s) with
  | Some token =>
      match decodeState token with
      | Some v => Snapshot_ofJS v
      | None => None
      end
  | None => None
  end.

(** ** Vocabulary of the further properties *)

(** What a task becomes on its way through a remote row: empty notes and
    an empty deadline are dropped, an absent flag reads [false]. *)
Definition stored (t : Task) : Task :=
  mkTask (id t) (title t) (category t) (assignee t) (status t)
         (truthy (details t)) (truthy (sla t)) (reminderLeadMinutes t)
         (Some (sent t)) (createdAt t) (updatedAt t).

(** The identifiers of a list of tasks. *)
Definition ids (l : list Task) : list jstring := List.map id l.

(** An action that brings no identifier twice into a list that holds
    [l]. *)
Definition brings_fresh_ids (l : list Task) (act : Action) : Prop :=
  match act with
  | AddTask t => ~ In (id t) (ids l)
  | ImportTasks new | ResetDemo new => List.NoDup (ids new)
  | CloudTasks _ (Resolved data None) =>
      List.NoDup (List.map r_id (nullish data []))
  | _ => True
  end.

(** A state in connected mode, for the examples. *)
Definition connectedApp (l : list Task) : App :=
  mkApp l (mkSettings None) l (mkSettings None) ∅
        (Some (mkCloud (lit "https://x.supabase.co") (lit "anon"))) true None.

(** The first truthy value of [l], and [last] when there is none:
    [l1 || l2 || ... || last]. *)
Definition first_truthy (l : list jsval) (last : jsval) : jsval :=
  nullish (List.find js_truthy l) last.

(** The two credentials before the packed parameter is looked at. *)
Definition plain_url (l : Location) (st : gmap jstring jstring) : jsval :=
  first_truthy [SUPABASE_URL l; param (search_sb_url l); param (hash_sb_url l)]
               (ls_read st supabaseUrlKey JUndefined).

Definition plain_key (l : Location) (st : gmap jstring jstring) : jsval :=
  first_truthy [SUPABASE_ANON_KEY l; param (search_sb_key l); param (hash_sb_key l)]
               (ls_read st supabaseKeyKey JUndefined).

(** The packed parameter: the one of the query before the one of the
    fragment. *)
Definition packed (l : Location) : jsval :=
  or_else (param (search_sb l)) (param (hash_sb l)).

Definition without_packed (l : Location) : Location :=
  mkLocation (SUPABASE_URL l) (SUPABASE_ANON_KEY l) (search_sb_url l)
             (search_sb_key l) None (hash_sb_url l) (hash_sb_key l) None.

(** A page address that carries no credentials. *)
Definition bareLocation : Location :=
  mkLocation JUndefined JUndefined None None None None None None.

(** The object [{ url, key }]. *)
Definition pairJS (u k : jstring) : jsval :=
  JObj [(lit "url", JStr u); (lit "key", JStr k)].

(** The address gives no truthy credential: the cache decides. *)
Definition no_link_credentials (l : Location) : Prop :=
  List.find js_truthy [SUPABASE_URL l; param (search_sb_url l); param (hash_sb_url l)]
  = None
  /\ List.find js_truthy [SUPABASE_ANON_KEY l; param (search_sb_key l);
                          param (hash_sb_key l)] = None.

(** The commands of [cs] that call a setter. *)
Definition setters (cs : list Cmd) : list Cmd :=
  List.filter (fun c => match c with SetTasks _ | SetSettings _ => true | _ => false end) cs.

(** ** A concrete [toISOString] for the examples

    [isoString ms] is [new Date(ms).toISOString()] for the years 0 to
    9999, the counterpart of [isoTime]. *)

(** The civil date of a day count from 1970-01-01. *)
Definition civilFromDays (z : Z) : Z * Z * Z :=
  let z := z + 719468 in
  let era := z / 146097 in
  let doe := z - era * 146097 in
  let yoe := (doe - doe / 1460 + doe / 36524 - doe / 146096) / 365 in
  let doy := doe - (365 * yoe + yoe / 4 - yoe / 100) in
  let mp := (5 * doy + 2) / 153 in
  let d := doy - (153 * mp + 2) / 5 + 1 in
  let m := if mp <? 10 then mp + 3 else mp - 9 in
  (yoe + era * 400 + (if m <=? 2 then 1 else 0), m, d).

(** [z] in decimal, filled with zeros to at least [width] digits. *)
Definition padded (width : nat) (z : Z) : jstring :=
  let s := number_chars z in
  List.repeat 48%N (width - length s) ++ s.

Definition isoString (ms : Z) : jstring :=
  let '(y, m, d) := civilFromDays (ms / 86400000) in
  let t := ms mod 86400000 in
  padded 4 y ++ [45%N] ++ padded 2 m ++ [45%N] ++ padded 2 d ++ [84%N]
  ++ padded 2 (t / 3600000) ++ [58%N] ++ padded 2 (t / 60000 mod 60) ++ [58%N]
  ++ padded 2 (t / 1000 mod 60) ++ [46%N] ++ padded 3 (t mod 1000) ++ [90%N].

(** The statuses [makeSeedTasks] deals out. *)
Definition seedStatuses : list Status :=
  [Done; InProgress; NotStarted; Done; InProgress; NotStarted; Done].

(** The lead the form submits, in minutes; 0 when there is none. *)
Definition formLead (f : Form) : Z :=
  match f_lead f with Some (Num z) => z | _ => 0 end.

(** The runtime reads the deadlines of the seed tasks back as the times
    they were made from, and writes none of them as the empty string. *)
Definition seed_dates_read_back (getTime : jstring -> jsnum)
           (toISOString : Z -> jstring) (now : Z) : Prop :=
  forall i, (i < 7)%nat ->
            getTime (plusDays toISOString now (Z.of_nat i + 1))
            = Num (now + (Z.of_nat i + 1) * 86400000)
            /\ plusDays toISOString now (Z.of_nat i + 1) <> [].

(** ** Sorted views *)

(** No task of the list comes after one that the comparator puts it
    before. *)
Fixpoint sorted_by (before : Task -> Task -> bool) (l : list Task) : Prop :=
  match l with
  | [] => True
  | x :: r => Forall (fun y => before y x = false) r /\ sorted_by before r
  end.

Fixpoint ascending (l : list Z) : Prop :=
  match l with
  | [] => True
  | x :: r => Forall (fun y => x <= y) r /\ ascending r
  end.

(** The time a deadline reads as (0 when it is no date). *)
Definition deadlineOf (getTime : jstring -> jsnum) (t : Task) : Z :=
  match slaTime getTime t with Num d => d | NaN => 0 end.

Definition updatedOf (getTime : jstring -> jsnum) (t : Task) : Z :=
  match getTime (updatedAt t) with Num d => d | NaN => 0 end.

(** The deadline lies in the 72 hours after [now]. *)
Definition in_window (getTime : jstring -> jsnum) (now : Z) (t : Task) : bool :=
  match truthy (sla t) with
  | Some s => js_gt (getTime s) (Num now)
              && js_lt (js_sub (getTime s) (Num now)) (Num (72 * 3600 * 1000))
  | None => false
  end.

(** The row passes the three filters of the task table. *)
Definition matches (toLowerCase : jstring -> jstring) (q who state : jstring)
           (t : Task) : bool :=
  (str_eqb who (lit "All") || str_eqb (assignee t) who)
  && (str_eqb state (lit "All") || str_eqb (Status_str (status t)) state)
  && match trim q with
     | [] => true
     | _ => includes (searchText toLowerCase t) (toLowerCase q)
     end.

Definition has_deadline (t : Task) : bool :=
  match truthy (sla t) with Some _ => true | None => false end.

(** Every deadline of the list reads as a date. *)
Definition deadlines_read (getTime : jstring -> jsnum) (l : list Task) : Prop :=
  Forall (fun t => dueKey getTime t <> Some NaN) l.

Definition updates_read (getTime : jstring -> jsnum) (l : list Task) : Prop :=
  Forall (fun t => getTime (updatedAt t) <> NaN) l.

Fixpoint descending (l : list Z) : Prop :=
  match l with
  | [] => True
  | x :: r => Forall (fun y => y <= x) r /\ descending r
  end.

(** The world with the clock at [now]. *)
Definition at_time (now : Z) (w : World) : World := mkWorld now (localStorage w).

(** Successive evaluations of the classifier in one world, the clock set
    to its reading before each. *)
Fixpoint readAll (getTime : jstring -> jsnum) (reads : list (Z * Task)) (w : World)
  : list (Outcome DueState) * World :=
  match reads with
  | [] => ([], w)
  | r :: rest =>
      let '(o, w1) := evalDueState getTime (snd r) (at_time (fst r) w) in
      let '(os, w2) := readAll getTime rest w1 in
      (o :: os, w2)
  end.

(** The reminder ticks at the clock readings of [clock], each with its
    stamp. *)
Definition ticks (clock : list (Z * jstring)) : list Action :=
  List.map (fun c => ReminderTick (fst c) (snd c)) clock.

(** * Properties *)

(** ** Strings *)

Lemma str_eqb_eq (a b : jstring) : str_eqb a b = true <-> a = b.
Proof.
  revert b; induction a as [|x a IH]; intros [|y b]; simpl; split;
    try congruence; try reflexivity.
  - intros H. apply andb_true_iff in H as [H1 H2].
    apply N.eqb_eq in H1. apply IH in H2. congruence.
  - intros H. injection H as -> ->. rewrite N.eqb_refl. simpl. now apply IH.
Qed.

Lemma str_eqb_refl (a : jstring) : str_eqb a a = true.
Proof. now apply str_eqb_eq. Qed.

Lemma str_eqb_neq (a b : jstring) : str_eqb a b = false <-> a <> b.
Proof.
  split.
  - intros H E. apply str_eqb_eq in E. congruence.
  - intros H. destruct (str_eqb a b) eqn:E; [|reflexivity].
    apply str_eqb_eq in E. contradiction.
Qed.

(** ** Due-state classifier *)

Section ClassifierFacts.

Variable getTime : jstring -> jsnum.

Lemma minutes_agree (d n : Z) :
  Z.max 0 (d - n) / 60000 = Z.max 0 ((d - n) / 60000).
Proof.
  destruct (Z.le_gt_cases 0 (d - n)) as [H|H].
  - rewrite !Z.max_r; [reflexivity | | assumption].
    apply Z.div_pos; lia.
  - rewrite (Z.max_l 0 (d - n)) by lia.
    rewrite Z.max_l; [reflexivity|].
    assert ((d - n) / 60000 < 0) by (apply Z.div_lt_upper_bound; lia). lia.
Qed.

(** C2. For every task and every clock reading the classifier of the code
    is the reference classifier of section 4.2: without a deadline it is
    [{false, false, 0}]; otherwise overdue is [now > deadline] and not
    Done, the minutes are [max(0, floor((deadline - now) / 60000))], and
    due-soon is not overdue and at most 240 minutes.  A Done task is
    never overdue. *)
Theorem dueState_is_classify (now : Z) (t : Task) :
  dueState getTime now t = classify_spec getTime now t
  /\ (truthy (sla t) = None ->
      dueState getTime now t = mkDue false false (Num 0))
  /\ (status t = Done -> overdue (dueState getTime now t) = false).
Proof.
  unfold dueState, classify_spec.
  destruct (truthy (sla t)) as [s|] eqn:Hs.
  - split; [|split].
    + destruct (getTime s) as [d|]; simpl; [|reflexivity].
      rewrite minutes_agree. reflexivity.
    + discriminate.
    + intros ->. simpl. apply andb_false_r.
  - split; [reflexivity|]. split; [reflexivity|]. reflexivity.
Qed.

(** C10. A Done task whose deadline is at or before [now] is not overdue,
    has zero minutes remaining, and is due soon. *)
Theorem done_past_deadline_due_soon (now : Z) (t : Task) (s : jstring) (d : Z) :
  status t = Done ->
  truthy (sla t) = Some s ->
  getTime s = Num d ->
  d <= now ->
  dueState getTime now t = mkDue false true (Num 0).
Proof.
  intros Hst Hs Hd Hle. unfold dueState. rewrite Hs, Hd, Hst. simpl.
  rewrite andb_false_r. simpl.
  rewrite Z.max_l by lia. reflexivity.
Qed.

(** C9. Evaluating the classifier returns, and does not throw, in every
    world and on every task, a deadline string that is no date included;
    it leaves the storage as it found it; what it returns is the
    classification of the task at the clock reading of that world, so two
    worlds with the same clock reading give the same result whatever they
    store; and in a sequence of evaluations in one world each returns the
    classification at its own clock reading, none that of an earlier
    one. *)
Theorem dueState_total_stateless (t : Task) (w : World) :
  evalDueState getTime t w = (Returned (dueState getTime (dateNow w) t), w)
  /\ (forall w', dateNow w' = dateNow w ->
                 fst (evalDueState getTime t w') = fst (evalDueState getTime t w))
  /\ (forall reads : list (Z * Task),
         fst (readAll getTime reads w) = List.map Returned (dueStates getTime reads)
         /\ localStorage (snd (readAll getTime reads w)) = localStorage w).
Proof.
  assert (H : forall x v, evalDueState getTime x v
                          = (Returned (dueState getTime (dateNow v) x), v)).
  { intros x v. unfold evalDueState, dueState.
    destruct (truthy (sla x)) as [s|]; reflexivity. }
  split; [apply H|]. split.
  - intros w' Hw. now rewrite !H, Hw.
  - intros reads. revert w. induction reads as [|[now x] reads IH]; intros w; [auto|].
    cbn [readAll fst snd]. rewrite H. cbn [dateNow at_time].
    destruct (IH (at_time now w)) as [E1 E2].
    destruct (readAll getTime reads (at_time now w)) as [os w2]. cbn [fst snd] in *.
    now rewrite E1, E2.
Qed.

End ClassifierFacts.

(** [doneTask] read at its deadline. *)
Lemma done_past_deadline_due_soon_witness :
  dueState isoTime 1735689600000 doneTask = mkDue false true (Num 0).
Proof.
  apply (done_past_deadline_due_soon isoTime 1735689600000 doneTask
           (lit "2025-01-01T00:00:00.000Z") 1735689600000);
    [reflexivity | reflexivity | vm_compute; reflexivity | lia].
Defined.

(** The classifier on [dueTask], whose deadline reads 1735689600000: one
    millisecond late, 239 minutes ahead, and 241 minutes ahead. *)
Example overdue_one_millisecond_late :
  dueState isoTime 1735689600001 dueTask = mkDue true false (Num 0).
Proof. vm_compute. reflexivity. Qed.

Example due_soon_239_minutes_ahead :
  dueState isoTime (1735689600000 - 239 * 60000) dueTask = mkDue false true (Num 239).
Proof. vm_compute. reflexivity. Qed.

Example on_track_241_minutes_ahead :
  dueState isoTime (1735689600000 - 241 * 60000) dueTask = mkDue false false (Num 241).
Proof. vm_compute. reflexivity. Qed.

Example malformed_deadline_is_not_a_date :
  dueState isoTime 1735689600000
           (mkTask (lit "x") [] [] (lit "Buzza") NotStarted None
                   (Some (lit "next friday")) None None [] [])
  = mkDue false false NaN.
Proof. vm_compute. reflexivity. Qed.

(** The string [tomorrow] is no date: the classifier returns, the deadline
    edit throws. *)
Example classifier_returns_where_edit_throws :
  let t := mkTask (lit "q7z1") [] [] (lit "Marty") NotStarted None
                  (Some (lit "tomorrow")) None None
                  (lit "2024-12-01T00:00:00.000Z") (lit "2024-12-01T00:00:00.000Z") in
  let w := mkWorld 1735689600000 ∅ in
  evalDueState isoTime t w = (Returned (mkDue false false NaN), w)
  /\ fst (evalSlaEdit isoTime isoString (lit "tomorrow") w)
     = Threw (mkThrown (Some (lit "Invalid time value"))
                       (lit "RangeError: Invalid time value")).
Proof. split; reflexivity. Qed.

(** ** Field edits *)

Lemma editTask_id localToISO toNumber stamp e t :
  id (editTask localToISO toNumber stamp e t) = id t.
Proof. destruct e; reflexivity. Qed.

Lemma updateTask_upd_hit (next : Task) (prev : list Task) (x : Task) :
  In x (updateTask_upd next prev) -> id x = id next -> x = next.
Proof.
  unfold updateTask_upd. intros Hin Hid.
  apply in_map_iff in Hin as [y [Hy _]].
  destruct (str_eqb (id y) (id next)) eqn:E; [congruence|].
  subst x. apply str_eqb_neq in E. contradiction.
Qed.

Lemma updateTask_upd_present (next : Task) (prev : list Task) (t : Task) :
  In t prev -> id t = id next -> In next (updateTask_upd next prev).
Proof.
  intros Hin Hid. unfold updateTask_upd. apply in_map_iff.
  exists t. split; [|assumption].
  rewrite Hid, str_eqb_refl. reflexivity.
Qed.

(** C3. An edit of the deadline or of the reminder lead yields a task whose
    reminder-sent flag is false, whatever it was, and after [updateTask]
    every entry of the list with that identifier is this task; an edit of
    any other single field (the status among them) leaves the flag as it
    was. *)
Theorem edit_rearms_reminder
        (localToISO : jstring -> jstring) (toNumber : jstring -> Z)
        (stamp : jstring) (e : Edit) (t : Task) (prev : list Task) :
  let next := editTask localToISO toNumber stamp e t in
  reminderSent next = (if rearms e then Some false else reminderSent t)
  /\ (forall x, In x (updateTask_upd next prev) -> id x = id t ->
                x = next /\ reminderSent x = (if rearms e then Some false else reminderSent t))
  /\ (In t prev -> In next (updateTask_upd next prev)).
Proof.
  intros next.
  assert (Hflag : reminderSent next = (if rearms e then Some false else reminderSent t))
    by (destruct e; reflexivity).
  assert (Hid : id next = id t) by apply editTask_id.
  split; [exact Hflag|]. split.
  - intros x Hin Hx. rewrite <- Hid in Hx.
    pose proof (updateTask_upd_hit next prev x Hin Hx) as ->.
    split; [reflexivity | exact Hflag].
  - intros Hin. apply (updateTask_upd_present next prev t Hin). now rewrite Hid.
Qed.

Example edit_sla_resets_sent_flag :
  reminderSent (editTask (fun v => v ++ lit ":00.000Z") (fun _ => 0)
                         (lit "2024-12-03T00:00:00.000Z")
                         (EditSla (lit "2025-02-01T09:30")) flaggedTask) = Some false.
Proof. reflexivity. Qed.

Example edit_status_keeps_sent_flag :
  reminderSent (editTask (fun v => v ++ lit ":00.000Z") (fun _ => 0)
                         (lit "2024-12-03T00:00:00.000Z")
                         (EditStatus Done) flaggedTask) = Some true.
Proof. reflexivity. Qed.

(** ** Live-event merge *)

Lemma existsb_id_In (i : jstring) (l : list Task) :
  existsb (fun x => str_eqb (id x) i) l = true <-> In i (List.map id l).
Proof.
  rewrite existsb_exists, in_map_iff. split.
  - intros [x [Hx E]]. exists x. apply str_eqb_eq in E. auto.
  - intros [x [E Hx]]. exists x. split; [assumption|]. now apply str_eqb_eq.
Qed.

Lemma map_replace_absent (i : jstring) (new : Task) (l : list Task) :
  ~ In i (List.map id l) ->
  List.map (fun t => if str_eqb (id t) i then new else t) l = l.
Proof.
  induction l as [|t l IH]; simpl; intros H; [reflexivity|].
  destruct (str_eqb (id t) i) eqn:E.
  - apply str_eqb_eq in E. exfalso. apply H. now left.
  - f_equal. apply IH. intros Hin. apply H. now right.
Qed.

Lemma filter_remove_absent (i : jstring) (l : list Task) :
  ~ In i (List.map id l) ->
  List.filter (fun t => negb (str_eqb (id t) i)) l = l.
Proof.
  induction l as [|t l IH]; simpl; intros H; [reflexivity|].
  destruct (str_eqb (id t) i) eqn:E; simpl.
  - apply str_eqb_eq in E. exfalso. apply H. now left.
  - f_equal. apply IH. intros Hin. apply H. now right.
Qed.

(** C4. Merge of a live change event into the canonical list.  INSERT of
    an identifier already in the list leaves the list as it is, otherwise
    the new task is put in front.  UPDATE keeps the length and replaces,
    position by position, exactly the entries with the identifier of the
    row, and changes nothing when there is none.  DELETE keeps exactly the
    entries with another identifier, in their order, and changes nothing
    when there is none with that identifier. *)
Theorem live_event_merge (stamp : jstring) (r : Row) (other : option Row)
        (prev : list Task) :
  let new := dbToTask stamp r in
  let ins := applyPayload stamp (mkPayload INSERT (Some r) other) prev in
  let upd := applyPayload stamp (mkPayload UPDATE (Some r) other) prev in
  let del := applyPayload stamp (mkPayload DELETE other (Some r)) prev in
  (In (r_id r) (List.map id prev) -> ins = prev)
  /\ (~ In (r_id r) (List.map id prev) -> ins = new :: prev)
  /\ length upd = length prev
  /\ (forall n t, nth_error prev n = Some t ->
        nth_error upd n = Some (if str_eqb (id t) (r_id r) then new else t))
  /\ (~ In (r_id r) (List.map id prev) -> upd = prev)
  /\ (forall x, In x del <-> In x prev /\ id x <> r_id r)
  /\ (exists keep, del = List.filter keep prev)
  /\ (~ In (r_id r) (List.map id prev) -> del = prev /\ length del = length prev).
Proof.
  intros new ins upd del. unfold applyPayload, liveUpdater in ins, upd, del.
  simpl in ins, upd, del.
  split; [|split; [|split; [|split; [|split; [|split; [|split]]]]]].
  - intros H. subst ins. apply existsb_id_In in H. now rewrite H.
  - intros H. subst ins.
    destruct (existsb _ prev) eqn:E; [|reflexivity].
    apply existsb_id_In in E. contradiction.
  - subst upd. apply length_map.
  - intros n t Hn. subst upd. rewrite nth_error_map, Hn. reflexivity.
  - intros H. subst upd. now apply map_replace_absent.
  - intros x. subst del. rewrite filter_In. split.
    + intros [Hx E]. split; [assumption|].
      apply negb_true_iff in E. now apply str_eqb_neq.
    + intros [Hx E]. split; [assumption|].
      apply negb_true_iff. now apply str_eqb_neq.
  - subst del. eexists. reflexivity.
  - intros H. subst del. rewrite filter_remove_absent by assumption. auto.
Qed.

(** ** Reminder engine *)

Section ReminderFacts.

Variable getTime : jstring -> jsnum.
Variable formatDateTime : jstring -> jstring.

Abbreviation fires := (fires getTime).
Abbreviation remind := (remind formatDateTime).
Abbreviation tick := (tick getTime formatDateTime).
Abbreviation tick_loop := (tick_loop getTime formatDateTime).
Abbreviation run_ticks := (run_ticks getTime formatDateTime).

Lemma fires_flagged (now : Z) (stamp : jstring) (t : Task) :
  fires now (flagged stamp t) = false.
Proof.
  unfold fires, flagged. simpl.
  destruct (truthy (sla t)); [|reflexivity].
  destruct (Status_eqb (status t) Done); [reflexivity|].
  apply andb_false_r.
Qed.

Lemma tick_loop_spec (now : Z) (stamp : jstring) (todo cur : list Task) :
  tick_loop now stamp todo cur
  = (List.map remind (List.filter (fires now) todo),
     fold_left (fun l x => onFlag_upd stamp (id x) l)
               (List.filter (fires now) todo) cur).
Proof.
  revert cur. induction todo as [|t todo IH]; intros cur; simpl; [reflexivity|].
  destruct (fires now t); simpl.
  - rewrite IH. reflexivity.
  - apply IH.
Qed.

Lemma fold_onFlag (stamp : jstring) (fired cur : list Task) :
  fold_left (fun l x => onFlag_upd stamp (id x) l) fired cur
  = List.map (fun y => if existsb (fun x => str_eqb (id y) (id x)) fired
                       then flagged stamp y else y) cur.
Proof.
  revert cur. induction fired as [|x fired IH]; intros cur; simpl.
  - symmetry. apply map_id.
  - rewrite IH. unfold onFlag_upd. rewrite List.map_map.
    apply map_ext. intros y. fold (flagged stamp y).
    destruct (str_eqb (id y) (id x)); simpl; [|reflexivity].
    destruct (existsb _ fired); reflexivity.
Qed.

Lemma NoDup_id_inj (l : list Task) (x y : Task) :
  List.NoDup (List.map id l) -> In x l -> In y l -> id x = id y -> x = y.
Proof.
  induction l as [|z l IH]; simpl; intros Hnd Hx Hy E; [contradiction|].
  inversion Hnd as [|? ? Hnot Hnd']; subst.
  destruct Hx as [->|Hx], Hy as [->|Hy]; auto.
  - exfalso. apply Hnot. rewrite E. now apply in_map.
  - exfalso. apply Hnot. rewrite <- E. now apply in_map.
Qed.

Lemma fired_iff (now : Z) (l : list Task) (y : Task) :
  List.NoDup (List.map id l) -> In y l ->
  existsb (fun x => str_eqb (id y) (id x)) (List.filter (fires now) l) = fires now y.
Proof.
  intros Hnd Hy. destruct (fires now y) eqn:Hf.
  - apply existsb_exists. exists y. split; [|apply str_eqb_refl].
    apply filter_In. auto.
  - destruct (existsb _ _) eqn:E; [|reflexivity].
    apply existsb_exists in E as [x [Hx Hid]].
    apply filter_In in Hx as [Hx Hfx]. apply str_eqb_eq in Hid.
    rewrite (NoDup_id_inj l y x Hnd Hy Hx Hid) in Hf. congruence.
Qed.

(** One tick on a list without repeated identifiers: a reminder for each
    task that fires, and exactly those tasks flagged. *)
Lemma tick_spec (now : Z) (stamp : jstring) (l : list Task) :
  List.NoDup (List.map id l) ->
  tick now stamp l
  = (List.map remind (List.filter (fires now) l),
     List.map (fun y => if fires now y then flagged stamp y else y) l).
Proof.
  intros Hnd. unfold tick. rewrite tick_loop_spec, fold_onFlag. f_equal.
  apply map_ext_in. intros y Hy. now rewrite fired_iff.
Qed.

Lemma lookup_task_map (g : Task -> Task) (i : jstring) (l : list Task) :
  (forall x, id (g x) = id x) ->
  lookup_task i (List.map g l) = option_map g (lookup_task i l).
Proof.
  intros Hg. unfold lookup_task. induction l as [|x l IH]; simpl; [reflexivity|].
  rewrite Hg. destruct (str_eqb (id x) i); [reflexivity | exact IH].
Qed.

Lemma lookup_task_In (l : list Task) (t : Task) :
  List.NoDup (List.map id l) -> In t l -> lookup_task (id t) l = Some t.
Proof.
  intros Hnd Hin. unfold lookup_task.
  destruct (List.find _ l) as [x|] eqn:E.
  - apply find_some in E as [Hx Hid]. apply str_eqb_eq in Hid.
    f_equal. now apply (NoDup_id_inj l).
  - exfalso. apply (find_none _ _ E) in Hin. rewrite str_eqb_refl in Hin. discriminate.
Qed.

Lemma reminds_for_tick (now : Z) (i : jstring) (l : list Task) :
  List.NoDup (List.map id l) ->
  reminds_for i (List.map remind (List.filter (fires now) l))
  = match lookup_task i l with
    | Some x => if fires now x then 1%nat else 0%nat
    | None => 0%nat
    end.
Proof.
  unfold reminds_for, lookup_task.
  induction l as [|y l IH]; simpl; intros Hnd; [reflexivity|].
  inversion Hnd as [|? ? Hnot Hnd']; subst. specialize (IH Hnd').
  destruct (str_eqb (id y) i) eqn:E.
  - apply str_eqb_eq in E. subst i.
    assert (Hnone : List.find (fun x => str_eqb (id x) (id y)) l = None).
    { destruct (List.find _ l) as [x|] eqn:F; [|reflexivity].
      apply find_some in F as [Hx Hid]. apply str_eqb_eq in Hid.
      exfalso. apply Hnot. rewrite <- Hid. now apply in_map. }
    rewrite Hnone in IH.
    destruct (fires now y); simpl; [|exact IH].
    rewrite str_eqb_refl. simpl. now rewrite IH.
  - destruct (fires now y); simpl; [|exact IH].
    rewrite E. exact IH.
Qed.

End ReminderFacts.

Section ReminderRuns.

Variable getTime : jstring -> jsnum.
Variable formatDateTime : jstring -> jstring.

Abbreviation fires' := (fires getTime).
Abbreviation tick' := (tick getTime formatDateTime).
Abbreviation run_ticks' := (run_ticks getTime formatDateTime).

Lemma fires_threshold (now : Z) (t x : Task) (s : jstring) (d : Z) :
  truthy (sla t) = Some s -> status t <> Done -> getTime s = Num d ->
  same_obligation t x ->
  fires' now x = (threshold t d <=? now) && negb (sent x).
Proof.
  intros Hs Hst Hd (_ & Hsla & Hstat & Hlead).
  unfold fires, fireAt, threshold. rewrite Hsla, Hs, Hstat, Hlead, Hd.
  assert (Status_eqb (status t) Done = false) as ->
      by (destruct (status t); [reflexivity | reflexivity | congruence]).
  simpl. f_equal. f_equal. lia.
Qed.

Lemma same_obligation_flagged (stamp : jstring) (t x : Task) :
  same_obligation t x -> same_obligation t (flagged stamp x).
Proof. intros H. exact H. Qed.

Lemma run_counts (t : Task) (s : jstring) (d : Z) :
  truthy (sla t) = Some s -> status t <> Done -> getTime s = Num d ->
  forall (clock : list (Z * jstring)) (l : list Task) (x : Task),
    List.NoDup (List.map id l) ->
    lookup_task (id t) l = Some x ->
    same_obligation t x ->
    List.map (reminds_for (id t)) (fst (run_ticks' clock l))
    = first_crossing (threshold t d) (negb (sent x)) clock.
Proof.
  intros Hs Hst Hd. induction clock as [|[now stamp] clock IH];
    intros l x Hnd Hx Hsame; simpl; [reflexivity|].
  rewrite tick_spec by assumption.
  set (l' := List.map (fun y => if fires' now y then flagged stamp y else y) l).
  assert (Hnd' : List.NoDup (List.map id l')).
  { subst l'. rewrite List.map_map.
    erewrite map_ext; [exact Hnd|].
    intros y. simpl. destruct (fires' now y); reflexivity. }
  assert (Hx' : lookup_task (id t) l'
                = Some (if fires' now x then flagged stamp x else x)).
  { subst l'. rewrite lookup_task_map, Hx; [reflexivity|].
    intros y. destruct (fires' now y); reflexivity. }
  destruct (run_ticks' clock l') as [log final] eqn:Hrun. simpl.
  rewrite reminds_for_tick, Hx by assumption.
  specialize (IH l' _ Hnd' Hx').
  rewrite Hrun in IH. simpl in IH.
  rewrite (fires_threshold now t x s d) in * by assumption.
  destruct (sent x) eqn:Hsent; simpl.
  - rewrite andb_false_r in *. simpl. f_equal.
    rewrite IH by assumption. now rewrite Hsent.
  - rewrite andb_true_r in *.
    destruct (threshold t d <=? now); simpl; f_equal.
    + now rewrite IH by (now apply same_obligation_flagged).
    + rewrite IH by assumption. now rewrite Hsent.
Qed.

Lemma first_crossing_disarmed (F : Z) (clock : list (Z * jstring)) :
  list_sum (first_crossing F false clock) = 0%nat.
Proof. induction clock as [|c clock IH]; simpl; [reflexivity | exact IH]. Qed.

Lemma first_crossing_sum (F : Z) (clock : list (Z * jstring)) :
  list_sum (first_crossing F true clock)
  = if existsb (fun c => F <=? fst c) clock then 1%nat else 0%nat.
Proof.
  induction clock as [|c clock IH]; simpl; [reflexivity|].
  destruct (F <=? fst c); simpl; [|exact IH].
  now rewrite first_crossing_disarmed.
Qed.

Lemma first_crossing_nth (F : Z) (clock : list (Z * jstring)) (k : nat) (c : Z * jstring) :
  nth_error clock k = Some c ->
  nth_error (first_crossing F true clock) k
  = Some (if (F <=? fst c) && forallb (fun c' => fst c' <? F) (firstn k clock)
          then 1%nat else 0%nat).
Proof.
  revert k. induction clock as [|c0 clock IH]; intros [|k] Hk; simpl in *;
    try discriminate.
  - injection Hk as ->. rewrite andb_true_r. destruct (F <=? fst c); reflexivity.
  - destruct (F <=? fst c0) eqn:E; simpl.
    + assert ((fst c0 <? F) = false) as -> by lia. simpl. rewrite andb_false_r.
      clear IH. revert k Hk. induction clock as [|c1 clock IH']; intros [|k] Hk;
        simpl in *; try discriminate; [reflexivity | now apply IH'].
    + assert ((fst c0 <? F) = true) as -> by lia. simpl. now apply IH.
Qed.

Lemma onFlag_is_updateTask (stamp : jstring) (fired cur : list Task) :
  List.NoDup (List.map id fired) ->
  (forall x y, In x fired -> In y cur -> id y = id x -> y = x) ->
  fold_left (fun l x => onFlag_upd stamp (id x) l) fired cur
  = fold_left (fun l x => updateTask_upd (flagged stamp x) l) fired cur.
Proof.
  revert cur. induction fired as [|x fired IH]; intros cur Hnd Hcur; simpl;
    [reflexivity|].
  inversion Hnd as [|? ? Hnot Hnd']; subst.
  assert (E : onFlag_upd stamp (id x) cur = updateTask_upd (flagged stamp x) cur).
  { unfold onFlag_upd, updateTask_upd. apply map_ext_in. intros y Hy. simpl.
    destruct (str_eqb (id y) (id x)) eqn:Hid; [|reflexivity].
    apply str_eqb_eq in Hid.
    now rewrite (Hcur x y (or_introl eq_refl) Hy Hid). }
  rewrite E. apply IH; [assumption|].
  intros x' y' Hx' Hy' Hid. unfold updateTask_upd in Hy'.
  apply in_map_iff in Hy' as [y [Hy Hin]]. simpl in Hy.
  destruct (str_eqb (id y) (id x)) eqn:Hyx.
  - exfalso. apply Hnot. subst y'. simpl in Hid. rewrite Hid.
    now apply in_map.
  - subst y'. apply (Hcur x' y); [now right | assumption | assumption].
Qed.

Lemma NoDup_map_filter (f : Task -> bool) (l : list Task) :
  List.NoDup (List.map id l) -> List.NoDup (List.map id (List.filter f l)).
Proof.
  induction l as [|x l IH]; simpl; intros Hnd; [constructor|].
  inversion Hnd as [|? ? Hnot Hnd']; subst.
  destruct (f x); simpl; [|now apply IH].
  constructor; [|now apply IH].
  intros Hin. apply Hnot. apply in_map_iff in Hin as [y [Hy Hin]].
  apply filter_In in Hin as [Hin _]. rewrite <- Hy. now apply in_map.
Qed.

(** C1. In a list without repeated identifiers, take a task with a
    deadline that reads [d] and a status other than Done, and let [F] be
    [d - (lead ?? 0) * 60000].  A tick at [now] emits a reminder for the
    task exactly when [now >= F] and the task is not flagged, and then the
    canonical list is the one [updateTask] produces for the flagged copies
    of the tasks that fired.  Over any sequence of ticks from the unflagged
    task there is one reminder if some tick is at or past [F] and none
    otherwise, emitted at the first such tick; from the flagged task there
    is none. *)
Theorem reminder_fires_exactly_once
        (tasks : list Task) (t : Task) (s : jstring) (d : Z)
        (clock : list (Z * jstring)) :
  List.NoDup (List.map id tasks) ->
  In t tasks ->
  truthy (sla t) = Some s ->
  status t <> Done ->
  getTime s = Num d ->
  let F := threshold t d in
  let counts := List.map (reminds_for (id t)) (fst (run_ticks' clock tasks)) in
  (forall now stamp,
      let fired := List.filter (fires' now) tasks in
      reminds_for (id t) (fst (tick' now stamp tasks))
      = (if (F <=? now) && negb (sent t) then 1%nat else 0%nat)
      /\ (In t fired <-> F <= now /\ sent t = false)
      /\ fst (tick' now stamp tasks) = List.map (remind formatDateTime) fired
      /\ snd (tick' now stamp tasks)
         = fold_left (fun l x => updateTask_upd (flagged stamp x) l) fired tasks
      /\ (In t fired -> In (flagged stamp t) (snd (tick' now stamp tasks))))
  /\ (sent t = false ->
      list_sum counts
      = (if existsb (fun c => F <=? fst c) clock then 1%nat else 0%nat)
      /\ forall k c, nth_error clock k = Some c ->
           nth_error counts k
           = Some (if (F <=? fst c) && forallb (fun c' => fst c' <? F) (firstn k clock)
                   then 1%nat else 0%nat))
  /\ (sent t = true -> list_sum counts = 0%nat).
Proof.
  intros Hnd Hin Hs Hst Hd F counts.
  assert (Hsame : same_obligation t t) by (repeat split).
  assert (Hlook : lookup_task (id t) tasks = Some t) by now apply lookup_task_In.
  assert (Hfires : forall now, fires' now t = (F <=? now) && negb (sent t))
    by (intros now; now apply (fires_threshold now t t s d)).
  assert (Hcounts : counts = first_crossing F (negb (sent t)) clock)
    by (subst counts F; now apply (run_counts t s d)).
  split; [|split].
  - intros now stamp fired.
    assert (Hfired : In t fired <-> F <= now /\ sent t = false).
    { subst fired. rewrite filter_In, Hfires, andb_true_iff, negb_true_iff. 
      split.
      - intros [_ [H1 H2]]. split; [lia | assumption].
      - intros [H1 H2]. split; [assumption|]. split; [lia | assumption]. }
    rewrite tick_spec by assumption. simpl.
    split; [|split; [exact Hfired | split; [reflexivity | split]]].
    + rewrite reminds_for_tick, Hlook, Hfires by assumption. reflexivity.
    + pose proof (tick_loop_spec getTime formatDateTime now stamp tasks tasks) as E.
      fold (tick' now stamp tasks) in E. rewrite tick_spec in E by assumption.
      injection E as ->.
      apply onFlag_is_updateTask; [now apply NoDup_map_filter|].
      intros x y Hx Hy Hid. apply filter_In in Hx as [Hx _].
      now apply (NoDup_id_inj tasks).
    + intros Ht. apply in_map_iff. exists t. split; [|assumption].
      apply filter_In in Ht as [_ ->]. reflexivity.
  - intros Hsent. rewrite Hcounts, Hsent. simpl. split.
    + apply first_crossing_sum.
    + intros k c Hk. now apply first_crossing_nth.
  - intros Hsent. rewrite Hcounts, Hsent. simpl. apply first_crossing_disarmed.
Qed.

End ReminderRuns.

(** [dueTask] next to [doneTask], ticked over [someClock]: one reminder. *)
Lemma reminder_fires_exactly_once_witness :
  list_sum (List.map (reminds_for (lit "m81q"))
                     (fst (run_ticks isoTime (fun x => x) someClock [doneTask; dueTask])))
  = 1%nat.
Proof.
  pose proof (reminder_fires_exactly_once isoTime (fun x => x)
                [doneTask; dueTask] dueTask (lit "2025-01-01T00:00:00.000Z")
                1735689600000 someClock) as H.
  destruct H as [_ [H _]].
  - repeat constructor; simpl; intuition discriminate.
  - simpl. auto.
  - reflexivity.
  - discriminate.
  - vm_compute. reflexivity.
  - exact (proj1 (H eq_refl)).
Defined.

(** ** Reconciliation engine *)

Section EngineFacts.

Variable tripSlug : jstring.
Variable getTime : jstring -> jsnum.
Variable formatDateTime : jstring -> jstring.

Abbreviation step' := (step tripSlug getTime formatDateTime).
Abbreviation run' := (run tripSlug getTime formatDateTime).
Abbreviation tKey := (tasksKey tripSlug).
Abbreviation sKey := (settingsKey tripSlug).
Abbreviation synced' := (synced tripSlug).

Lemma keys_differ : sKey <> tKey.
Proof. unfold settingsKey, tasksKey. cbn. discriminate. Qed.

Lemma synced_persistTasks (a : App) : synced' (persistTasks tripSlug a).
Proof.
  unfold synced, persistTasks. simpl. split; [|reflexivity].
  apply lookup_insert_eq.
Qed.

Lemma synced_setTasks (upd : list Task -> option (list Task)) (a : App) :
  synced' a -> synced' (setTasks tripSlug upd a).
Proof.
  intros H. unfold setTasks. destruct (upd (tasks a)); [|exact H].
  apply synced_persistTasks.
Qed.

Lemma synced_setSettings (s : Settings) (a : App) :
  synced' a -> synced' (setSettings tripSlug s a).
Proof.
  intros [H1 H2]. unfold synced, setSettings, persistSettings. simpl.
  split; [|exact H2].
  rewrite lookup_insert_ne; [exact H1 | apply keys_differ].
Qed.

Lemma synced_step (act : Action) (a : App) :
  synced' a -> synced' (fst (step' act a)).
Proof.
  intros H. destruct act; simpl;
    try (apply synced_setTasks; exact H);
    try (apply synced_setSettings; exact H).
  - destruct (online a); [apply synced_setTasks|]; exact H.
  - destruct (tick _ _ _ _ _) as [evs l]. simpl. now apply synced_setTasks.
  - destruct (online a); [|exact H].
    destruct outcome as [data [e|]|e]; simpl; try exact H.
    now apply synced_setTasks.
Qed.

Lemma synced_run (acts : list Action) (a : App) :
  synced' a -> synced' (fst (run' acts a)).
Proof.
  revert a. induction acts as [|act acts IH]; intros a H; simpl; [exact H|].
  destruct (step' act a) as [a1 c1] eqn:E1.
  destruct (run' acts a1) as [a2 c2] eqn:E2. simpl.
  specialize (IH a1). rewrite E2 in IH. apply IH.
  pose proof (synced_step act a H) as H1. now rewrite E1 in H1.
Qed.

Lemma synced_mount (st : gmap jstring Stored) (seed : list Task) :
  synced' (mount tripSlug st seed).
Proof.
  unfold synced, mount. simpl. split; [|reflexivity].
  rewrite lookup_insert_ne by apply keys_differ. apply lookup_insert_eq.
Qed.

Lemma synced_startSession (st : gmap jstring Stored) (seed : list Task)
      (env : option CloudConfig) (outcome : Settled unit) :
  synced' (fst (startSession tripSlug st seed env outcome)).
Proof.
  unfold startSession, ensureTrip, createClientEffect, mount. simpl.
  destruct env as [cfg|]; simpl.
  - destruct outcome; simpl; (split; [|reflexivity]); simpl;
      (rewrite lookup_insert_ne by apply keys_differ; apply lookup_insert_eq).
  - split; [|reflexivity]. simpl.
    rewrite lookup_insert_ne by apply keys_differ. apply lookup_insert_eq.
Qed.

(** C7. Whatever the cache held at start, whether credentials resolve and
    however the handshake settles, after any sequence of handlers (local
    add, update and delete, live events, reminder ticks, snapshot import,
    cloud load, reset) the cache entry of the task list is the canonical
    list, and a cold start from that cache reads the canonical list. *)
Theorem write_through (st : gmap jstring Stored) (seed : list Task)
        (env : option CloudConfig) (outcome : Settled unit)
        (acts : list Action) (fallback : list Task) :
  let a := fst (run' acts (fst (startSession tripSlug st seed env outcome))) in
  storage a !! tKey = Some (STasks (tasks a))
  /\ tasksLocal a = tasks a
  /\ readTasks tripSlug (storage a) fallback = tasks a
  /\ tasks (mount tripSlug (storage a) fallback) = tasks a.
Proof.
  intros a.
  assert (H : synced' a) by (apply synced_run, synced_startSession).
  destruct H as [H1 H2].
  assert (H3 : readTasks tripSlug (storage a) fallback = tasks a)
    by (unfold readTasks; now rewrite H1).
  split; [exact H1|]. split; [exact H2|]. split; [exact H3|].
  unfold mount. simpl. exact H3.
Qed.

(** X26. In connected mode a tick sends, for each task that fired, the
    upsert [updateTask] would send for its flagged copy. *)
Lemma reminder_tick_upserts (now : Z) (stamp : jstring) (a : App) :
  List.NoDup (List.map id (tasks a)) ->
  online a = true ->
  snd (step' (ReminderTick now stamp) a)
  = List.map (fun x => UpsertTask (taskToDb (flagged stamp x)))
             (List.filter (fires getTime now) (tasks a)).
Proof.
  intros Hnd Hon. cbn [step]. rewrite tick_spec by assumption.
  cbn [snd]. unfold remote. rewrite Hon.
  assert (G : forall fired,
             (forall x, In x fired -> In x (tasks a)) ->
             flagCalls stamp (tasks a) (List.map (remind formatDateTime) fired)
             = List.map (fun x => UpsertTask (taskToDb (flagged stamp x))) fired).
  { induction fired as [|x fired IH]; intros Hin; [reflexivity|].
    cbn [List.map flagCalls flat_map].
    change (rem_id (remind formatDateTime x)) with (id x).
    pose proof (lookup_task_In (tasks a) x Hnd (Hin x (or_introl eq_refl))) as E.
    unfold lookup_task in E. rewrite E. cbn [app]. f_equal.
    apply IH. intros y Hy. apply Hin. now right. }
  apply G. intros x Hx. now apply filter_In in Hx as [Hx _].
Qed.

(** C8. When the token of a share link does not decode ([decodeState]
    throws), the import effect raises the alert, calls no setter, strips
    the fragment, and leaves tasks, settings and cache as they were. *)
Theorem bad_token_alerts_and_keeps_state
        (token : jstring) (confirmed : bool) (a : App) :
  decodeState token = None ->
  importEffect (lit "#state=" ++ token) confirmed
  = [Alert (lit "Bad share link"); ReplaceState]
  /\ applyCmds tripSlug getTime formatDateTime
               (importEffect (lit "#state=" ++ token) confirmed) a = Some a.
Proof.
  intros H.
  assert (E : importEffect (lit "#state=" ++ token) confirmed
              = [Alert (lit "Bad share link"); ReplaceState]).
  { unfold importEffect.
    change (starts_with (lit "#state=") (lit "#state=" ++ token)) with (Some token).
    cbv beta iota. rewrite H. reflexivity. }
  split; [exact E|]. rewrite E. reflexivity.
Qed.

(** C6, on a handshake that fails the way line 346 expects failures to be
    reported: the promise resolves, and its result carries the error.
    The session ends connected and no error is recorded. *)
Theorem handshake_error_in_result
        (st : gmap jstring Stored) (seed : list Task) (cfg : CloudConfig)
        (data : option unit) (err : Thrown) :
  let a := fst (startSession tripSlug st seed (Some cfg) (Resolved data (Some err))) in
  connected a = true /\ error a = None /\ online a = true
  /\ tasks a = readTasks tripSlug st seed.
Proof. unfold startSession, mount. simpl. auto. Qed.

(** X1. The handshake on a promise that rejects: local mode, the error
    recorded, the canonical list as read from the cache, one attempt, and
    no handler makes another or changes the mode or the error. *)
Theorem handshake_rejected
        (st : gmap jstring Stored) (seed : list Task) (cfg : CloudConfig)
        (e : Thrown) (acts : list Action) :
  let start := startSession tripSlug st seed (Some cfg) (Rejected e) in
  let a := fst start in
  connected a = false /\ error a = Some (errorText e)
  /\ tasks a = readTasks tripSlug st seed
  /\ snd start = [UpsertTrip]
  /\ snd (run' acts a) = []
  /\ connected (fst (run' acts a)) = false
  /\ error (fst (run' acts a)) = Some (errorText e).
Proof.
  intros start a.
  assert (Hgen : forall acts b, connected b = false ->
             snd (run' acts b) = [] /\ connected (fst (run' acts b)) = false
             /\ error (fst (run' acts b)) = error b).
  { clear. induction acts as [|act acts IH]; intros b Hb; simpl; [auto|].
    assert (Hoff : online b = false)
      by (unfold online; destruct (client b); [exact Hb | reflexivity]).
    assert (Hstep : snd (step' act b) = [] /\ connected (fst (step' act b)) = false
                    /\ error (fst (step' act b)) = error b).
    { assert (HsetT : forall upd, connected (setTasks tripSlug upd b) = false
                                  /\ error (setTasks tripSlug upd b) = error b)
        by (intros upd; unfold setTasks; destruct (upd (tasks b)); simpl; auto).
      assert (HsetS : forall s, connected (setSettings tripSlug s b) = false
                                /\ error (setSettings tripSlug s b) = error b)
        by (intros s; unfold setSettings; simpl; auto).
      destruct act; simpl; unfold remote; rewrite ?Hoff; simpl;
        try (split; [reflexivity|]; auto; fail).
      destruct (tick getTime formatDateTime now stamp (tasks b)) as [evs l].
      simpl. split; [reflexivity|]. apply HsetT. }
    destruct (step' act b) as [b1 c1]. simpl in Hstep.
    destruct Hstep as (-> & Hc & He).
    specialize (IH b1 Hc). destruct (run' acts b1) as [b2 c2]. simpl in *.
    destruct IH as (-> & Hc2 & He2). rewrite He2, He. auto. }
  assert (Ha : connected a = false /\ error a = Some (errorText e)
               /\ tasks a = readTasks tripSlug st seed /\ snd start = [UpsertTrip])
    by (subst a start; unfold startSession, mount; simpl; auto).
  destruct Ha as (H1 & H2 & H3 & H4).
  destruct (Hgen acts a H1) as (G1 & G2 & G3).
  rewrite G3, H2. auto 10.
Qed.

End EngineFacts.

(** The token [e2JhZA==] is the base64 text of [{bad], which is no JSON. *)
Lemma bad_token_alerts_and_keeps_state_witness :
  importEffect (lit "#state=e2JhZA==") true = [Alert (lit "Bad share link"); ReplaceState].
Proof.
  exact (proj1 (bad_token_alerts_and_keeps_state
                  (lit "goldcoast-2025") isoTime (fun x => x) (lit "e2JhZA==") true
                  (mount (lit "goldcoast-2025") ∅ [dueTask])
                  ltac:(vm_compute; reflexivity))).
Defined.

(** ** Share-state codec: the transport layers *)

Section TransportFacts.
Local Open Scope N_scope.

Ltac euclid := zify; Z.to_euclidean_division_equations; lia.

(** A boolean property checked on every number below a bound. *)
Lemma forall_below (f : N -> bool) (k : nat) :
  forallb f (List.map N.of_nat (seq 0 k)) = true ->
  forall n, n < N.of_nat k -> f n = true.
Proof.
  intros H n Hn. rewrite forallb_forall in H. apply H.
  apply in_map_iff. exists (N.to_nat n). split; [apply N2Nat.id|].
  apply in_seq. lia.
Qed.

Lemma hexval_hexu (n : N) : n < 16 -> hexval (hexu n) = Some n.
Proof.
  intros H.
  pose proof (forall_below
                (fun m => match hexval (hexu m) with
                          | Some v => v =? m
                          | None => false
                          end) 16 eq_refl n H) as E.
  cbv beta in E. destruct (hexval (hexu n)); [|discriminate].
  apply N.eqb_eq in E. congruence.
Qed.

Lemma hexval_hexl (n : N) : n < 16 -> hexval (hexl n) = Some n.
Proof.
  intros H.
  pose proof (forall_below
                (fun m => match hexval (hexl m) with
                          | Some v => v =? m
                          | None => false
                          end) 16 eq_refl n H) as E.
  cbv beta in E. destruct (hexval (hexl n)); [|discriminate].
  apply N.eqb_eq in E. congruence.
Qed.

Lemma hexu_not_u (n : N) : n < 16 -> (hexu n =? 117) = false.
Proof.
  intros H. apply negb_true_iff.
  exact (forall_below (fun m => negb (hexu m =? 117)) 16 eq_refl n H).
Qed.

Lemma hex2_pct (b : N) :
  b < 256 -> hex2 (hexu (b / 16)) (hexu (b mod 16)) = Some b.
Proof.
  intros H. unfold hex2.
  rewrite !hexval_hexu by euclid. f_equal. euclid.
Qed.

Lemma hex4_uescape (c : N) :
  c < 65536 ->
  hex4 (hexl (c / 4096)) (hexl ((c / 256) mod 16))
       (hexl ((c / 16) mod 16)) (hexl (c mod 16)) = Some c.
Proof.
  intros H. unfold hex4, hex2.
  rewrite !hexval_hexl by euclid. f_equal. euclid.
Qed.

(** *** Base64 *)

Lemma list_ind3 {A : Type} (P : list A -> Prop) :
  P [] -> (forall a, P [a]) -> (forall a b, P [a; b]) ->
  (forall a b c l, P l -> P (a :: b :: c :: l)) ->
  forall l, P l.
Proof.
  intros H0 H1 H2 H3.
  assert (H : forall l, P l /\ (forall a, P (a :: l)) /\ (forall a b, P (a :: b :: l))).
  { induction l as [|x l (IH0 & IH1 & IH2)]; [auto|].
    split; [apply IH1|]. split; [intros a; apply IH2|]. intros a b. now apply H3. }
  intros l. apply H.
Qed.

Ltac cases_N :=
  repeat match goal with
         | |- context [?a <=? ?b] => destruct (N.leb_spec a b); try lia
         | |- context [?a <? ?b] => destruct (N.ltb_spec a b); try lia
         | |- context [?a =? ?b] => destruct (N.eqb_spec a b); try lia
         end.

Lemma b64val_b64char (n : N) : n < 64 -> b64val (b64char n) = Some n.
Proof.
  intros H. unfold b64char, b64val, in_range.
  cases_N; simpl; try reflexivity; f_equal; lia.
Qed.

Lemma b64char_plain (n : N) :
  n < 64 -> mem (b64char n) [9; 10; 12; 13; 32] = false /\ (b64char n =? 61) = false.
Proof.
  intros H. unfold b64char.
  destruct (N.ltb_spec n 26); [unfold mem, existsb; cases_N; simpl; auto|].
  destruct (N.ltb_spec n 52); [unfold mem, existsb; cases_N; simpl; auto|].
  destruct (N.ltb_spec n 62); [unfold mem, existsb; cases_N; simpl; auto|].
  destruct (N.eqb_spec n 62); simpl; auto.
Qed.

Lemma bytes_ok_forallb (s : list N) :
  bytes_ok s -> forallb (fun c => c <? 256) s = true.
Proof.
  intros H. induction H as [|c s Hc Hs IH]; simpl; [reflexivity|].
  rewrite IH, andb_true_r. now apply N.ltb_lt.
Qed.

Lemma b64sextets_small (s : list N) :
  bytes_ok s -> Forall (fun n => n < 64) (b64sextets s).
Proof.
  induction s using list_ind3; intros Hs; simpl.
  - constructor.
  - inversion Hs; subst. repeat constructor; euclid.
  - inversion Hs as [|? ? Ha Hs']; subst. inversion Hs'; subst.
    repeat constructor; euclid.
  - inversion Hs as [|? ? Ha Hs1]; subst. inversion Hs1 as [|? ? Hb Hs2]; subst.
    inversion Hs2 as [|? ? Hc Hs3]; subst.
    repeat (constructor; [euclid|]). now apply IHs.
Qed.

Lemma b64dec_sextets (s : list N) : bytes_ok s -> b64dec (b64sextets s) = s.
Proof.
  induction s using list_ind3; intros Hs.
  - reflexivity.
  - inversion Hs; subst. simpl. f_equal. euclid.
  - inversion Hs as [|? ? Ha Hs']; subst. inversion Hs'; subst.
    simpl. f_equal; [euclid|]. f_equal. euclid.
  - inversion Hs as [|? ? Ha Hs1]; subst. inversion Hs1 as [|? ? Hb Hs2]; subst.
    inversion Hs2 as [|? ? Hc Hs3]; subst.
    cbn [b64sextets b64dec]. rewrite IHs by assumption.
    f_equal; [euclid|]. f_equal; [euclid|]. f_equal. euclid.
Qed.

Lemma b64enc_split (s : list N) :
  b64enc s = List.map b64char (b64sextets s) ++ b64pad s.
Proof.
  induction s using list_ind3; try reflexivity.
  cbn [b64enc b64sextets b64pad List.map app]. now rewrite IHs.
Qed.

Lemma b64pad_cases (s : list N) :
  b64pad s = [] \/ b64pad s = [61] \/ b64pad s = [61; 61].
Proof. induction s using list_ind3; simpl; auto. Qed.

Lemma b64enc_length (s : list N) : N.of_nat (length (b64enc s)) mod 4 = 0.
Proof.
  induction s using list_ind3; try reflexivity.
  cbn [b64enc length]. euclid.
Qed.

Lemma b64sextets_length (s : list N) :
  N.of_nat (length (b64sextets s)) mod 4 <> 1.
Proof.
  induction s using list_ind3; try (simpl; discriminate).
  cbn [b64sextets length]. euclid.
Qed.

Lemma remove_padding_cons (c : N) (tl : jstring) :
  (c =? 61) = false -> remove_padding (c :: tl) = c :: remove_padding tl.
Proof.
  intros H. destruct tl as [|b [|b' tl]]; simpl; rewrite ?H; try reflexivity.
  destruct (b =? 61); reflexivity.
Qed.

Lemma remove_padding_chars (sx : list N) (pad : jstring) :
  Forall (fun n => n < 64) sx ->
  pad = [] \/ pad = [61] \/ pad = [61; 61] ->
  remove_padding (List.map b64char sx ++ pad) = List.map b64char sx.
Proof.
  intros Hsx Hpad. induction Hsx as [|n sx Hn Hsx IH].
  - destruct Hpad as [->| [->| ->]]; reflexivity.
  - cbn [List.map app]. rewrite remove_padding_cons by now apply b64char_plain.
    now rewrite IH.
Qed.

Lemma filter_chars (sx : list N) (pad : jstring) :
  Forall (fun n => n < 64) sx ->
  pad = [] \/ pad = [61] \/ pad = [61; 61] ->
  List.filter (fun c => negb (mem c [9; 10; 12; 13; 32])) (List.map b64char sx ++ pad)
  = List.map b64char sx ++ pad.
Proof.
  intros Hsx Hpad. induction Hsx as [|n sx Hn Hsx IH].
  - destruct Hpad as [->| [->| ->]]; reflexivity.
  - cbn [List.map app List.filter].
    destruct (b64char_plain n Hn) as [-> _]. cbn [negb]. now rewrite IH.
Qed.

Lemma sextets_chars (sx : list N) :
  Forall (fun n => n < 64) sx -> sextets (List.map b64char sx) = Some sx.
Proof.
  intros Hsx. induction Hsx as [|n sx Hn Hsx IH]; [reflexivity|].
  cbn [List.map sextets]. now rewrite b64val_b64char, IH.
Qed.

(** [atob] undoes [btoa] on every string of octets. *)
Lemma atob_btoa (s : list N) :
  bytes_ok s -> btoa s = Some (b64enc s) /\ atob (b64enc s) = Some s.
Proof.
  intros Hs. split.
  - unfold btoa. now rewrite bytes_ok_forallb.
  - pose proof (b64sextets_small s Hs) as Hsx.
    pose proof (b64pad_cases s) as Hpad.
    unfold atob, strip_padding.
    rewrite b64enc_split, filter_chars by assumption.
    rewrite <- b64enc_split, b64enc_length. cbn [N.eqb].
    rewrite b64enc_split, remove_padding_chars by assumption.
    rewrite length_map.
    destruct (N.eqb_spec (N.of_nat (length (b64sextets s)) mod 4) 1) as [E|_];
      [now apply b64sextets_length in E|].
    rewrite sextets_chars by assumption. simpl.
    now rewrite b64dec_sextets.
Qed.

(** *** UTF-8 by way of percent escapes *)

Lemma utf8_octets (v : N) : v < 1114112 -> bytes_ok (utf8 v).
Proof.
  intros H. unfold utf8, bytes_ok.
  destruct (N.ltb_spec v 128); [repeat constructor; lia|].
  destruct (N.ltb_spec v 2048); [repeat constructor; euclid|].
  destruct (N.ltb_spec v 65536); repeat constructor; euclid.
Qed.

Lemma pair_point_range (h l : N) :
  is_high h = true -> is_low l = true ->
  65536 <= pair_point h l < 1114112.
Proof.
  unfold is_high, is_low, in_range, pair_point. intros Hh Hl.
  apply andb_true_iff in Hh as [H1 H2]. apply andb_true_iff in Hl as [H3 H4].
  apply N.leb_le in H1, H2, H3, H4. lia.
Qed.

Lemma utf8_bytes_ok (s : jstring) : wf16 s -> bytes_ok (utf8_bytes s).
Proof.
  induction 1 as [|c s Hc Hh Hl Hs IH|h l s Hh Hl Hs IH]; simpl.
  - constructor.
  - rewrite Hh. apply Forall_app. split; [apply utf8_octets; lia | exact IH].
  - rewrite Hh, Hl. apply Forall_app. split; [|exact IH].
    apply utf8_octets. now apply pair_point_range.
Qed.

Lemma uriUnreserved_ascii (c : N) :
  uriUnreserved c = true -> c < 128 /\ (c =? 37) = false.
Proof.
  unfold uriUnreserved, is_alnum, in_range, mem, existsb. intros H.
  split; [|apply N.eqb_neq; intros ->; discriminate H].
  revert H. cases_N; simpl; try discriminate; intros _; lia.
Qed.

Lemma escapeUnreserved_ascii (c : N) :
  escapeUnreserved c = true -> c < 128 /\ (c =? 37) = false.
Proof.
  unfold escapeUnreserved, is_alnum, in_range, mem, existsb. intros H.
  split; [|apply N.eqb_neq; intros ->; discriminate H].
  revert H. cases_N; simpl; try discriminate; intros _; lia.
Qed.

Lemma unescape_pct (b : N) (r : jstring) :
  b < 256 -> unescape (pct b ++ r) = b :: unescape r.
Proof.
  intros H. unfold pct. cbn [app unescape]. cbn [N.eqb Pos.eqb].
  rewrite hexu_not_u by euclid. now rewrite hex2_pct.
Qed.

Lemma unescape_pcts (bs : list N) (r : jstring) :
  bytes_ok bs -> unescape (flat_map pct bs ++ r) = bs ++ unescape r.
Proof.
  induction 1 as [|b bs Hb Hbs IH]; [reflexivity|].
  cbn [flat_map]. rewrite <- app_assoc, unescape_pct by assumption.
  now rewrite IH.
Qed.

Lemma high_not_low (h : N) : is_high h = true -> is_low h = false.
Proof. unfold is_high, is_low, in_range. cases_N; simpl; auto. Qed.

Lemma surrogate_reserved (c : N) :
  55296 <= c -> uriUnreserved c = false.
Proof.
  intros H. destruct (uriUnreserved c) eqn:E; [|reflexivity].
  apply uriUnreserved_ascii in E. lia.
Qed.

(** [unescape(encodeURIComponent(s))] is the UTF-8 encoding of a string
    without lone surrogates. *)
Lemma unescape_encodeURIComponent (s : jstring) :
  wf16 s ->
  exists p, encodeURIComponent s = Some p /\ unescape p = utf8_bytes s.
Proof.
  induction 1 as [|c s Hc Hh Hl Hs (p & Hp & Hu)|h l s Hh Hl Hs (p & Hp & Hu)].
  - exists []. auto.
  - cbn [encodeURIComponent utf8_bytes]. rewrite Hp, Hh, Hl. cbn [option_map].
    destruct (uriUnreserved c) eqn:E.
    + apply uriUnreserved_ascii in E as [E1 E2].
      exists (c :: p). split; [reflexivity|].
      cbn [unescape]. rewrite E2, Hu. unfold utf8.
      destruct (N.ltb_spec c 128); [reflexivity | lia].
    + eexists. split; [reflexivity|].
      rewrite unescape_pcts by (apply utf8_octets; lia). now rewrite Hu.
  - cbn [encodeURIComponent utf8_bytes]. fold (pair_point h l).
    rewrite Hp, Hh, Hl, (high_not_low h Hh). cbn [option_map].
    rewrite surrogate_reserved
      by (unfold is_high, in_range in Hh; apply andb_true_iff in Hh as [H1 _];
          now apply N.leb_le in H1).
    eexists. split; [reflexivity|].
    rewrite unescape_pcts by (apply utf8_octets; now apply pair_point_range).
    now rewrite Hu.
Qed.

Lemma continuation_pct (o : N) (r : jstring) :
  128 <= o < 192 -> continuation (pct o ++ r) = Some (o - 128, r).
Proof.
  intros H. unfold continuation, pct. cbn [app]. cbn [N.eqb Pos.eqb].
  rewrite hex2_pct by lia. unfold in_range.
  destruct (N.leb_spec 128 o); [|lia]. destruct (N.leb_spec o 191); [|lia].
  reflexivity.
Qed.

Lemma escape1_octet (o : N) : 128 <= o < 256 -> escape1 o = pct o.
Proof.
  intros H. unfold escape1.
  destruct (escapeUnreserved o) eqn:E; [apply escapeUnreserved_ascii in E; lia|].
  destruct (N.ltb_spec o 256); [reflexivity | lia].
Qed.

Lemma decode_pct (f : nat) (o : N) (r : jstring) :
  o < 128 ->
  decodeURI_go (S f) (pct o ++ r) = option_map (cons o) (decodeURI_go f r).
Proof.
  intros H. unfold pct. cbn [app decodeURI_go]. cbn [N.eqb Pos.eqb].
  rewrite hex2_pct by lia. destruct (N.ltb_spec o 128); [reflexivity | lia].
Qed.

(** One code point below 128: written out or escaped by [escape]. *)
Lemma decode_ascii (f : nat) (c : N) (r : jstring) :
  c < 128 ->
  decodeURI_go (S f) (escape1 c ++ r) = option_map (cons c) (decodeURI_go f r).
Proof.
  intros H. unfold escape1.
  destruct (escapeUnreserved c) eqn:E.
  - apply escapeUnreserved_ascii in E as [_ E].
    cbn [app decodeURI_go]. now rewrite E.
  - destruct (N.ltb_spec c 256); [|lia]. now apply decode_pct.
Qed.

Lemma decode_two (f : nat) (c : N) (r : jstring) :
  128 <= c < 2048 ->
  decodeURI_go (S f) (pct (192 + c / 64) ++ pct (128 + c mod 64) ++ r)
  = option_map (cons c) (decodeURI_go f r).
Proof.
  intros H. unfold pct at 1. cbn [app decodeURI_go]. cbn [N.eqb Pos.eqb].
  rewrite hex2_pct by euclid.
  destruct (N.ltb_spec (192 + c / 64) 128); [euclid|].
  destruct (N.ltb_spec (192 + c / 64) 192); [euclid|].
  destruct (N.ltb_spec (192 + c / 64) 224); [|euclid].
  rewrite continuation_pct by euclid.
  replace ((192 + c / 64 - 192) * 64 + (128 + c mod 64 - 128)) with c by euclid.
  destruct (N.ltb_spec c 128); [euclid|].
  unfold utf16. destruct (N.ltb_spec c 65536); [reflexivity | lia].
Qed.

Lemma decode_three (f : nat) (c : N) (r : jstring) :
  2048 <= c < 65536 -> is_high c = false -> is_low c = false ->
  decodeURI_go (S f) (pct (224 + c / 4096) ++ pct (128 + (c / 64) mod 64)
                          ++ pct (128 + c mod 64) ++ r)
  = option_map (cons c) (decodeURI_go f r).
Proof.
  intros H Hh Hl. unfold pct at 1. cbn [app decodeURI_go]. cbn [N.eqb Pos.eqb].
  rewrite hex2_pct by euclid.
  destruct (N.ltb_spec (224 + c / 4096) 128); [euclid|].
  destruct (N.ltb_spec (224 + c / 4096) 192); [euclid|].
  destruct (N.ltb_spec (224 + c / 4096) 224); [euclid|].
  destruct (N.ltb_spec (224 + c / 4096) 240); [|euclid].
  rewrite !continuation_pct by euclid.
  replace ((224 + c / 4096 - 224) * 4096 + (128 + (c / 64) mod 64 - 128) * 64
           + (128 + c mod 64 - 128)) with c by euclid.
  destruct (N.ltb_spec c 2048); [euclid|]. cbn [orb].
  assert (in_range 55296 57343 c = false) as ->.
  { unfold is_high, is_low, in_range in *. revert Hh Hl. cases_N; simpl; auto. }
  unfold utf16. destruct (N.ltb_spec c 65536); [reflexivity | lia].
Qed.

Lemma decode_four (f : nat) (h l : N) (r : jstring) :
  is_high h = true -> is_low l = true ->
  let v := pair_point h l in
  decodeURI_go (S f) (pct (240 + v / 262144) ++ pct (128 + (v / 4096) mod 64)
                          ++ pct (128 + (v / 64) mod 64) ++ pct (128 + v mod 64) ++ r)
  = option_map (app [h; l]) (decodeURI_go f r).
Proof.
  intros Hh Hl v. pose proof (pair_point_range h l Hh Hl) as Hv. fold v in Hv.
  unfold pct at 1. cbn [app decodeURI_go]. cbn [N.eqb Pos.eqb].
  rewrite hex2_pct by euclid.
  destruct (N.ltb_spec (240 + v / 262144) 128); [euclid|].
  destruct (N.ltb_spec (240 + v / 262144) 192); [euclid|].
  destruct (N.ltb_spec (240 + v / 262144) 224); [euclid|].
  destruct (N.ltb_spec (240 + v / 262144) 240); [euclid|].
  destruct (N.ltb_spec (240 + v / 262144) 248); [|euclid].
  rewrite !continuation_pct by euclid.
  replace ((240 + v / 262144 - 240) * 262144 + (128 + (v / 4096) mod 64 - 128) * 4096
           + (128 + (v / 64) mod 64 - 128) * 64 + (128 + v mod 64 - 128))
    with v by euclid.
  assert (in_range 65536 1114111 v = true) as ->.
  { unfold in_range. destruct (N.leb_spec 65536 v); [|lia].
    destruct (N.leb_spec v 1114111); [reflexivity | lia]. }
  unfold utf16. destruct (N.ltb_spec v 65536); [euclid|].
  assert (55296 + (v - 65536) / 1024 = h /\ 56320 + (v - 65536) mod 1024 = l)
    as [-> ->]; [|reflexivity].
  subst v. unfold pair_point in *.
  unfold is_high, is_low, in_range in Hh, Hl.
  apply andb_true_iff in Hh as [Hh1 Hh2]. apply andb_true_iff in Hl as [Hl1 Hl2].
  apply N.leb_le in Hh1, Hh2, Hl1, Hl2. euclid.
Qed.

(** [decodeURIComponent(escape(...))] reads the UTF-8 encoding back. *)
Lemma decodeURI_escape (s : jstring) :
  wf16 s ->
  forall fuel, (length s < fuel)%nat ->
               decodeURI_go fuel (escape (utf8_bytes s)) = Some s.
Proof.
  unfold escape.
  induction 1 as [|c s Hc Hh Hl Hs IH|h l s Hh Hl Hs IH]; intros [|f] Hf;
    try (simpl in Hf; lia).
  - reflexivity.
  - cbn [utf8_bytes]. rewrite Hh, flat_map_app.
    assert (IH' : decodeURI_go f (flat_map escape1 (utf8_bytes s)) = Some s)
      by (apply IH; simpl in Hf; lia).
    unfold utf8.
    destruct (N.ltb_spec c 128).
    { cbn [flat_map]. rewrite app_nil_r, decode_ascii, IH' by assumption. reflexivity. }
    destruct (N.ltb_spec c 2048).
    { cbn [flat_map]. rewrite !escape1_octet by euclid.
      rewrite app_nil_r, <- !app_assoc, decode_two, IH' by lia. reflexivity. }
    destruct (N.ltb_spec c 65536); [|lia].
    cbn [flat_map]. rewrite !escape1_octet by euclid.
    rewrite app_nil_r, <- !app_assoc, decode_three, IH' by (assumption || lia).
    reflexivity.
  - cbn [utf8_bytes]. rewrite Hh, Hl, flat_map_app.
    assert (IH' : decodeURI_go f (flat_map escape1 (utf8_bytes s)) = Some s)
      by (apply IH; simpl in Hf; lia).
    pose proof (pair_point_range h l Hh Hl) as Hv.
    unfold utf8.
    destruct (N.ltb_spec (pair_point h l) 128); [lia|].
    destruct (N.ltb_spec (pair_point h l) 2048); [lia|].
    destruct (N.ltb_spec (pair_point h l) 65536); [lia|].
    cbn [flat_map]. rewrite !escape1_octet by euclid.
    rewrite app_nil_r, <- !app_assoc, decode_four, IH' by assumption.
    reflexivity.
Qed.

Lemma escape_length (bs : list N) : (length bs <= length (escape bs))%nat.
Proof.
  unfold escape. induction bs as [|b bs IH]; simpl; [lia|].
  rewrite length_app.
  assert (1 <= length (escape1 b))%nat; [|lia].
  unfold escape1, pct. destruct (escapeUnreserved b); [simpl; lia|].
  destruct (b <? 256); simpl; lia.
Qed.

Lemma utf8_nonempty (v : N) : (1 <= length (utf8 v))%nat.
Proof.
  unfold utf8. destruct (v <? 128), (v <? 2048), (v <? 65536); simpl; lia.
Qed.

Lemma utf8_bytes_length (s : jstring) :
  wf16 s -> (length s <= length (utf8_bytes s))%nat.
Proof.
  induction 1 as [|c s Hc Hh Hl Hs IH|h l s Hh Hl Hs IH]; cbn [utf8_bytes length].
  - lia.
  - rewrite Hh, length_app. pose proof (utf8_nonempty c). lia.
  - rewrite Hh, Hl, length_app.
    pose proof (pair_point_range h l Hh Hl) as Hv.
    assert (length (utf8 (pair_point h l)) = 4%nat); [|lia].
    unfold utf8.
    destruct (N.ltb_spec (pair_point h l) 128); [lia|].
    destruct (N.ltb_spec (pair_point h l) 2048); [lia|].
    destruct (N.ltb_spec (pair_point h l) 65536); [lia|]. reflexivity.
Qed.

(** The transport of a text without lone surrogates: the token exists, and
    decoding it yields the text. *)
Lemma transport_round_trip (text : jstring) :
  wf16 text ->
  exists p token bytes,
    encodeURIComponent text = Some p
    /\ btoa (unescape p) = Some token
    /\ atob token = Some bytes
    /\ decodeURIComponent (escape bytes) = Some text.
Proof.
  intros Hwf.
  destruct (unescape_encodeURIComponent text Hwf) as (p & Hp & Hu).
  pose proof (utf8_bytes_ok text Hwf) as Hbytes.
  destruct (atob_btoa (utf8_bytes text) Hbytes) as [Hb Ha].
  exists p, (b64enc (utf8_bytes text)), (utf8_bytes text).
  rewrite Hu. repeat split; try assumption.
  unfold decodeURIComponent. apply decodeURI_escape; [assumption|].
  pose proof (escape_length (utf8_bytes text)).
  pose proof (utf8_bytes_length text Hwf). lia.
Qed.

End TransportFacts.

(** ** Share-state codec: JSON text *)

Section TextFacts.
Local Open Scope N_scope.

Ltac euclid := zify; Z.to_euclidean_division_equations; lia.

Ltac cases_N :=
  repeat match goal with
         | |- context [?a <=? ?b] => destruct (N.leb_spec a b); try lia
         | |- context [?a <? ?b] => destruct (N.ltb_spec a b); try lia
         | |- context [?a =? ?b] => destruct (N.eqb_spec a b); try lia
         end.

Lemma parse_string_raw (c : N) (x : jstring) :
  (c =? 34) = false -> (c =? 92) = false -> (c <? 32) = false ->
  parse_string (c :: x) = read_unit c (parse_string x).
Proof. intros H1 H2 H3. cbn [parse_string]. now rewrite H1, H2, H3. Qed.

Lemma parse_string_uescape (c : N) (x : jstring) :
  c < 65536 ->
  parse_string (uescape c ++ x) = read_unit c (parse_string x).
Proof.
  intros H. unfold uescape. cbn [app parse_string]. cbn [N.eqb Pos.eqb].
  now rewrite hex4_uescape.
Qed.

Lemma parse_string_quote1 (c : N) (x : jstring) :
  c < 65536 ->
  parse_string (quote1 c ++ x) = read_unit c (parse_string x).
Proof.
  intros H. unfold quote1.
  destruct (N.eqb_spec c 8); [subst; reflexivity|].
  destruct (N.eqb_spec c 9); [subst; reflexivity|].
  destruct (N.eqb_spec c 10); [subst; reflexivity|].
  destruct (N.eqb_spec c 12); [subst; reflexivity|].
  destruct (N.eqb_spec c 13); [subst; reflexivity|].
  destruct (N.eqb_spec c 34); [subst; reflexivity|].
  destruct (N.eqb_spec c 92); [subst; reflexivity|].
  destruct ((c <? 32) || is_high c || is_low c) eqn:E.
  - now apply parse_string_uescape.
  - apply orb_false_iff in E as [E _]. apply orb_false_iff in E as [E _].
    cbn [app]. apply parse_string_raw; [now apply N.eqb_neq | now apply N.eqb_neq | exact E].
Qed.

Lemma surrogate_raw (c : N) :
  is_high c = true \/ is_low c = true ->
  (c =? 34) = false /\ (c =? 92) = false /\ (c <? 32) = false.
Proof.
  unfold is_high, is_low, in_range.
  intros [H|H]; apply andb_true_iff in H as [H1 H2]; apply N.leb_le in H1, H2;
    repeat split; cases_N.
Qed.

Lemma units_ok_cons (c : N) (s : jstring) :
  units_ok (c :: s) = true -> c < 65536 /\ units_ok s = true.
Proof.
  unfold units_ok. cbn [forallb]. intros H. apply andb_true_iff in H as [H1 H2].
  apply N.ltb_lt in H1. auto.
Qed.

(** A string literal reads back as the string it quotes. *)
Lemma parse_string_quote (s rest : jstring) :
  units_ok s = true ->
  parse_string (quote_units s ++ 34 :: rest) = Some (s, rest).
Proof.
  remember (length s) as n eqn:Hn.
  assert (Hlen : (length s <= n)%nat) by lia. clear Hn.
  revert s Hlen. induction n as [|n IH]; intros s Hlen Hok.
  - destruct s; [reflexivity | simpl in Hlen; lia].
  - destruct s as [|c tl]; [reflexivity|].
    apply units_ok_cons in Hok as [Hc Htl]. simpl in Hlen.
    cbn [quote_units]. destruct (is_high c) eqn:Hh.
    + destruct tl as [|l tl'].
      * rewrite parse_string_uescape by assumption. reflexivity.
      * destruct (is_low l) eqn:Hl.
        -- apply units_ok_cons in Htl as [Hlc Htl']. simpl in Hlen.
           destruct (surrogate_raw c (or_introl Hh)) as (A1 & A2 & A3).
           destruct (surrogate_raw l (or_intror Hl)) as (B1 & B2 & B3).
           cbn [app]. rewrite parse_string_raw by assumption.
           rewrite parse_string_raw by assumption.
           rewrite IH by (assumption || lia). reflexivity.
        -- rewrite <- app_assoc, parse_string_uescape by assumption.
           rewrite IH by (assumption || (simpl in *; lia)). reflexivity.
    + rewrite <- app_assoc, parse_string_quote1 by assumption.
      rewrite IH by (assumption || lia). reflexivity.
Qed.

(** *** Text without lone surrogates *)

Lemma wf16_app (a b : jstring) : wf16 a -> wf16 b -> wf16 (a ++ b).
Proof.
  intros Ha Hb. induction Ha; cbn [app]; [assumption | |];
    constructor; assumption.
Qed.

Lemma wf16_ascii (s : jstring) : ascii_only s = true -> wf16 s.
Proof.
  unfold ascii_only. induction s as [|c s IH]; cbn [forallb]; intros H;
    [constructor|].
  apply andb_true_iff in H as [H1 H2]. apply N.ltb_lt in H1.
  constructor; [lia | | | now apply IH];
    unfold is_high, is_low, in_range; cases_N; reflexivity.
Qed.

Lemma hexl_ascii (n : N) : n < 16 -> hexl n < 128.
Proof. intros H. unfold hexl. cases_N. Qed.

Lemma wf16_uescape (c : N) : c < 65536 -> wf16 (uescape c).
Proof.
  intros Hc. apply wf16_ascii. unfold uescape, ascii_only. cbn [forallb].
  rewrite !andb_true_iff. repeat split; try reflexivity;
    apply N.ltb_lt, hexl_ascii; euclid.
Qed.

Lemma wf16_quote1 (c : N) :
  c < 65536 -> is_high c = false -> wf16 (quote1 c).
Proof.
  intros Hc Hh. unfold quote1.
  destruct (c =? 8); [now apply wf16_ascii|].
  destruct (c =? 9); [now apply wf16_ascii|].
  destruct (c =? 10); [now apply wf16_ascii|].
  destruct (c =? 12); [now apply wf16_ascii|].
  destruct (c =? 13); [now apply wf16_ascii|].
  destruct (c =? 34); [now apply wf16_ascii|].
  destruct (c =? 92); [now apply wf16_ascii|].
  destruct ((c <? 32) || is_high c || is_low c) eqn:E; [now apply wf16_uescape|].
  apply orb_false_iff in E as [_ E]. constructor; auto. constructor.
Qed.

Lemma wf16_quote_units (s : jstring) : units_ok s = true -> wf16 (quote_units s).
Proof.
  remember (length s) as n eqn:Hn.
  assert (Hlen : (length s <= n)%nat) by lia. clear Hn.
  revert s Hlen. induction n as [|n IH]; intros s Hlen Hok.
  - destruct s; [constructor | simpl in Hlen; lia].
  - destruct s as [|c tl]; [constructor|].
    apply units_ok_cons in Hok as [Hc Htl]. simpl in Hlen.
    cbn [quote_units]. destruct (is_high c) eqn:Hh.
    + destruct tl as [|l tl']; [now apply wf16_uescape|].
      destruct (is_low l) eqn:Hl.
      * apply units_ok_cons in Htl as [Hlc Htl']. simpl in Hlen.
        apply wf16_pair; [assumption | assumption |]. apply IH; [lia | assumption].
      * apply wf16_app; [now apply wf16_uescape|]. apply IH; [simpl in *; lia | assumption].
    + apply wf16_app; [now apply wf16_quote1|]. apply IH; [lia | assumption].
Qed.

Lemma wf16_QuoteJSONString (s : jstring) :
  units_ok s = true -> wf16 (QuoteJSONString s).
Proof.
  intros H. unfold QuoteJSONString.
  apply wf16_app; [now apply wf16_ascii|].
  apply wf16_app; [now apply wf16_quote_units | now apply wf16_ascii].
Qed.

(** *** Numbers *)

Lemma uint_chars_digits (d : Decimal.uint) :
  forallb is_digit (uint_chars d) = true.
Proof. induction d; simpl; auto. Qed.

Lemma uint_of_chars_chars (d : Decimal.uint) : uint_of_chars (uint_chars d) = d.
Proof. induction d; simpl; congruence. Qed.

Lemma take_digits_chars (ds rest : jstring) :
  forallb is_digit ds = true -> delimited rest ->
  take_digits (ds ++ rest) = (ds, rest).
Proof.
  intros Hds Hrest. induction ds as [|c ds IH]; cbn [app].
  - destruct rest as [|c r]; [reflexivity|]. cbn [take_digits].
    destruct Hrest as [->|[->| ->]]; reflexivity.
  - cbn [forallb] in Hds. apply andb_true_iff in Hds as [Hc Hds].
    cbn [take_digits]. rewrite Hc, IH by assumption. reflexivity.
Qed.

Lemma lex_frac_none (rest : jstring) :
  delimited rest -> lex_frac rest = Some ([], rest).
Proof.
  destruct rest as [|c r]; [reflexivity|].
  intros [->|[->| ->]]; reflexivity.
Qed.

Lemma lex_exp_none (rest : jstring) :
  delimited rest -> lex_exp rest = Some ([], rest).
Proof.
  destruct rest as [|c r]; [reflexivity|].
  intros [->|[->| ->]]; reflexivity.
Qed.

(** [Pos.to_uint] writes no leading zero. *)
Lemma to_uint_leading (p : positive) :
  match Pos.to_uint p with
  | Decimal.Nil | Decimal.D0 _ => False
  | _ => True
  end.
Proof.
  pose proof (DecimalPos.Unsigned.to_uint_nonzero p) as Hnz.
  pose proof (DecimalPos.Unsigned.to_uint_nonnil p) as Hnn.
  assert (Hnorm : Decimal.unorm (Pos.to_uint p) = Pos.to_uint p).
  { rewrite <- (DecimalPos.Unsigned.to_of (Pos.to_uint p)).
    now rewrite DecimalPos.Unsigned.of_to. }
  destruct (Pos.to_uint p) as [|d| | | | | | | | |]; try exact I; [congruence|].
  change (Decimal.unorm d = Decimal.D0 d) in Hnorm.
  assert (Hd : d <> Decimal.Nil) by (intros ->; now apply Hnz).
  pose proof (DecimalFacts.nb_digits_unorm d Hd) as Hlen.
  rewrite Hnorm in Hlen. simpl in Hlen. lia.
Qed.

Lemma uint_chars_head (d : Decimal.uint) :
  leading d ->
  exists c tl, uint_chars d = c :: tl /\ (c =? 45) = false /\ (c =? 48) = false
               /\ is_digit c = true /\ forallb is_digit tl = true.
Proof.
  destruct d; cbn [leading]; try contradiction; intros _;
    eexists _, _; (split; [reflexivity|]); repeat split;
    apply uint_chars_digits.
Qed.

Lemma parse_number_unsigned (d : Decimal.uint) (neg : bool) (rest : jstring) :
  leading d \/ d = Decimal.zero -> delimited rest ->
  match lex_int (uint_chars d ++ rest) with
  | None => None
  | Some (ip, r1) =>
      match lex_frac r1 with
      | None => None
      | Some (fp, r2) =>
          match lex_exp r2 with
          | None => None
          | Some (ep, r3) =>
              match fp, ep with
              | [], [] =>
                  let d := uint_of_chars ip in
                  Some (JNum (Z.of_int (if neg then Decimal.Neg d else Decimal.Pos d)), r3)
              | _, _ =>
                  Some (JReal ((if neg then [45] else []) ++ ip ++ fp ++ ep), r3)
              end
          end
      end
  end = Some (JNum (Z.of_int (if neg then Decimal.Neg d else Decimal.Pos d)), rest).
Proof.
  intros Hd Hrest.
  assert (Hlex : lex_int (uint_chars d ++ rest) = Some (uint_chars d, rest)).
  { destruct Hd as [Hd| ->]; [|reflexivity].
    destruct (uint_chars_head d Hd) as (c & tl & E & _ & H48 & Hdig & Htl).
    rewrite E. cbn [app]. unfold lex_int. rewrite H48, Hdig.
    now rewrite take_digits_chars. }
  rewrite Hlex, lex_frac_none, lex_exp_none by assumption.
  now rewrite uint_of_chars_chars.
Qed.

(** An integer reads back as itself. *)
Lemma parse_number_chars (z : Z) (rest : jstring) :
  delimited rest ->
  parse_number (number_chars z ++ rest) = Some (JNum z, rest).
Proof.
  intros Hrest. rewrite <- (DecimalZ.of_to z) at 2.
  unfold number_chars, parse_number.
  destruct z as [|p|p]; cbn [Z.to_int].
  - change (uint_chars Decimal.zero ++ rest) with (48 :: rest).
    cbn [N.eqb Pos.eqb].
    change (48 :: rest) with (uint_chars Decimal.zero ++ rest).
    apply (parse_number_unsigned Decimal.zero false); auto.
  - pose proof (to_uint_leading p) as Hp. fold (leading (Pos.to_uint p)) in Hp.
    destruct (uint_chars_head _ Hp) as (c & tl & E & H45 & _).
    rewrite E. cbn [app]. rewrite H45.
    change (c :: tl ++ rest) with ((c :: tl) ++ rest). rewrite <- E.
    apply (parse_number_unsigned (Pos.to_uint p) false); auto.
  - pose proof (to_uint_leading p) as Hp. fold (leading (Pos.to_uint p)) in Hp.
    cbn [app]. cbn [N.eqb Pos.eqb].
    apply (parse_number_unsigned (Pos.to_uint p) true); auto.
Qed.

Lemma number_chars_ascii (z : Z) : ascii_only (number_chars z) = true.
Proof.
  assert (H : forall d, ascii_only (uint_chars d) = true)
    by (induction d; simpl; auto).
  unfold number_chars. destruct (Z.to_int z); [apply H|].
  unfold ascii_only. cbn [forallb]. apply H.
Qed.

Lemma number_chars_head (z : Z) :
  exists c tl, number_chars z = c :: tl /\ (c = 45 \/ is_digit c = true).
Proof.
  unfold number_chars. destruct (Z.to_int z) as [d|d] eqn:E.
  - destruct z as [|p|p]; cbn [Z.to_int] in E; try discriminate.
    + injection E as <-. exists 48, []. auto.
    + injection E as <-. pose proof (to_uint_leading p) as Hp.
      fold (leading (Pos.to_uint p)) in Hp.
      destruct (uint_chars_head _ Hp) as (c & tl & E & _ & _ & Hdig & _).
      exists c, tl. auto.
  - exists 45, (uint_chars d). auto.
Qed.

Section Induction.

Variable P : jsval -> Prop.
Hypothesis P_undefined : P JUndefined.
Hypothesis P_null : P JNull.
Hypothesis P_bool : forall b, P (JBool b).
Hypothesis P_num : forall z, P (JNum z).
Hypothesis P_real : forall l, P (JReal l).
Hypothesis P_str : forall s, P (JStr s).
Hypothesis P_arr : forall l, Forall P l -> P (JArr l).
Hypothesis P_obj : forall l, Forall (fun kv => P (snd kv)) l -> P (JObj l).

Fixpoint jsval_induction (v : jsval) : P v :=
  match v with
  | JUndefined => P_undefined
  | JNull => P_null
  | JBool b => P_bool b
  | JNum z => P_num z
  | JReal l => P_real l
  | JStr s => P_str s
  | JArr l =>
      P_arr l ((fix go (l : list jsval) : Forall P l :=
                  match l with
                  | [] => @List.Forall_nil _ P
                  | x :: l' => @List.Forall_cons _ P x l' (jsval_induction x) (go l')
                  end) l)
  | JObj l =>
      P_obj l ((fix go (l : list (jstring * jsval)) : Forall (fun kv => P (snd kv)) l :=
                  match l with
                  | [] => @List.Forall_nil _ _
                  | kv :: l' =>
                      @List.Forall_cons _ (fun kv => P (snd kv)) kv l'
                                        (jsval_induction (snd kv)) (go l')
                  end) l)
  end.

End Induction.

Lemma skip_ws_plain (c : N) (tl : jstring) :
  mem c [32; 9; 10; 13] = false -> skip_ws (c :: tl) = c :: tl.
Proof. intros H. cbn [skip_ws]. now rewrite H. Qed.

Lemma parse_val_number (f : nat) (c : N) (tl : jstring) :
  c = 45 \/ is_digit c = true ->
  parse_val (S f) (c :: tl) = parse_number (c :: tl).
Proof.
  intros [->|H]; [reflexivity|].
  unfold is_digit, in_range in H. apply andb_true_iff in H as [H1 H2].
  apply N.leb_le in H1, H2.
  remember (N.to_nat (c - 48)) as k eqn:Hk.
  assert (Hc : c = 48 + N.of_nat k) by lia.
  assert (Hlt : (k < 10)%nat) by lia. clear Hk H1 H2. subst c.
  do 10 (destruct k as [|k]; [reflexivity|]). lia.
Qed.

(** The first character of the text of a value. *)
Lemma serialize_head (v : jsval) :
  json_ok v = true ->
  exists c tl, serialize v = c :: tl
               /\ mem c [32; 9; 10; 13] = false /\ (c =? 93) = false.
Proof.
  destruct v as [| |[|]|z|l|s|l|l]; cbn [json_ok]; intros H; try discriminate;
    try (eexists _, _; split; [reflexivity|]; split; reflexivity).
  destruct (number_chars_head z) as (c & tl & E & Hc).
  exists c, tl. cbn [serialize]. split; [exact E|].
  destruct Hc as [->|Hc]; [split; reflexivity|].
  unfold is_digit, in_range in Hc. apply andb_true_iff in Hc as [H1 H2].
  apply N.leb_le in H1, H2. unfold mem, existsb. split; cases_N; reflexivity.
Qed.

Lemma parse_elems_join (l : list jsval) :
  Forall reads_back l -> forallb json_ok l = true -> l <> [] ->
  forall fuel rest,
    (list_sum (List.map (fun x => S (need x)) l) <= fuel)%nat ->
    parse_elems fuel (join (List.map serialize l) ++ 93 :: rest) = Some (l, rest).
Proof.
  induction l as [|e l IH]; intros Hall Hok Hne fuel rest Hfuel; [contradiction|].
  inversion Hall as [|? ? He Hl]; subst.
  cbn [forallb] in Hok. apply andb_true_iff in Hok as [Hoke Hokl].
  cbn [List.map list_sum] in Hfuel.
  destruct fuel as [|f]; [simpl in Hfuel; lia|].
  destruct l as [|e2 l'].
  - cbn [List.map join]. cbn [parse_elems].
    rewrite (He Hoke f (93 :: rest)) by (simpl in *; auto; lia).
    reflexivity.
  - change (join (List.map serialize (e :: e2 :: l')))
      with (serialize e ++ [44] ++ join (List.map serialize (e2 :: l'))).
    rewrite <- !app_assoc. cbn [parse_elems].
    rewrite (He Hoke f) by (simpl in *; auto; lia).
    cbn [app skip_ws mem existsb N.eqb Pos.eqb orb].
    rewrite IH; [reflexivity | assumption | assumption | discriminate |].
    simpl in *. lia.
Qed.

Lemma json_ok_defined (v : jsval) : json_ok v = true -> is_undefined v = false.
Proof. destruct v; simpl; congruence. Qed.

Lemma members_with_defined (l : list (jstring * jsval)) :
  forallb member_ok l = true -> members_with serialize l = List.map member l.
Proof.
  induction l as [|[k v] l IH]; cbn [forallb members_with List.map]; intros H;
    [reflexivity|].
  apply andb_true_iff in H as [H1 H2].
  apply andb_true_iff in H1 as [_ H1].
  rewrite (json_ok_defined v H1), IH by assumption. reflexivity.
Qed.

Lemma parse_members_join (l : list (jstring * jsval)) :
  Forall (fun kv => reads_back (snd kv)) l -> forallb member_ok l = true -> l <> [] ->
  forall fuel rest,
    (list_sum (List.map (fun kv => S (need (snd kv))) l) <= fuel)%nat ->
    parse_members fuel (join (List.map member l) ++ 125 :: rest) = Some (l, rest).
Proof.
  induction l as [|[k v] l IH]; intros Hall Hok Hne fuel rest Hfuel; [contradiction|].
  inversion Hall as [|? ? He Hl]; subst. cbn [snd] in He.
  cbn [forallb] in Hok. apply andb_true_iff in Hok as [Hoke Hokl].
  apply andb_true_iff in Hoke as [Hk Hv]. cbn [fst snd] in Hk, Hv.
  cbn [List.map list_sum snd] in Hfuel.
  destruct fuel as [|f]; [simpl in Hfuel; lia|].
  assert (Hhead : forall x,
             parse_members (S f) (member (k, v) ++ x)
             = match parse_val f (serialize v ++ x) with
               | None => None
               | Some (v', r3) =>
                   match skip_ws r3 with
                   | 44 :: r4 =>
                       match parse_members f r4 with
                       | Some (ms, r5) => Some ((k, v') :: ms, r5)
                       | None => None
                       end
                   | 125 :: r4 => Some ([(k, v')], r4)
                   | _ => None
                   end
               end).
  { intros x. unfold member, QuoteJSONString. cbn [fst snd].
    rewrite <- !app_assoc. cbn [app parse_members skip_ws mem existsb N.eqb Pos.eqb orb].
    rewrite parse_string_quote by assumption. reflexivity. }
  destruct l as [|kv2 l'].
  - cbn [List.map join]. rewrite Hhead.
    rewrite (He Hv f (125 :: rest)) by (simpl in *; auto; lia).
    reflexivity.
  - change (join (List.map member ((k, v) :: kv2 :: l')))
      with (member (k, v) ++ [44] ++ join (List.map member (kv2 :: l'))).
    rewrite <- !app_assoc, Hhead.
    rewrite (He Hv f) by (simpl in *; auto; lia).
    cbn [app skip_ws mem existsb N.eqb Pos.eqb orb].
    rewrite IH; [reflexivity | assumption | assumption | discriminate |].
    simpl in *. lia.
Qed.

Lemma obj_set_fresh (k : jstring) (v : jsval) (acc : list (jstring * jsval)) :
  ~ In k (List.map fst acc) -> obj_set k v acc = acc ++ [(k, v)].
Proof.
  induction acc as [|[k' v'] acc IH]; cbn [obj_set List.map fst In app]; intros H;
    [reflexivity|].
  destruct (str_eqb k' k) eqn:E.
  - apply str_eqb_eq in E. exfalso. apply H. now left.
  - rewrite IH; [reflexivity|]. intros Hin. apply H. now right.
Qed.

Lemma distinct_cons (k : jstring) (r : list jstring) :
  distinct (k :: r) = true -> ~ In k r /\ distinct r = true.
Proof.
  cbn [distinct]. intros H. apply andb_true_iff in H as [H1 H2].
  split; [|assumption]. intros Hin. apply negb_true_iff in H1.
  assert (existsb (str_eqb k) r = true); [|congruence].
  apply existsb_exists. exists k. split; [assumption | apply str_eqb_refl].
Qed.

Lemma build_object_distinct (l : list (jstring * jsval)) :
  distinct (List.map fst l) = true -> build_object l = JObj l.
Proof.
  unfold build_object. intros H. f_equal.
  assert (G : forall acc,
             (forall k, In k (List.map fst l) -> ~ In k (List.map fst acc)) ->
             fold_left (fun acc kv => obj_set (fst kv) (snd kv) acc) l acc = acc ++ l).
  { induction l as [|[k v] l IH]; intros acc Hacc; cbn [fold_left];
      [now rewrite app_nil_r|].
    cbn [List.map fst] in H. apply distinct_cons in H as [Hk Hl].
    cbn [fst snd]. rewrite obj_set_fresh by (apply Hacc; now left).
    rewrite IH; [now rewrite <- app_assoc | assumption |].
    intros k' Hk' Hin. rewrite List.map_app in Hin. apply in_app_or in Hin as [Hin|Hin].
    - apply (Hacc k'); [now right | assumption].
    - cbn in Hin. destruct Hin as [<-|[]]. contradiction. }
  apply (G []). intros k _ [].
Qed.

Lemma reads_back_all (v : jsval) : reads_back v.
Proof.
  induction v as [| |b|z|l|s|l IH|l IH] using jsval_induction;
    intros Hok fuel rest Hfuel Hrest; cbn [json_ok] in Hok; try discriminate;
    (destruct fuel as [|f]; [simpl in Hfuel; lia|]).
  - reflexivity.
  - destruct b; reflexivity.
  - destruct (number_chars_head z) as (c & tl & E & Hc).
    cbn [serialize]. pose proof (parse_number_chars z rest Hrest) as Hn.
    rewrite E in *. cbn [app] in *. now rewrite parse_val_number.
  - cbn [serialize]. unfold QuoteJSONString. rewrite <- !app_assoc.
    cbn [app parse_val skip_ws mem existsb N.eqb Pos.eqb orb].
    now rewrite parse_string_quote.
  - cbn [serialize]. rewrite <- !app_assoc.
    cbn [app parse_val skip_ws mem existsb N.eqb Pos.eqb orb].
    destruct l as [|e l']; [reflexivity|].
    destruct (serialize_head e) as (c & tl & E & Hws & H93).
    { cbn [forallb] in Hok. now apply andb_true_iff in Hok as [-> _]. }
    assert (Hstart : starts_with [93]
                       (skip_ws (join (List.map serialize (e :: l')) ++ 93 :: rest))
                     = None).
    { destruct l' as [|e2 l'']; cbn [List.map join]; rewrite E; cbn [app];
        rewrite skip_ws_plain by assumption; cbn [starts_with];
        rewrite N.eqb_sym, H93; reflexivity. }
    rewrite Hstart.
    rewrite parse_elems_join; [reflexivity | | assumption | discriminate |].
    + exact IH.
    + cbn [need] in Hfuel. lia.
  - apply andb_true_iff in Hok as [Hmem Hkeys].
    cbn [serialize]. rewrite members_with_defined by assumption.
    rewrite <- !app_assoc.
    cbn [app parse_val skip_ws mem existsb N.eqb Pos.eqb orb].
    destruct l as [|[k x] l']; [reflexivity|].
    assert (Hstart : starts_with [125]
                       (skip_ws (join (List.map member ((k, x) :: l')) ++ 125 :: rest))
                     = None).
    { destruct l' as [|kv2 l'']; cbn [List.map join]; reflexivity. }
    rewrite Hstart.
    rewrite parse_members_join; [| | assumption | discriminate |].
    + now rewrite build_object_distinct.
    + exact IH.
    + cbn [need] in Hfuel. lia.
Qed.

Lemma join_length (xs : list jstring) (n : list nat) :
  Forall2 (fun x k => k <= length x)%nat xs n ->
  (list_sum (List.map S n) <= S (length (join xs)))%nat.
Proof.
  induction 1 as [|x k xs n Hx Hxs IH]; [simpl; lia|].
  destruct xs as [|y ys].
  - inversion Hxs; subst. simpl. lia.
  - change (join (x :: y :: ys)) with (x ++ [44] ++ join (y :: ys)).
    rewrite !length_app.
    change (list_sum (List.map S (k :: n))) with (S k + list_sum (List.map S n))%nat.
    change (length [44]) with 1%nat. lia.
Qed.

(** The text of a value is long enough to serve as fuel. *)
Lemma need_length (v : jsval) :
  json_ok v = true -> (need v <= length (serialize v))%nat.
Proof.
  induction v as [| |b|z|l|s|l IH|l IH] using jsval_induction;
    cbn [json_ok]; intros Hok; try discriminate.
  - simpl. lia.
  - destruct b; simpl; lia.
  - destruct (number_chars_head z) as (c & tl & E & _).
    cbn [serialize need]. rewrite E. simpl. lia.
  - cbn [serialize need]. unfold QuoteJSONString. rewrite !length_app. simpl. lia.
  - cbn [serialize need]. rewrite !length_app. cbn [length].
    rewrite <- List.map_map.
    assert (H : Forall2 (fun x k => k <= length x)%nat
                        (List.map serialize l) (List.map need l)).
    { induction IH as [|x l Hx Hl IHl]; [constructor|].
      cbn [forallb] in Hok. apply andb_true_iff in Hok as [H1 H2].
      constructor; [now apply Hx | now apply IHl]. }
    apply join_length in H. lia.
  - apply andb_true_iff in Hok as [Hmem _].
    cbn [serialize need]. rewrite members_with_defined by assumption.
    rewrite !length_app. cbn [length].
    rewrite <- (List.map_map (fun kv => need (snd kv)) S).
    assert (H : Forall2 (fun x k => k <= length x)%nat
                        (List.map member l) (List.map (fun kv => need (snd kv)) l)).
    { induction IH as [|[k x] l Hx Hl IHl]; [constructor|].
      cbn [forallb] in Hmem. apply andb_true_iff in Hmem as [H1 H2].
      apply andb_true_iff in H1 as [_ H1]. cbn [snd] in *.
      constructor; [|now apply IHl].
      unfold member. cbn [fst snd].
      rewrite !length_app. specialize (Hx H1). lia. }
    apply join_length in H. lia.
Qed.

(** [JSON.parse] of the text of a value is the value. *)
Lemma JSON_parse_serialize (v : jsval) :
  json_ok v = true -> JSON_parse (serialize v) = Some v.
Proof.
  intros Hok. unfold JSON_parse.
  pose proof (reads_back_all v Hok (S (length (serialize v))) []) as H.
  rewrite app_nil_r in H. rewrite H; [reflexivity | | exact I].
  pose proof (need_length v Hok). lia.
Qed.

Lemma wf16_join (xs : list jstring) : Forall wf16 xs -> wf16 (join xs).
Proof.
  induction 1 as [|x xs Hx Hxs IH]; [constructor|].
  destruct xs as [|y ys]; [exact Hx|].
  change (join (x :: y :: ys)) with (x ++ [44] ++ join (y :: ys)).
  apply wf16_app; [exact Hx|]. apply wf16_app; [now apply wf16_ascii | exact IH].
Qed.

(** The text of a value has no lone surrogate. *)
Lemma wf16_serialize (v : jsval) : json_ok v = true -> wf16 (serialize v).
Proof.
  induction v as [| |b|z|l|s|l IH|l IH] using jsval_induction;
    cbn [json_ok]; intros Hok; try discriminate.
  - now apply wf16_ascii.
  - destruct b; now apply wf16_ascii.
  - apply wf16_ascii, number_chars_ascii.
  - now apply wf16_QuoteJSONString.
  - cbn [serialize]. apply wf16_app; [now apply wf16_ascii|].
    apply wf16_app; [|now apply wf16_ascii]. apply wf16_join.
    induction IH as [|x l Hx Hl IHl]; [constructor|].
    cbn [forallb] in Hok. apply andb_true_iff in Hok as [H1 H2].
    constructor; [now apply Hx | now apply IHl].
  - apply andb_true_iff in Hok as [Hmem _].
    cbn [serialize]. rewrite members_with_defined by assumption.
    apply wf16_app; [now apply wf16_ascii|].
    apply wf16_app; [|now apply wf16_ascii]. apply wf16_join.
    induction IH as [|[k x] l Hx Hl IHl]; [constructor|].
    cbn [forallb] in Hmem. apply andb_true_iff in Hmem as [H1 H2].
    apply andb_true_iff in H1 as [Hk H1]. cbn [fst snd] in *.
    constructor; [|now apply IHl].
    unfold member. cbn [fst snd].
    apply wf16_app; [now apply wf16_QuoteJSONString|].
    apply wf16_app; [now apply wf16_ascii | now apply Hx].
Qed.

Lemma written_defined (v : jsval) : is_undefined (written v) = false.
Proof. destruct v; reflexivity. Qed.

Lemma serialize_written (v : jsval) : serialize (written v) = serialize v.
Proof.
  induction v as [| |b|z|l|s|l IH|l IH] using jsval_induction; try reflexivity.
  - cbn [written serialize]. do 3 f_equal. rewrite List.map_map.
    induction IH as [|x l Hx Hl IHl]; [reflexivity|].
    cbn [List.map]. now rewrite Hx, IHl.
  - cbn [written serialize]. do 3 f_equal.
    induction IH as [|[k x] l Hx Hl IHl]; [reflexivity|].
    cbn [defined_members members_with snd] in *.
    destruct (is_undefined x) eqn:E; [exact IHl|].
    cbn [members_with]. now rewrite written_defined, Hx, IHl.
Qed.

End TextFacts.

(** ** Share-state codec: round trip *)

(** Encoding a value that is not [undefined] succeeds, and decoding the
    token yields the value as [JSON.stringify] wrote it. *)
Lemma decode_encode (v : jsval) :
  is_undefined v = false ->
  json_ok (written v) = true ->
  exists token, encodeState v = Some token /\ decodeState token = Some (written v).
Proof.
  intros Hdef Hok.
  assert (Htext : JSON_stringify v = Some (serialize (written v)))
    by (rewrite serialize_written; destruct v; try reflexivity; discriminate).
  destruct (transport_round_trip (serialize (written v)) (wf16_serialize _ Hok))
    as (p & token & bytes & Hp & Hb & Ha & Hd).
  exists token. unfold encodeState, decodeState.
  rewrite Htext, Hp, Hb. split; [reflexivity|].
  now rewrite Ha, Hd, JSON_parse_serialize.
Qed.

Lemma Status_str_ok (st : Status) :
  units_ok (Status_str st) = true /\ Status_of_str (Status_str st) = Some st.
Proof. destruct st; split; reflexivity. Qed.

Lemma json_ok_object (l : list (jstring * jsval)) :
  Forall (fun kv => units_ok (fst kv) = true /\ json_ok (snd kv) = true) l ->
  distinct (List.map fst l) = true ->
  json_ok (JObj l) = true.
Proof.
  intros Hl Hd. cbn [json_ok]. rewrite Hd, andb_true_r. clear Hd.
  induction Hl as [|kv l [H1 H2] Hl IH]; [reflexivity|].
  cbn [forallb]. rewrite H1, H2, IH. reflexivity.
Qed.

Ltac members_ok tac :=
  first [ apply List.Forall_nil
        | apply List.Forall_cons;
          [ split; [vm_compute; reflexivity | cbn [snd]; tac]
          | members_ok tac ] ].

Ltac object_ok tac :=
  apply json_ok_object; [members_ok tac | vm_compute; reflexivity].

Lemma Task_written_ok (t : Task) :
  Task_ok t = true -> json_ok (written (Task_toJS t)) = true.
Proof.
  unfold Task_ok. rewrite !andb_true_iff.
  intros (((((((H1 & H2) & H3) & H4) & H5) & H6) & H7) & H8).
  destruct t as [i ti ca a st d sl le se cr up]; cbn [id title category assignee
    status details sla reminderLeadMinutes reminderSent createdAt updatedAt] in *.
  destruct (Status_str_ok st) as [Hst _].
  destruct d, sl, le, se; cbn [opt_units_ok] in *;
    cbn [Task_toJS written defined_members optional is_undefined id title category
         assignee status details sla reminderLeadMinutes reminderSent createdAt
         updatedAt];
    object_ok ltac:(first [assumption | reflexivity]).
Qed.

Lemma Task_read_back (t : Task) : Task_ofJS (written (Task_toJS t)) = Some t.
Proof.
  destruct t as [i ti ca a st d sl le se cr up].
  destruct st, d, sl, le, se; vm_compute; reflexivity.
Qed.

Lemma Tasks_read_back (l : list Task) :
  Tasks_ofJS_list (List.map written (List.map Task_toJS l)) = Some l.
Proof.
  induction l as [|t l IH]; [reflexivity|].
  cbn [List.map Tasks_ofJS_list]. rewrite Task_read_back, IH. reflexivity.
Qed.

Lemma Tasks_written_ok (l : list Task) :
  forallb Task_ok l = true ->
  forallb json_ok (List.map written (List.map Task_toJS l)) = true.
Proof.
  induction l as [|t l IH]; cbn [forallb List.map]; intros H; [reflexivity|].
  apply andb_true_iff in H as [H1 H2].
  now rewrite Task_written_ok, IH.
Qed.

Lemma Snapshot_written (s : Snapshot) :
  written (Snapshot_toJS s)
  = JObj [ (lit "tasks", JArr (List.map written (List.map Task_toJS (snap_tasks s))));
           (lit "settings", written (Settings_toJS (snap_settings s))) ].
Proof. destruct s as [l [[k|]]]; reflexivity. Qed.

Lemma Snapshot_read (x y : jsval) :
  Snapshot_ofJS (JObj [(lit "tasks", x); (lit "settings", y)])
  = match Tasks_ofJS x, Settings_ofJS y with
    | Some ts, Some se => Some (mkSnapshot ts se)
    | _, _ => None
    end.
Proof.
  unfold Snapshot_ofJS.
  change (prop (lit "tasks") (JObj [(lit "tasks", x); (lit "settings", y)])) with x.
  change (prop (lit "settings") (JObj [(lit "tasks", x); (lit "settings", y)])) with y.
  destruct (Tasks_ofJS x), (Settings_ofJS y); reflexivity.
Qed.

(** C5. For every snapshot of tasks and settings (any number of tasks, each
    optional field present or absent, kickoff present or absent, strings of
    16-bit code units) encoding succeeds, decoding the token succeeds, the
    decoded object is the snapshot object as [JSON.stringify] wrote it, and
    read as a snapshot it is the snapshot that was encoded. *)
Theorem share_state_round_trip (s : Snapshot) :
  Snapshot_ok s = true ->
  exists token v,
    encodeState (Snapshot_toJS s) = Some token
    /\ decodeState token = Some v
    /\ v = written (Snapshot_toJS s)
    /\ Snapshot_ofJS v = Some s.
Proof.
  unfold Snapshot_ok. intros H. apply andb_true_iff in H as [Ht Hk].
  assert (Hok : json_ok (written (Snapshot_toJS s)) = true).
  { rewrite Snapshot_written. destruct s as [l [k]].
    cbn [snap_tasks snap_settings kickoffISO] in *.
    pose proof (Tasks_written_ok l Ht) as Hl.
    destruct k as [k|]; cbn [opt_units_ok] in Hk;
      cbn [Settings_toJS written defined_members optional is_undefined kickoffISO];
      object_ok ltac:(first [ exact Hl
                            | object_ok ltac:(first [assumption | reflexivity]) ]). }
  destruct (decode_encode (Snapshot_toJS s) eq_refl Hok) as (token & He & Hd).
  exists token, (written (Snapshot_toJS s)).
  split; [exact He|]. split; [exact Hd|]. split; [reflexivity|].
  rewrite Snapshot_written, Snapshot_read. destruct s as [l [k]].
  cbn [snap_tasks snap_settings Tasks_ofJS]. rewrite Tasks_read_back.
  destruct k; reflexivity.
Qed.

(** The round trip of [someSnapshot]. *)
Lemma share_state_round_trip_witness :
  exists token v,
    encodeState (Snapshot_toJS someSnapshot) = Some token
    /\ decodeState token = Some v
    /\ v = written (Snapshot_toJS someSnapshot)
    /\ Snapshot_ofJS v = Some someSnapshot.
Proof. exact (share_state_round_trip someSnapshot eq_refl). Defined.

Example round_trip_empty :
  round_trip (mkSnapshot [] (mkSettings None)) = Some (mkSnapshot [] (mkSettings None)).
Proof. vm_compute. reflexivity. Qed.

Example round_trip_bare :
  round_trip (mkSnapshot [bareTask] (mkSettings None))
  = Some (mkSnapshot [bareTask] (mkSettings None)).
Proof. vm_compute. reflexivity. Qed.

Example round_trip_full : round_trip someSnapshot = Some someSnapshot.
Proof. vm_compute. reflexivity. Qed.

Example encodeState_empty :
  encodeState (Snapshot_toJS (mkSnapshot [] (mkSettings None)))
  = Some (lit "eyJ0YXNrcyI6W10sInNldHRpbmdzIjp7fX0=").
Proof. vm_compute. reflexivity. Qed.

(** * Further properties of the code *)

(** ** Countdown *)

(** X2. The countdown shows four parts exactly when the kickoff string is
    not empty and reads as a time other than 0; the parts are then the
    whole seconds left, [max(0, target - now) / 1000], split into days,
    hours below 24, minutes below 60 and seconds below 60, and they are
    all 0 once the kickoff has passed.  A kickoff that reads as 0 or as no
    date shows no parts, like an absent one. *)
Theorem countdown_parts (getTime : jstring -> jsnum)
        (kickoff : option jstring) (now : Z) :
  match countdownParts getTime kickoff now with
  | Some p =>
      exists s t,
        truthy kickoff = Some s /\ getTime s = Num t /\ t <> 0
        /\ days p * 86400 + hours p * 3600 + minutes p * 60 + seconds p
           = Z.max 0 (t - now) / 1000
        /\ 0 <= days p /\ 0 <= hours p < 24
        /\ 0 <= minutes p < 60 /\ 0 <= seconds p < 60
        /\ (t <= now -> p = mkParts 0 0 0 0)
  | None =>
      truthy kickoff = None
      \/ exists s, truthy kickoff = Some s
                   /\ (getTime s = NaN \/ getTime s = Num 0)
  end.
Proof.
  unfold countdownParts, countdownDiff, countdownTarget.
  destruct (truthy kickoff) as [s|] eqn:Hk; cbn; [|now left].
  destruct (getTime s) as [t|] eqn:Ht; [|right; eauto].
  destruct (Z.eqb_spec t 0) as [->|Hne]; [right; eauto|].
  exists s, t. cbn.
  repeat split; try easy;
    try (zify; Z.to_euclidean_division_equations; lia).
  intros Hle. replace (Z.max 0 (t - now)) with 0 by lia. reflexivity.
Qed.

(** ** Remote rows *)

Lemma row_trip (stamp : jstring) (t : Task) :
  dbToTask stamp (taskToDb t) = stored t.
Proof. destruct t as [i [|c1 r1] [|c2 r2] a st d sl le se cr up]; reflexivity. Qed.

(** X3. A task written to a remote row and read back is the same task
    except that empty notes and an empty deadline are dropped and an
    absent reminder flag reads false; its due state and whether it fires
    are unchanged, a second trip changes nothing more, and a task that has
    neither of the three comes back as it was. *)
Theorem task_row_round_trip (stamp : jstring) (t : Task) :
  dbToTask stamp (taskToDb t) = stored t
  /\ (forall getTime now, dueState getTime now (stored t) = dueState getTime now t)
  /\ (forall getTime now, fires getTime now (stored t) = fires getTime now t)
  /\ stored (stored t) = stored t
  /\ taskToDb (stored t) = taskToDb t
  /\ (details t <> Some [] -> sla t <> Some [] -> reminderSent t <> None ->
      stored t = t).
Proof.
  assert (Htt : forall o, truthy (truthy o) = truthy o)
    by (intros [[|c r]|]; reflexivity).
  repeat split.
  - apply row_trip.
  - intros getTime now. unfold dueState, stored; cbn. now rewrite Htt.
  - intros getTime now. unfold fires, stored, fireAt, sent; cbn. now rewrite Htt.
  - unfold stored, sent; cbn. now rewrite !Htt.
  - unfold stored, taskToDb, sent; cbn. now rewrite !Htt.
  - intros Hd Hs Hr. destruct t as [i ti ca a st d sl le se cr up]; cbn in *.
    destruct se as [b|]; [|now elim Hr].
    destruct d as [[|c r]|]; try (now elim Hd);
      destruct sl as [[|c' r']|]; try (now elim Hs); reflexivity.
Qed.

(** ** Cache keys *)

(** X4. The cache keys of two trips never coincide, neither for the same
    kind of data nor across kinds, and none of them is a key of the
    stored credentials: trips share nothing in the cache. *)
Theorem cache_keys_are_scoped (s1 s2 : jstring) :
  (tasksKey s1 = tasksKey s2 -> s1 = s2)
  /\ (settingsKey s1 = settingsKey s2 -> s1 = s2)
  /\ (peopleKey s1 = peopleKey s2 -> s1 = s2)
  /\ tasksKey s1 <> settingsKey s2
  /\ tasksKey s1 <> peopleKey s2
  /\ settingsKey s1 <> peopleKey s2
  /\ (forall k, In k [tasksKey s1; settingsKey s1; peopleKey s1] ->
                k <> supabaseUrlKey /\ k <> supabaseKeyKey).
Proof.
  unfold tasksKey, settingsKey, peopleKey, supabaseUrlKey, supabaseKeyKey.
  do 6 (split; [intros H; vm_compute in H; congruence|]).
  intros k Hk. cbn in Hk.
  destruct Hk as [<-|[<-|[<-|[]]]]; split; intros H; vm_compute in H; congruence.
Qed.

(** ** Handlers of the engine *)

Section HandlerFacts.

Variable tripSlug : jstring.
Variable getTime : jstring -> jsnum.
Variable formatDateTime : jstring -> jstring.

Abbreviation step1 := (step tripSlug getTime formatDateTime).
Abbreviation run1 := (run tripSlug getTime formatDateTime).

Lemma setTasks_tasks (upd : list Task -> option (list Task)) (a : App) :
  tasks (setTasks tripSlug upd a) = nullish (upd (tasks a)) (tasks a).
Proof. unfold setTasks. now destruct (upd (tasks a)). Qed.

Lemma setTasks_conn (upd : list Task -> option (list Task)) (a : App) :
  client (setTasks tripSlug upd a) = client a
  /\ connected (setTasks tripSlug upd a) = connected a
  /\ error (setTasks tripSlug upd a) = error a.
Proof. unfold setTasks. now destruct (upd (tasks a)). Qed.

Lemma step_conn (act : Action) (a : App) :
  client (fst (step1 act a)) = client a
  /\ connected (fst (step1 act a)) = connected a
  /\ error (fst (step1 act a)) = error a.
Proof.
  destruct act; cbn [step fst]; try apply setTasks_conn; try easy.
  - destruct (online a); try apply setTasks_conn; easy.
  - destruct (tick _ _ _ _ _) as [evs l]. apply setTasks_conn.
  - destruct (online a); [|easy].
    destruct outcome as [data [e|]|e]; easy.
Qed.

Lemma step_online (act : Action) (a : App) :
  online (fst (step1 act a)) = online a.
Proof.
  unfold online. destruct (step_conn act a) as (-> & -> & _). reflexivity.
Qed.

Lemma ids_replace (new : Task) (i : jstring) (l : list Task) :
  id new = i ->
  ids (List.map (fun x => if str_eqb (id x) i then new else x) l) = ids l.
Proof.
  intros Hn. unfold ids. rewrite List.map_map. apply List.map_ext. intros x.
  destruct (str_eqb (id x) i) eqn:E; [|reflexivity].
  apply str_eqb_eq in E. congruence.
Qed.

Lemma ids_tick (now : Z) (stamp : jstring) (l : list Task) :
  ids (snd (tick getTime formatDateTime now stamp l)) = ids l.
Proof.
  unfold tick. rewrite tick_loop_spec, fold_onFlag. cbn [snd].
  unfold ids. rewrite List.map_map. apply List.map_ext. intros x.
  now destruct (existsb _ _).
Qed.

(** Replacing the entries of an identifier twice is replacing them by the
    second value. *)
Lemma replace_twice (old new : Task) (i : jstring) (l : list Task) :
  id old = i ->
  List.map (fun x => if str_eqb (id x) i then new else x)
           (List.map (fun x => if str_eqb (id x) i then old else x) l)
  = List.map (fun x => if str_eqb (id x) i then new else x) l.
Proof.
  intros Ho. rewrite List.map_map. apply List.map_ext. intros x.
  destruct (str_eqb (id x) i) eqn:E; [|now rewrite E].
  subst i. now rewrite str_eqb_refl.
Qed.

Lemma run_snoc (acts : list Action) (act : Action) (a : App) :
  run1 (acts ++ [act]) a
  = (fst (step1 act (fst (run1 acts a))),
     snd (run1 acts a) ++ snd (step1 act (fst (run1 acts a)))).
Proof.
  revert a. induction acts as [|x acts IH]; intros a; cbn [app run fst snd].
  - destruct (step1 act a) as [a1 c1]. cbn. now rewrite List.app_nil_r.
  - destruct (step1 x a) as [a1 c1]. rewrite IH.
    destruct (run1 acts a1) as [a2 c2]. cbn [fst snd].
    destruct (step1 act a2) as [a3 c3]. cbn [fst snd]. now rewrite List.app_assoc.
Qed.

Lemma run_online (acts : list Action) (a : App) :
  online (fst (run1 acts a)) = online a.
Proof.
  revert a. induction acts as [|x acts IH]; intros a; cbn [run]; [reflexivity|].
  pose proof (step_online x a) as Hx.
  destruct (step1 x a) as [a1 c1]. specialize (IH a1).
  destruct (run1 acts a1) as [a2 c2]. cbn [fst] in *. congruence.
Qed.

Lemma run_cons_tasks (act : Action) (acts : list Action) (a : App) :
  fst (run1 (act :: acts) a) = fst (run1 acts (fst (step1 act a))).
Proof.
  cbn [run]. destruct (step1 act a) as [a1 c1]. cbn [fst].
  destruct (run1 acts a1) as [a2 c2]. reflexivity.
Qed.

(** The list after a tick. *)
Lemma tick_tasks (now : Z) (s : jstring) (a : App) :
  tasks (fst (step1 (ReminderTick now s) a))
  = List.map (fun y => if existsb (fun x => str_eqb (id y) (id x))
                                  (List.filter (fires getTime now) (tasks a))
                       then flagged s y else y) (tasks a).
Proof.
  cbn [step]. unfold tick. rewrite tick_loop_spec, fold_onFlag. cbn [fst].
  rewrite setTasks_tasks.
  destruct (List.filter (fires getTime now) (tasks a)) as [|x fired] eqn:E;
    cbn [List.map nullish]; [|reflexivity].
  cbn [existsb]. symmetry. apply List.map_id.
Qed.

Lemma ticks_ids (clock : list (Z * jstring)) (a : App) :
  ids (tasks (fst (run1 (ticks clock) a))) = ids (tasks a).
Proof.
  revert a. induction clock as [|[now s] clock IH]; intros a; [reflexivity|].
  cbn [ticks List.map fst snd]. fold (ticks clock).
  rewrite run_cons_tasks, IH, tick_tasks. unfold ids. rewrite List.map_map.
  apply List.map_ext. intros y. now destruct (existsb _ _).
Qed.

(** A task that does not fire keeps its entries through a tick, when they
    are the only entries with its identifier. *)
Lemma tick_keeps (now : Z) (s : jstring) (t : Task) (a : App) :
  fires getTime now t = false ->
  (forall x, In x (tasks a) -> id x = id t -> x = t) ->
  forall x, In x (tasks (fst (step1 (ReminderTick now s) a))) -> id x = id t -> x = t.
Proof.
  intros Hf Hinv x Hx Hid. rewrite tick_tasks in Hx.
  apply List.in_map_iff in Hx as (y & Hy & Hin).
  destruct (existsb _ _) eqn:E.
  - subst x. change (id (flagged s y)) with (id y) in Hid.
    apply List.existsb_exists in E as (z & Hz & Ez).
    apply List.filter_In in Hz as [Hz Hfz]. apply str_eqb_eq in Ez.
    rewrite (Hinv z Hz) in Hfz by congruence. congruence.
  - subst x. now apply Hinv.
Qed.

Lemma ticks_keep (clock : list (Z * jstring)) (t : Task) (a : App) :
  (forall c, In c clock -> fires getTime (fst c) t = false) ->
  (forall x, In x (tasks a) -> id x = id t -> x = t) ->
  forall x, In x (tasks (fst (run1 (ticks clock) a))) -> id x = id t -> x = t.
Proof.
  revert a. induction clock as [|[now s] clock IH]; intros a Hf Hinv; [exact Hinv|].
  cbn [ticks List.map fst snd]. fold (ticks clock). rewrite run_cons_tasks.
  apply IH; [intros c Hc; apply Hf; now right|].
  apply tick_keeps; [apply (Hf (now, s)); now left|exact Hinv].
Qed.

Lemma stored_fires (now : Z) (t : Task) :
  fires getTime now (stored t) = fires getTime now t.
Proof.
  unfold fires, stored, fireAt, sent; cbn.
  now destruct (sla t) as [[|c r]|].
Qed.

(** X5. In connected mode, with the reminder ticks that follow every
    change of the list run between a local write and the live event that
    echoes it: the event sends no remote call; the INSERT echo of an add
    and the DELETE echo of a delete leave the list as it is, with the added
    identifier in front, or no entry of the deleted one; the UPDATE echo of
    an update sets the entries of that identifier to the task as its row
    stores it.  When the task fired at none of the ticks these entries
    were the task itself, so the echo changes nothing but the form; when
    it fired at the tick, they were its flagged copy, and the echo puts
    the task back unflagged and due. *)
Theorem own_echo_is_absorbed (stamp : jstring) (t : Task) (other : option Row)
        (clock : list (Z * jstring)) (a : App) :
  online a = true ->
  (let before := run1 (AddTask t :: ticks clock) a in
   let after := run1 ((AddTask t :: ticks clock)
                      ++ [LiveEvent stamp (mkPayload INSERT (Some (taskToDb t)) other)]) a in
   tasks (fst after) = tasks (fst before) /\ snd after = snd before
   /\ ids (tasks (fst after)) = id t :: ids (tasks a))
  /\ (let before := run1 (DeleteTask (id t) :: ticks clock) a in
      let after := run1 ((DeleteTask (id t) :: ticks clock)
                         ++ [LiveEvent stamp (mkPayload DELETE other (Some (taskToDb t)))]) a in
      tasks (fst after) = tasks (fst before) /\ snd after = snd before
      /\ ~ In (id t) (ids (tasks (fst after))))
  /\ (let before := run1 (UpdateTask t :: ticks clock) a in
      let after := run1 ((UpdateTask t :: ticks clock)
                         ++ [LiveEvent stamp (mkPayload UPDATE (Some (taskToDb t)) other)]) a in
      tasks (fst after) = updateTask_upd (stored t) (tasks (fst before))
      /\ snd after = snd before
      /\ ((forall c, In c clock -> fires getTime (fst c) t = false) ->
          forall x, In x (tasks (fst before)) -> id x = id t -> x = t)
      /\ (forall now s, clock = [(now, s)] -> fires getTime now t = true ->
                        In (id t) (ids (tasks a)) ->
                        (forall x, In x (tasks (fst before)) -> id x = id t ->
                                   x = flagged s t)
                        /\ In (stored t) (tasks (fst after))
                        /\ fires getTime now (stored t) = true)).
Proof.
  intros Hon.
  assert (Hecho : forall acts p,
             let before := run1 acts a in
             let after := run1 (acts ++ [LiveEvent stamp p]) a in
             tasks (fst after)
             = nullish (liveUpdater stamp p (tasks (fst before))) (tasks (fst before))
             /\ snd after = snd before).
  { intros acts p. cbv zeta. rewrite run_snoc. cbn [fst snd step].
    rewrite run_online, Hon, setTasks_tasks, List.app_nil_r. auto. }
  assert (Hids : forall act,
             ids (tasks (fst (run1 (act :: ticks clock) a)))
             = ids (tasks (fst (step1 act a))))
    by (intros act; now rewrite run_cons_tasks, ticks_ids).
  split; [|split]; cbv zeta.
  - destruct (Hecho (AddTask t :: ticks clock)
                    (mkPayload INSERT (Some (taskToDb t)) other)) as [E1 E2].
    rewrite E1, E2. cbn [liveUpdater eventType p_new taskToDb r_id].
    assert (Hi : ids (tasks (fst (run1 (AddTask t :: ticks clock) a)))
                 = id t :: ids (tasks a))
      by (rewrite Hids; cbn [step fst]; now rewrite setTasks_tasks).
    assert (Hex : existsb (fun x => str_eqb (id x) (id t))
                          (tasks (fst (run1 (AddTask t :: ticks clock) a))) = true)
      by (apply existsb_id_In; unfold ids in Hi; rewrite Hi; now left).
    rewrite Hex. cbn [nullish]. auto.
  - destruct (Hecho (DeleteTask (id t) :: ticks clock)
                    (mkPayload DELETE other (Some (taskToDb t)))) as [E1 E2].
    rewrite E1, E2. cbn [liveUpdater eventType p_new p_old taskToDb r_id nullish].
    assert (Hi : ~ In (id t) (ids (tasks (fst (run1 (DeleteTask (id t) :: ticks clock) a))))).
    { rewrite Hids. cbn [step fst]. rewrite setTasks_tasks. cbn [nullish].
      unfold ids, deleteTask_upd. intros H. apply List.in_map_iff in H as (x & Hx & Hin).
      apply List.filter_In in Hin as [_ Hin]. apply negb_true_iff, str_eqb_neq in Hin.
      congruence. }
    rewrite filter_remove_absent by exact Hi. auto.
  - destruct (Hecho (UpdateTask t :: ticks clock)
                    (mkPayload UPDATE (Some (taskToDb t)) other)) as [E1 E2].
    rewrite E1, E2. cbn [liveUpdater eventType p_new nullish].
    change (r_id (taskToDb t)) with (id t). rewrite row_trip.
    split; [reflexivity|]. split; [reflexivity|].
    assert (Hupd : forall x, In x (tasks (fst (step1 (UpdateTask t) a))) ->
                             id x = id t -> x = t).
    { cbn [step fst]. rewrite setTasks_tasks. cbn [nullish].
      intros x Hx Hid. now apply (updateTask_upd_hit t (tasks a)). }
    split.
    + intros Hf. rewrite run_cons_tasks. now apply ticks_keep.
    + intros now s -> Hf Hin.
      assert (Hbefore : forall x,
                 In x (tasks (fst (run1 (UpdateTask t :: ticks [(now, s)]) a))) ->
                 id x = id t -> x = flagged s t).
      { rewrite run_cons_tasks. cbn [ticks List.map fst snd].
        rewrite (run_cons_tasks _ []). cbn [run fst]. rewrite tick_tasks.
        intros x Hx Hid. apply List.in_map_iff in Hx as (y & Hy & Hyin).
        assert (Hyid : id y = id t) by (subst x; now destruct (existsb _ _)).
        pose proof (Hupd y Hyin Hyid) as ->.
        assert (E : existsb (fun x0 => str_eqb (id t) (id x0))
                            (List.filter (fires getTime now)
                                         (tasks (fst (step1 (UpdateTask t) a)))) = true).
        { apply List.existsb_exists. exists t. split; [|apply str_eqb_refl].
          apply List.filter_In. split; [|exact Hf].
          cbn [step fst]. rewrite setTasks_tasks. cbn [nullish].
          unfold ids in Hin. apply List.in_map_iff in Hin as (z & Hz & Hzin).
          now apply (updateTask_upd_present t (tasks a) z). }
        rewrite E in Hy. now subst x. }
      split; [exact Hbefore|]. split; [|now rewrite stored_fires].
      unfold updateTask_upd. apply List.in_map_iff.
      assert (Hex : exists y, In y (tasks (fst (run1 (UpdateTask t :: ticks [(now, s)]) a)))
                              /\ id y = id t).
      { assert (Hi : In (id t) (ids (tasks (fst (run1 (UpdateTask t :: ticks [(now, s)]) a))))).
        { rewrite Hids. cbn [step fst]. rewrite setTasks_tasks. cbn [nullish].
          unfold updateTask_upd. now rewrite ids_replace. }
        unfold ids in Hi. apply List.in_map_iff in Hi as (y & Hy & Hyin). eauto. }
      destruct Hex as (y & Hy & Hyid). exists y. split; [|exact Hy].
      change (id (stored t)) with (id t). rewrite Hyid. now rewrite str_eqb_refl.
Qed.

(** X6. In connected mode a live UPDATE that arrives after a local update
    of the same task leaves nothing of the local value: the list is what
    the event alone would have made of the list before the local
    update. *)
Theorem remote_update_overrides_local (stamp : jstring) (next : Task) (r : Row)
        (other : option Row) (a : App) :
  online a = true ->
  r_id r = id next ->
  tasks (fst (run1 [UpdateTask next; LiveEvent stamp (mkPayload UPDATE (Some r) other)] a))
  = tasks (fst (step1 (LiveEvent stamp (mkPayload UPDATE (Some r) other)) a)).
Proof.
  intros Hon Hid. cbn [run].
  destruct (step1 (UpdateTask next) a) as [a1 c1] eqn:E1.
  assert (Ho : online a1 = true)
    by (change a1 with (fst (a1, c1)); rewrite <- E1, step_online; exact Hon).
  assert (Ht : tasks a1 = updateTask_upd next (tasks a))
    by (change a1 with (fst (a1, c1)); rewrite <- E1; cbn [step fst];
        now rewrite setTasks_tasks).
  cbn [step]. rewrite Ho, Hon. cbn [fst].
  rewrite !setTasks_tasks, Ht. cbn [liveUpdater eventType p_new nullish].
  unfold updateTask_upd. rewrite Hid. now apply replace_twice.
Qed.

(** X7. Identifiers stay unique: when no two tasks of the canonical list
    share an identifier, the same holds after every handler, provided an
    added task brings an identifier the list does not hold and an
    imported, fetched or seeded list has none twice.  Edits, deletions,
    live events and reminder ticks need no condition. *)
Theorem identifiers_stay_unique (act : Action) (a : App) :
  List.NoDup (ids (tasks a)) ->
  brings_fresh_ids (tasks a) act ->
  List.NoDup (ids (tasks (fst (step1 act a)))).
Proof.
  intros Hnd Hact.
  assert (Hlive : forall stamp p,
             List.NoDup (ids (nullish (liveUpdater stamp p (tasks a)) (tasks a)))).
  { intros stamp [[| |] [r|] [o|]]; cbn [liveUpdater eventType p_new p_old nullish];
      try exact Hnd.
    1,2: destruct (existsb _ _) eqn:E; cbn [nullish]; [exact Hnd|];
      cbn; constructor; [|exact Hnd];
      intros Hin; apply existsb_id_In in Hin; congruence.
    1,2: now rewrite ids_replace.
    1,2: now apply NoDup_map_filter. }
  destruct act; cbn [step fst brings_fresh_ids] in *.
  - rewrite setTasks_tasks. cbn. now constructor.
  - rewrite setTasks_tasks. cbn [nullish]. unfold updateTask_upd.
    now rewrite ids_replace.
  - rewrite setTasks_tasks. now apply NoDup_map_filter.
  - destruct (online a); [|exact Hnd]. rewrite setTasks_tasks. apply Hlive.
  - pose proof (ids_tick now stamp (tasks a)) as Hids.
    destruct (tick _ _ _ _ _) as [evs l]. cbn [fst snd] in *.
    rewrite setTasks_tasks. destruct evs; cbn [nullish]; [exact Hnd|].
    now rewrite Hids.
  - now rewrite setTasks_tasks.
  - exact Hnd.
  - destruct (online a); [|exact Hnd].
    destruct outcome as [data [e|]|e]; cbn [fst]; try exact Hnd.
    rewrite setTasks_tasks. cbn [nullish]. unfold ids.
    rewrite List.map_map. exact Hact.
  - now rewrite setTasks_tasks.
  - exact Hnd.
Qed.

(** X8. The local handlers do not check that the identifier is in the
    list: an update or a delete of an identifier the list does not hold
    leaves the list as it is, and in connected mode the upsert, or the
    delete, is sent to the remote store all the same. *)
Theorem unknown_id_still_reaches_remote (next : Task) (a : App) :
  ~ In (id next) (ids (tasks a)) ->
  online a = true ->
  tasks (fst (step1 (UpdateTask next) a)) = tasks a
  /\ snd (step1 (UpdateTask next) a) = [UpsertTask (taskToDb next)]
  /\ tasks (fst (step1 (DeleteTask (id next)) a)) = tasks a
  /\ snd (step1 (DeleteTask (id next)) a) = [DeleteRow (id next)].
Proof.
  intros Hin Hon. cbn [step fst snd]. unfold remote. rewrite Hon.
  rewrite !setTasks_tasks. cbn [nullish].
  repeat split.
  - now apply map_replace_absent.
  - now apply filter_remove_absent.
Qed.

(** X9. Local mode is silent: from a state that is not connected no
    sequence of handlers sends a remote call, connects, or records an
    error, and live events and fetched rows leave the list alone. *)
Theorem local_mode_is_silent (a : App) (acts : list Action) :
  online a = false ->
  snd (run1 acts a) = []
  /\ online (fst (run1 acts a)) = false
  /\ error (fst (run1 acts a)) = error a
  /\ (forall stamp p, fst (step1 (LiveEvent stamp p) a) = a)
  /\ (forall stamp outcome, fst (step1 (CloudTasks stamp outcome) a) = a).
Proof.
  intros Hoff.
  assert (Hstep : forall act b, online b = false -> snd (step1 act b) = []).
  { intros act b Hb. destruct act; cbn [step snd]; unfold remote;
      rewrite ?Hb; try reflexivity.
    destruct (tick _ _ _ _ _) as [evs l]. cbn [snd]. unfold remote. now rewrite ?Hb. }
  split; [|split; [|split; [|split]]].
  - revert a Hoff. induction acts as [|act rest IH]; intros a Hoff; [reflexivity|].
    cbn [run]. pose proof (Hstep act a Hoff) as Hs.
    pose proof (step_online act a) as Ho.
    destruct (step1 act a) as [a1 c1]. cbn [fst snd] in *.
    specialize (IH a1). destruct (run1 rest a1) as [a2 c2]. cbn [fst snd] in *.
    subst c1. cbn. apply IH. congruence.
  - revert a Hoff. induction acts as [|act rest IH]; intros a Hoff; [exact Hoff|].
    cbn [run]. pose proof (step_online act a) as Ho.
    destruct (step1 act a) as [a1 c1]. cbn [fst snd] in *.
    specialize (IH a1). destruct (run1 rest a1) as [a2 c2]. cbn [fst snd] in *.
    apply IH. congruence.
  - clear Hoff. revert a. induction acts as [|act rest IH]; intros a; [reflexivity|].
    cbn [run]. destruct (step_conn act a) as (_ & _ & He).
    destruct (step1 act a) as [a1 c1]. cbn [fst snd] in *.
    specialize (IH a1). destruct (run1 rest a1) as [a2 c2]. cbn [fst snd] in *.
    congruence.
  - intros stamp p. cbn [step fst]. now rewrite Hoff.
  - intros stamp outcome. cbn [step]. now rewrite Hoff.
Qed.

(** X10. A live UPDATE can re-arm a reminder: when a task has been
    reminded and flagged by a tick and a live UPDATE then delivers a row
    for it that is unflagged and due, the next tick reminds for it once
    more, although nobody edited its deadline or lead here. *)
Theorem stale_update_reminds_again (now1 now2 : Z) (stamp1 stamp2 stamp : jstring)
        (t : Task) (r : Row) (other : option Row) (a : App) :
  List.NoDup (ids (tasks a)) ->
  online a = true ->
  In t (tasks a) ->
  fires getTime now1 t = true ->
  r_id r = id t ->
  fires getTime now2 (dbToTask stamp r) = true ->
  let a1 := fst (step1 (ReminderTick now1 stamp1) a) in
  let a2 := fst (step1 (LiveEvent stamp (mkPayload UPDATE (Some r) other)) a1) in
  reminds_for (id t) (fst (tick getTime formatDateTime now1 stamp1 (tasks a))) = 1%nat
  /\ lookup_task (id t) (tasks a1) = Some (flagged stamp1 t)
  /\ reminds_for (id t) (fst (tick getTime formatDateTime now2 stamp2 (tasks a2))) = 1%nat.
Proof.
  intros Hnd Hon Hin Hf1 Hid Hf2 a1 a2.
  assert (Ht1 : tasks a1 = List.map (fun y => if fires getTime now1 y
                                               then flagged stamp1 y else y) (tasks a)).
  { subst a1. cbn [step]. rewrite (tick_spec _ _ _ _ _ Hnd). cbn [fst].
    rewrite setTasks_tasks.
    destruct (List.map _ (List.filter _ _)) eqn:E; [|reflexivity].
    exfalso. apply List.map_eq_nil in E.
    assert (Hx : In t (List.filter (fires getTime now1) (tasks a)))
      by (apply List.filter_In; split; assumption).
    rewrite E in Hx. destruct Hx. }
  assert (Hids1 : ids (tasks a1) = ids (tasks a)).
  { rewrite Ht1. unfold ids. rewrite List.map_map. apply List.map_ext.
    intros y. now destruct (fires _ _ y). }
  assert (Ho1 : online a1 = true) by (subst a1; now rewrite step_online).
  assert (Ht2 : tasks a2 = List.map (fun x => if str_eqb (id x) (id t)
                                               then dbToTask stamp r else x) (tasks a1)).
  { subst a2. cbn [step]. rewrite Ho1. cbn [fst]. rewrite setTasks_tasks.
    cbn [liveUpdater eventType p_new nullish]. now rewrite Hid. }
  assert (Hnd2 : List.NoDup (ids (tasks a2))).
  { rewrite Ht2, ids_replace by (cbn; congruence). now rewrite Hids1. }
  split; [|split].
  - rewrite (tick_spec _ _ _ _ _ Hnd). cbn [fst]. unfold ids in Hnd.
    rewrite (reminds_for_tick _ _ _ _ _ Hnd), (lookup_task_In _ _ Hnd Hin).
    now rewrite Hf1.
  - rewrite Ht1.
    assert (Hin1 : In (flagged stamp1 t)
                      (List.map (fun y => if fires getTime now1 y
                                          then flagged stamp1 y else y) (tasks a))).
    { apply List.in_map_iff. exists t. now rewrite Hf1. }
    rewrite <- Ht1 in *. rewrite <- Hids1 in Hnd.
    exact (lookup_task_In _ _ Hnd Hin1).
  - unfold ids in Hnd2.
    rewrite (tick_spec _ _ _ _ _ Hnd2). cbn [fst].
    rewrite (reminds_for_tick _ _ _ _ _ Hnd2).
    assert (Hin2 : In (dbToTask stamp r) (tasks a2)).
    { rewrite Ht2, Ht1. apply List.in_map_iff. exists (flagged stamp1 t). split.
      - change (id (flagged stamp1 t)) with (id t). now rewrite str_eqb_refl.
      - apply List.in_map_iff. exists t. now rewrite Hf1. }
    pose proof (lookup_task_In _ _ Hnd2 Hin2) as Hl.
    change (id (dbToTask stamp r)) with (r_id r) in Hl. rewrite Hid in Hl.
    now rewrite Hl, Hf2.
Qed.

End HandlerFacts.

(** [dueTask] is updated at its threshold on a connected page that holds
    it: the tick flags it, and the echo of the update puts it back
    unflagged. *)
Lemma own_echo_is_absorbed_witness :
  In (stored dueTask)
     (tasks (fst (run (lit "goldcoast-2025") isoTime (fun x => x)
                      ((UpdateTask dueTask
                        :: ticks [(1735686000000, lit "2024-12-31T23:00:00.000Z")])
                       ++ [LiveEvent (lit "2024-12-31T23:00:01.000Z")
                                     (mkPayload UPDATE (Some (taskToDb dueTask)) None)])
                      (connectedApp [doneTask; dueTask])))).
Proof.
  pose proof (own_echo_is_absorbed
                (lit "goldcoast-2025") isoTime (fun x => x)
                (lit "2024-12-31T23:00:01.000Z") dueTask None
                [(1735686000000, lit "2024-12-31T23:00:00.000Z")]
                (connectedApp [doneTask; dueTask]) eq_refl) as H.
  destruct H as (_ & _ & _ & _ & _ & H).
  destruct (H 1735686000000 (lit "2024-12-31T23:00:00.000Z") eq_refl) as (_ & H1 & _).
  - vm_compute. reflexivity.
  - right. left. reflexivity.
  - exact H1.
Defined.

Lemma remote_update_overrides_local_witness :
  tasks (fst (run (lit "goldcoast-2025") isoTime (fun x => x)
                  [UpdateTask (set_updatedAt (lit "2024-12-03T00:00:00.000Z") dueTask);
                   LiveEvent (lit "2024-12-02T00:00:00.000Z")
                             (mkPayload UPDATE (Some (taskToDb (set_reminderSent true dueTask)))
                                        None)]
                  (connectedApp [dueTask])))
  = tasks (fst (step (lit "goldcoast-2025") isoTime (fun x => x)
                     (LiveEvent (lit "2024-12-02T00:00:00.000Z")
                                (mkPayload UPDATE
                                           (Some (taskToDb (set_reminderSent true dueTask)))
                                           None))
                     (connectedApp [dueTask]))).
Proof.
  exact (remote_update_overrides_local
           (lit "goldcoast-2025") isoTime (fun x => x)
           (lit "2024-12-02T00:00:00.000Z")
           (set_updatedAt (lit "2024-12-03T00:00:00.000Z") dueTask)
           (taskToDb (set_reminderSent true dueTask)) None
           (connectedApp [dueTask]) eq_refl eq_refl).
Defined.

Lemma sample_ids_unique : List.NoDup (ids [doneTask; dueTask]).
Proof.
  repeat constructor; cbn; intros H; repeat destruct H as [H|H]; try discriminate H;
    exact H.
Defined.

Lemma identifiers_stay_unique_witness :
  List.NoDup (ids (tasks (fst (step (lit "goldcoast-2025") isoTime (fun x => x)
                                    (DeleteTask (lit "k3f9"))
                                    (connectedApp [doneTask; dueTask]))))).
Proof.
  exact (identifiers_stay_unique (lit "goldcoast-2025") isoTime (fun x => x)
           (DeleteTask (lit "k3f9")) (connectedApp [doneTask; dueTask])
           sample_ids_unique I).
Defined.

Lemma unknown_id_still_reaches_remote_witness :
  tasks (fst (step (lit "goldcoast-2025") isoTime (fun x => x) (UpdateTask dueTask)
                   (connectedApp [doneTask])))
  = [doneTask]
  /\ snd (step (lit "goldcoast-2025") isoTime (fun x => x) (UpdateTask dueTask)
               (connectedApp [doneTask]))
     = [UpsertTask (taskToDb dueTask)].
Proof.
  pose proof (unknown_id_still_reaches_remote
                (lit "goldcoast-2025") isoTime (fun x => x) dueTask
                (connectedApp [doneTask])) as H.
  destruct H as (H1 & H2 & _).
  - cbn. intros [H|[]]. discriminate H.
  - reflexivity.
  - split; [exact H1|exact H2].
Defined.

Lemma local_mode_is_silent_witness :
  snd (run (lit "goldcoast-2025") isoTime (fun x => x)
           [AddTask doneTask; ReminderTick 1735686000000 (lit "2024-12-31T23:00:00.000Z");
            DeleteTask (lit "k3f9")]
           (mount (lit "goldcoast-2025") ∅ [dueTask]))
  = [].
Proof.
  exact (proj1 (local_mode_is_silent
                  (lit "goldcoast-2025") isoTime (fun x => x)
                  (mount (lit "goldcoast-2025") ∅ [dueTask])
                  [AddTask doneTask;
                   ReminderTick 1735686000000 (lit "2024-12-31T23:00:00.000Z");
                   DeleteTask (lit "k3f9")] eq_refl)).
Defined.

(** [dueTask] is reminded at its threshold; the row another page wrote
    before that arrives afterwards; half a minute later it is reminded
    again. *)
Lemma stale_update_reminds_again_witness :
  reminds_for (lit "m81q")
    (fst (tick isoTime (fun x => x) 1735686030000 (lit "2024-12-31T23:00:30.000Z")
            (tasks (fst (step (lit "goldcoast-2025") isoTime (fun x => x)
                              (LiveEvent (lit "2024-12-31T23:00:10.000Z")
                                         (mkPayload UPDATE (Some (taskToDb dueTask)) None))
                              (fst (step (lit "goldcoast-2025") isoTime (fun x => x)
                                         (ReminderTick 1735686000000
                                                       (lit "2024-12-31T23:00:00.000Z"))
                                         (connectedApp [doneTask; dueTask]))))))))
  = 1%nat.
Proof.
  pose proof (stale_update_reminds_again
                (lit "goldcoast-2025") isoTime (fun x => x)
                1735686000000 1735686030000
                (lit "2024-12-31T23:00:00.000Z") (lit "2024-12-31T23:00:30.000Z")
                (lit "2024-12-31T23:00:10.000Z")
                dueTask (taskToDb dueTask) None
                (connectedApp [doneTask; dueTask])) as H.
  destruct H as (_ & _ & H).
  - exact sample_ids_unique.
  - reflexivity.
  - right. left. reflexivity.
  - vm_compute. reflexivity.
  - reflexivity.
  - vm_compute. reflexivity.
  - exact H.
Defined.

Lemma reminder_tick_upserts_witness :
  snd (step (lit "goldcoast-2025") isoTime (fun x => x)
            (ReminderTick 1735686000000 (lit "2024-12-31T23:00:00.000Z"))
            (connectedApp [doneTask; dueTask]))
  = [UpsertTask (taskToDb (flagged (lit "2024-12-31T23:00:00.000Z") dueTask))].
Proof.
  exact (reminder_tick_upserts (lit "goldcoast-2025") isoTime (fun x => x)
           1735686000000 (lit "2024-12-31T23:00:00.000Z")
           (connectedApp [doneTask; dueTask]) sample_ids_unique eq_refl).
Defined.

(** ** The cache as text *)

Lemma serialize_nonempty (v : jsval) :
  json_ok v = true -> exists c tl, serialize v = c :: tl.
Proof.
  intros H. destruct (serialize_head v H) as (c & tl & -> & _). eauto.
Qed.

Lemma ls_read_write (k : jstring) (v fallback : jsval) (st : gmap jstring jstring) :
  is_undefined v = false ->
  json_ok (written v) = true ->
  ls_read (ls_write k v st) k fallback = written v.
Proof.
  intros Hdef Hok. unfold ls_read, ls_write.
  rewrite lookup_insert_eq.
  assert (Htext : JSON_stringify v = Some (serialize (written v)))
    by (rewrite serialize_written; destruct v; try reflexivity; discriminate).
  rewrite Htext.
  pose proof (JSON_parse_serialize _ Hok) as Hp.
  destruct (serialize_nonempty _ Hok) as (c & tl & E).
  rewrite E in *. now rewrite Hp.
Qed.

Lemma ls_read_other (k k' : jstring) (v fallback : jsval) (st : gmap jstring jstring) :
  k' <> k -> ls_read (ls_write k v st) k' fallback = ls_read st k' fallback.
Proof.
  intros Hk. unfold ls_read, ls_write. now rewrite lookup_insert_ne by congruence.
Qed.


(** X12. The task list the persist effect writes under the tasks key is
    the list the next session reads from it, whatever the seed tasks it
    would fall back to. *)
Theorem tasks_survive_reload (tripSlug : jstring) (l : list Task) (seed : jsval)
        (st : gmap jstring jstring) :
  forallb Task_ok l = true ->
  Tasks_ofJS (ls_read (ls_write (tasksKey tripSlug) (JArr (List.map Task_toJS l)) st)
                      (tasksKey tripSlug) seed)
  = Some l.
Proof.
  intros Hok.
  assert (Hw : written (JArr (List.map Task_toJS l))
               = JArr (List.map written (List.map Task_toJS l))) by reflexivity.
  rewrite ls_read_write; [|reflexivity|].
  - rewrite Hw. cbn [Tasks_ofJS]. apply Tasks_read_back.
  - rewrite Hw. cbn [json_ok]. now apply Tasks_written_ok.
Qed.

Lemma tasks_survive_reload_witness :
  Tasks_ofJS (ls_read (ls_write (tasksKey (lit "goldcoast-2025"))
                                (JArr (List.map Task_toJS [bareTask; fullTask])) ∅)
                      (tasksKey (lit "goldcoast-2025")) (JArr []))
  = Some [bareTask; fullTask].
Proof.
  exact (tasks_survive_reload (lit "goldcoast-2025") [bareTask; fullTask] (JArr []) ∅
                              eq_refl).
Defined.

(** ** Supabase credentials *)

Lemma or_else_chain (a b c d : jsval) :
  or_else (or_else (or_else a b) c) d = first_truthy [a; b; c] d.
Proof.
  unfold or_else, first_truthy. cbn [List.find].
  destruct (js_truthy a) eqn:Ea; cbn [nullish]; rewrite ?Ea; [reflexivity|].
  destruct (js_truthy b) eqn:Eb; cbn [nullish]; rewrite ?Eb; [reflexivity|].
  destruct (js_truthy c) eqn:Ec; cbn [nullish]; rewrite ?Ec; reflexivity.
Qed.

Lemma getEnvSupabase_eq (l : Location) (st : gmap jstring jstring) :
  getEnvSupabase (Some l) st
  = let '(u, k) :=
      if (negb (js_truthy (plain_url l st)) || negb (js_truthy (plain_key l st)))
         && js_truthy (packed l)
      then match unpack (packed l) with
           | Some JNull | None => (plain_url l st, plain_key l st)
           | Some decoded =>
               (or_else (prop (lit "url") decoded) (plain_url l st),
                or_else (prop (lit "key") decoded) (plain_key l st))
           end
      else (plain_url l st, plain_key l st) in
    if js_truthy u && js_truthy k then Some (u, k) else None.
Proof. unfold getEnvSupabase, plain_url, plain_key, packed. now rewrite !or_else_chain. Qed.

(** X13. The credentials are taken, each on its own, from the first of
    global, query parameter, fragment parameter and cache that holds a
    truthy value.  When both are found this way the pair is the result and
    the packed parameter is not looked at; a packed parameter that does
    not decode, or decodes to [null], is ignored; the result is never a
    pair with a falsy half; and without an address there is no result. *)
Theorem credentials_priority (l : Location) (st : gmap jstring jstring) :
  (js_truthy (plain_url l st) = true -> js_truthy (plain_key l st) = true ->
   getEnvSupabase (Some l) st = Some (plain_url l st, plain_key l st))
  /\ (unpack (packed l) = None \/ unpack (packed l) = Some JNull ->
      getEnvSupabase (Some l) st = getEnvSupabase (Some (without_packed l)) st)
  /\ getEnvSupabase (Some (without_packed l)) st
     = (if js_truthy (plain_url l st) && js_truthy (plain_key l st)
        then Some (plain_url l st, plain_key l st) else None)
  /\ (forall u k, getEnvSupabase (Some l) st = Some (u, k) ->
                  js_truthy u = true /\ js_truthy k = true)
  /\ getEnvSupabase None st = None.
Proof.
  assert (Hwo : getEnvSupabase (Some (without_packed l)) st
                = (if js_truthy (plain_url l st) && js_truthy (plain_key l st)
                   then Some (plain_url l st, plain_key l st) else None)).
  { rewrite getEnvSupabase_eq.
    change (packed (without_packed l)) with JNull.
    change (plain_url (without_packed l) st) with (plain_url l st).
    change (plain_key (without_packed l) st) with (plain_key l st).
    cbn [js_truthy]. now rewrite andb_false_r. }
  split; [|split; [|split; [|split]]].
  - intros Hu Hk. rewrite getEnvSupabase_eq, Hu, Hk. cbn [negb orb andb].
    now rewrite Hu, Hk.
  - intros Hp. rewrite Hwo, getEnvSupabase_eq.
    destruct ((negb _ || negb _) && _); [|reflexivity].
    destruct Hp as [-> | ->]; reflexivity.
  - exact Hwo.
  - intros u k. rewrite getEnvSupabase_eq.
    destruct (if (negb _ || negb _) && _ then _ else _) as [u' k'].
    destruct (js_truthy u' && js_truthy k') eqn:E; [|discriminate].
    intros [= <- <-]. now apply andb_true_iff in E.
  - reflexivity.
Qed.

Section PackedFacts.
Local Open Scope N_scope.

Lemma b64char_not_percent (n : N) : (b64char n =? 37) = false.
Proof.
  unfold b64char.
  repeat match goal with
         | |- context [if ?b then _ else _] => destruct b eqn:?
         end;
    repeat match goal with
           | H : (_ <? _) = _ |- _ => first [apply N.ltb_lt in H | apply N.ltb_ge in H]
           | H : (_ =? _) = _ |- _ => first [apply N.eqb_eq in H | apply N.eqb_neq in H]
           end;
    apply N.eqb_neq; lia.
Qed.

Lemma b64enc_no_percent (s : list N) :
  forallb (fun c => negb (c =? 37)) (b64enc s) = true.
Proof.
  induction s using list_ind3; cbn [b64enc forallb];
    rewrite ?b64char_not_percent, ?IHs; reflexivity.
Qed.

Lemma decodeURI_plain (s : jstring) :
  forallb (fun c => negb (c =? 37)) s = true ->
  forall fuel, (length s < fuel)%nat -> decodeURI_go fuel s = Some s.
Proof.
  induction s as [|c s IH]; intros Hs [|fuel] Hf; cbn in Hf; try lia;
    [reflexivity|].
  cbn [forallb] in Hs. apply andb_true_iff in Hs as [Hc Hs].
  cbn [decodeURI_go]. apply negb_true_iff in Hc. rewrite Hc.
  rewrite (IH Hs) by lia. reflexivity.
Qed.

(** The packed parameter [btoa(JSON.stringify(d))] decodes to [d]. *)
Lemma unpack_packed (d : jsval) :
  json_ok d = true -> bytes_ok (serialize d) ->
  unpack (JStr (b64enc (serialize d))) = Some d.
Proof.
  intros Hok Hb. unfold unpack, decodeURIComponent.
  rewrite decodeURI_plain by (try apply b64enc_no_percent; lia).
  destruct (atob_btoa _ Hb) as [_ ->].
  now apply JSON_parse_serialize.
Qed.

Lemma forallb_bytes_ok (s : list N) :
  forallb (fun c => c <? 256) s = true -> bytes_ok s.
Proof.
  induction s as [|c s IH]; cbn [forallb]; intros H; constructor;
    apply andb_true_iff in H as [H1 H2]; [now apply N.ltb_lt|now apply IH].
Qed.

Lemma b64enc_nonempty (s : list N) : s <> [] -> b64enc s <> [].
Proof. destruct s as [|a [|b [|c tl]]]; [congruence| | |]; discriminate. Qed.

End PackedFacts.

Lemma truthy_JStr (s : jstring) : s <> [] -> js_truthy (JStr s) = true.
Proof. destruct s; [congruence|reflexivity]. Qed.

(** X14. When the plain sources leave a credential missing, a packed
    parameter that is the base64 text of the JSON text of [{ url, key }]
    supplies both: the result is the packed pair, also for the half the
    plain sources did provide. *)
Theorem packed_credentials_are_read (l : Location) (st : gmap jstring jstring)
        (u k : jstring) :
  u <> [] -> k <> [] ->
  units_ok u = true -> units_ok k = true ->
  forallb (fun c => N.ltb c 256) (serialize (pairJS u k)) = true ->
  packed l = JStr (b64enc (serialize (pairJS u k))) ->
  js_truthy (plain_url l st) && js_truthy (plain_key l st) = false ->
  getEnvSupabase (Some l) st = Some (JStr u, JStr k).
Proof.
  intros Hu Hk Hou Hok Hb Hp Hmiss.
  assert (Hjson : json_ok (pairJS u k) = true)
    by (unfold pairJS; object_ok ltac:(assumption)).
  apply forallb_bytes_ok in Hb.
  rewrite getEnvSupabase_eq, Hp, (unpack_packed _ Hjson Hb).
  assert (Ht : js_truthy (JStr (b64enc (serialize (pairJS u k)))) = true).
  { apply truthy_JStr, b64enc_nonempty.
    destruct (serialize_nonempty _ Hjson) as (c & tl & ->). discriminate. }
  rewrite Ht, andb_true_r.
  assert (Hn : negb (js_truthy (plain_url l st)) || negb (js_truthy (plain_key l st)) = true)
    by (rewrite <- negb_andb, Hmiss; reflexivity).
  rewrite Hn. unfold pairJS.
  change (prop (lit "url") (JObj [(lit "url", JStr u); (lit "key", JStr k)])) with (JStr u).
  change (prop (lit "key") (JObj [(lit "url", JStr u); (lit "key", JStr k)])) with (JStr k).
  unfold or_else. rewrite !truthy_JStr by assumption. reflexivity.
Qed.

(** The address carries the global URL of another project and the packed
    pair: the packed pair wins. *)
Lemma packed_credentials_are_read_witness :
  getEnvSupabase
    (Some (mkLocation (JStr (lit "https://old.supabase.co")) JUndefined None None
                      (Some (b64enc (serialize (pairJS (lit "https://x.supabase.co")
                                                       (lit "anon")))))
                      None None None))
    ∅
  = Some (JStr (lit "https://x.supabase.co"), JStr (lit "anon")).
Proof.
  apply packed_credentials_are_read; try discriminate; vm_compute; reflexivity.
Defined.

Lemma credential_keys_differ : supabaseKeyKey <> supabaseUrlKey.
Proof. intros H. vm_compute in H. congruence. Qed.

Lemma plain_from_cache (l : Location) (st : gmap jstring jstring) :
  no_link_credentials l ->
  plain_url l st = ls_read st supabaseUrlKey JUndefined
  /\ plain_key l st = ls_read st supabaseKeyKey JUndefined.
Proof. intros [Hu Hk]. unfold plain_url, plain_key, first_truthy. now rewrite Hu, Hk. Qed.

(** X15. Connect, then reload: when both fields of the dialog are filled
    in, the pair is written to the cache, and at the next start of a page
    whose address carries no credentials it is the pair the client is
    created with; when a field is empty nothing is written. *)
Theorem connect_then_reload (l : Location) (st : gmap jstring jstring)
        (connUrl connKey : jstring) :
  units_ok connUrl = true -> units_ok connKey = true ->
  no_link_credentials l ->
  match connectCloud connUrl connKey st with
  | Some st' => getEnvSupabase (Some l) st' = Some (JStr connUrl, JStr connKey)
  | None => connUrl = [] \/ connKey = []
  end.
Proof.
  intros Hu Hk Hl. unfold connectCloud.
  destruct connUrl as [|c1 r1]; [now left|].
  destruct connKey as [|c2 r2]; [now right|].
  destruct (plain_from_cache l
              (ls_write supabaseKeyKey (JStr (c2 :: r2))
                        (ls_write supabaseUrlKey (JStr (c1 :: r1)) st)) Hl) as [Eu Ek].
  rewrite ls_read_write in Ek by (try reflexivity; exact Hk).
  assert (Eu' : plain_url l (ls_write supabaseKeyKey (JStr (c2 :: r2))
                                      (ls_write supabaseUrlKey (JStr (c1 :: r1)) st))
                = JStr (c1 :: r1)).
  { rewrite Eu, ls_read_other by (apply not_eq_sym, credential_keys_differ).
    now rewrite ls_read_write by (try reflexivity; exact Hu). }
  rewrite getEnvSupabase_eq, Eu', Ek. reflexivity.
Qed.

Lemma connect_then_reload_witness :
  match connectCloud (lit "https://x.supabase.co") (lit "anon") ∅ with
  | Some st' => getEnvSupabase (Some bareLocation) st'
                = Some (JStr (lit "https://x.supabase.co"), JStr (lit "anon"))
  | None => lit "https://x.supabase.co" = [] \/ lit "anon" = []
  end.
Proof.
  exact (connect_then_reload bareLocation ∅ (lit "https://x.supabase.co") (lit "anon")
                             eq_refl eq_refl (conj eq_refl eq_refl)).
Defined.

(** X16. Disconnect, then reload: the cached pair is gone, so a page whose
    address carries no credentials starts without a client; but when the
    address itself gives both credentials the page starts with the same
    pair as before, and Disconnect has changed nothing. *)
Theorem disconnect_then_reload (l : Location) (st : gmap jstring jstring) :
  (no_link_credentials l -> packed l = JNull ->
   getEnvSupabase (Some l) (disconnectCloud st) = None)
  /\ (forall u k,
         List.find js_truthy [SUPABASE_URL l; param (search_sb_url l);
                              param (hash_sb_url l)] = Some u ->
         List.find js_truthy [SUPABASE_ANON_KEY l; param (search_sb_key l);
                              param (hash_sb_key l)] = Some k ->
         getEnvSupabase (Some l) (disconnectCloud st) = Some (u, k)
         /\ getEnvSupabase (Some l) st = Some (u, k)).
Proof.
  split.
  - intros Hl Hp. destruct (plain_from_cache l (disconnectCloud st) Hl) as [Eu Ek].
    rewrite getEnvSupabase_eq, Eu, Ek, Hp. unfold disconnectCloud, ls_read, ls_remove.
    rewrite lookup_delete_ne by apply credential_keys_differ.
    now rewrite !lookup_delete_eq.
  - intros u k Hu Hk.
    assert (Htu : js_truthy u = true) by (now apply List.find_some in Hu).
    assert (Htk : js_truthy k = true) by (now apply List.find_some in Hk).
    assert (E : forall st', plain_url l st' = u /\ plain_key l st' = k)
      by (intros st'; unfold plain_url, plain_key, first_truthy; now rewrite Hu, Hk).
    assert (G : forall st', getEnvSupabase (Some l) st' = Some (u, k)).
    { intros st'. rewrite getEnvSupabase_eq. destruct (E st') as [-> ->].
      rewrite Htu, Htk. cbn [negb orb andb]. now rewrite Htu, Htk. }
    split; apply G.
Qed.

(** ** Share link *)

Lemma location_hash_fragment (p r : jstring) :
  mem 35%N p = false -> r <> [] -> location_hash (p ++ 35%N :: r) = 35%N :: r.
Proof.
  unfold mem. intros Hp Hr. induction p as [|c p IH].
  - destruct r; [congruence|reflexivity].
  - cbn [app location_hash existsb] in *. apply orb_false_iff in Hp as [Hc Hp].
    rewrite N.eqb_sym, Hc. now apply IH.
Qed.

Lemma Settings_read_back (se : Settings) :
  Settings_ofJS (written (Settings_toJS se)) = Some se.
Proof. destruct se as [[k|]]; reflexivity. Qed.

Lemma Snapshot_written_ok (s : Snapshot) :
  Snapshot_ok s = true -> json_ok (written (Snapshot_toJS s)) = true.
Proof.
  unfold Snapshot_ok. intros H. apply andb_true_iff in H as [Ht Hk].
  rewrite Snapshot_written. destruct s as [l [k]].
  cbn [snap_tasks snap_settings kickoffISO] in *.
  pose proof (Tasks_written_ok l Ht) as Hl.
  destruct k as [k|]; cbn [opt_units_ok] in Hk;
    cbn [Settings_toJS written defined_members optional is_undefined kickoffISO];
    object_ok ltac:(first [ exact Hl
                          | object_ok ltac:(first [assumption | reflexivity]) ]).
Qed.

Lemma importEffect_state (token : jstring) (confirmed : bool) :
  importEffect (lit "#state=" ++ token) confirmed
  = (match decodeState token with
     | None => [Alert (lit "Bad share link")]
     | Some obj =>
         if confirmed then
           match obj with
           | JNull | JUndefined => [Alert (lit "Bad share link")]
           | _ =>
               (if js_truthy (prop (lit "tasks") obj) && is_array (prop (lit "tasks") obj)
                then [SetTasks (prop (lit "tasks") obj)] else [])
               ++ (if js_truthy (prop (lit "settings") obj)
                   then [SetSettings (prop (lit "settings") obj)] else [])
           end
         else []
     end) ++ [ReplaceState].
Proof.
  unfold importEffect.
  change (starts_with (lit "#state=") (lit "#state=" ++ token)) with (Some token).
  reflexivity.
Qed.

Lemma starts_with_app (p s r : jstring) :
  starts_with p s = Some r -> s = p ++ r.
Proof.
  revert s. induction p as [|c p IH]; intros s H; cbn in H.
  - now injection H as ->.
  - destruct s as [|d s]; [discriminate|].
    destruct (N.eqb_spec c d) as [->|]; [|discriminate].
    cbn. f_equal. now apply IH.
Qed.


Lemma parse_number_defined (s : jstring) (v : jsval) (r : jstring) :
  parse_number s = Some (v, r) -> is_undefined v = false.
Proof.
  unfold parse_number.
  destruct (match s with
            | [] => (false, s)
            | c :: tl => if (c =? 45)%N then (true, tl) else (false, s)
            end) as [neg s1].
  destruct (lex_int s1) as [[ip r1]|]; [|discriminate].
  destruct (lex_frac r1) as [[fp r2]|]; [|discriminate].
  destruct (lex_exp r2) as [[ep r3]|]; [|discriminate].
  destruct fp, ep; intros [= <- <-]; reflexivity.
Qed.

Lemma parse_val_defined (fuel : nat) (s : jstring) (v : jsval) (r : jstring) :
  parse_val fuel s = Some (v, r) -> is_undefined v = false.
Proof.
  destruct fuel as [|f]; [discriminate|]. cbn [parse_val].
  destruct (skip_ws s) as [|c tl]; [discriminate|].
  destruct (c =? 123)%N.
  { destruct (starts_with _ _); [intros [= <- <-]; reflexivity|].
    destruct (parse_members f tl) as [[ms r']|]; [|discriminate].
    intros [= <- <-]; reflexivity. }
  destruct (c =? 91)%N.
  { destruct (starts_with _ _); [intros [= <- <-]; reflexivity|].
    destruct (parse_elems f tl) as [[ms r']|]; [|discriminate].
    intros [= <- <-]; reflexivity. }
  destruct (c =? 34)%N.
  { destruct (parse_string tl) as [[str r']|]; [|discriminate].
    intros [= <- <-]; reflexivity. }
  intros H.
  assert (G : parse_number (c :: tl) = Some (v, r) \/ is_undefined v = false).
  { revert H.
    repeat match goal with
           | |- context [match ?x with _ => _ end] => destruct x
           end;
      intros H; first [now left | right; injection H as <- <-; reflexivity]. }
  destruct G as [G|G]; [now apply parse_number_defined in G|exact G].
Qed.

Lemma JSON_parse_defined (s : jstring) (v : jsval) :
  JSON_parse s = Some v -> is_undefined v = false.
Proof.
  unfold JSON_parse.
  destruct (parse_val _ s) as [[x r]|] eqn:E; [|discriminate].
  destruct (skip_ws r); [|discriminate].
  intros [= <-]. now apply parse_val_defined in E.
Qed.

(** What [decodeState] returns was parsed: it is never [undefined]. *)
Lemma decodeState_defined (token : jstring) (v : jsval) :
  decodeState token = Some v -> is_undefined v = false.
Proof.
  unfold decodeState.
  destruct (atob token) as [bytes|]; [|discriminate].
  destruct (decodeURIComponent (escape bytes)) as [text|];
    [destruct (JSON_parse text) as [x|] eqn:E;
       [intros [= <-]; now apply JSON_parse_defined in E|]|];
    apply JSON_parse_defined.
Qed.

Section ShareFacts.

Variable tripSlug : jstring.
Variable getTime : jstring -> jsnum.
Variable formatDateTime : jstring -> jstring.

Abbreviation applyCmds1 := (applyCmds tripSlug getTime formatDateTime).

(** X17. A share link carries the state across: for every state whose
    strings are made of 16-bit code units, and an origin, path and trip
    slug without a number sign, [openShare] yields an address; a page
    opened at that address finds the fragment, and when the user confirms,
    its tasks and settings become those of the sharing page and its cache
    holds the imported list; when the user declines, its state is left as
    it was. *)
Theorem share_link_is_imported (origin pathname slug : jstring) (a b : App) :
  Snapshot_ok (mkSnapshot (tasks a) (settings a)) = true ->
  mem 35%N (origin ++ pathname ++ lit "?trip=" ++ slug) = false ->
  exists href,
    openShare origin pathname slug a = Some href
    /\ (exists b',
           applyCmds1 (importEffect (location_hash href) true) b = Some b'
           /\ tasks b' = tasks a /\ settings b' = settings a
           /\ synced tripSlug b')
    /\ applyCmds1 (importEffect (location_hash href) false) b = Some b.
Proof.
  intros Hok Hno.
  destruct (decode_encode (Snapshot_toJS (mkSnapshot (tasks a) (settings a))) eq_refl
                          (Snapshot_written_ok _ Hok)) as (token & He & Hd).
  exists (origin ++ pathname ++ lit "?trip=" ++ slug ++ lit "#state=" ++ token).
  assert (Hh : location_hash (origin ++ pathname ++ lit "?trip=" ++ slug
                                     ++ lit "#state=" ++ token)
               = lit "#state=" ++ token).
  { replace (origin ++ pathname ++ lit "?trip=" ++ slug ++ lit "#state=" ++ token)
      with ((origin ++ pathname ++ lit "?trip=" ++ slug) ++ 35%N :: lit "state=" ++ token)
      by (now rewrite <- !List.app_assoc).
    rewrite location_hash_fragment; [reflexivity|assumption|discriminate]. }
  split; [unfold openShare; now rewrite He|].
  rewrite Hh, !importEffect_state, Hd, Snapshot_written. cbn [snap_tasks snap_settings].
  split; [|reflexivity].
  set (X := JArr (List.map written (List.map Task_toJS (tasks a)))).
  set (Y := written (Settings_toJS (settings a))).
  change (prop (lit "tasks") (JObj [(lit "tasks", X); (lit "settings", Y)])) with X.
  change (prop (lit "settings") (JObj [(lit "tasks", X); (lit "settings", Y)])) with Y.
  assert (HY : js_truthy Y = true) by (subst Y; destruct (settings a) as [[k|]]; reflexivity).
  rewrite HY. cbn [js_truthy is_array andb app X applyCmds applyCmd].
  subst X Y. cbn [Tasks_ofJS]. rewrite Tasks_read_back. cbn [option_map].
  rewrite Settings_read_back. cbn [option_map].
  eexists. split; [reflexivity|].
  cbn [step fst]. repeat split.
  apply synced_setSettings, synced_persistTasks.
Qed.

End ShareFacts.

(** The state of a page that holds [bareTask] and [fullTask], shared from
    the default address and opened on a page that holds [dueTask]. *)
Lemma share_link_is_imported_witness :
  exists href,
    openShare (lit "https://fathacks.example") (lit "/") (lit "goldcoast-2025")
              (connectedApp [bareTask; fullTask]) = Some href
    /\ (exists b',
           applyCmds (lit "goldcoast-2025") isoTime (fun x => x)
                     (importEffect (location_hash href) true)
                     (mount (lit "goldcoast-2025") ∅ [dueTask]) = Some b'
           /\ tasks b' = tasks (connectedApp [bareTask; fullTask])
           /\ settings b' = settings (connectedApp [bareTask; fullTask])
           /\ synced (lit "goldcoast-2025") b')
    /\ applyCmds (lit "goldcoast-2025") isoTime (fun x => x)
                 (importEffect (location_hash href) false)
                 (mount (lit "goldcoast-2025") ∅ [dueTask])
       = Some (mount (lit "goldcoast-2025") ∅ [dueTask]).
Proof.
  exact (share_link_is_imported (lit "goldcoast-2025") isoTime (fun x => x)
           (lit "https://fathacks.example") (lit "/") (lit "goldcoast-2025")
           (connectedApp [bareTask; fullTask])
           (mount (lit "goldcoast-2025") ∅ [dueTask]) eq_refl eq_refl).
Defined.

Section ImportFacts.

Variable tripSlug : jstring.
Variable getTime : jstring -> jsnum.
Variable formatDateTime : jstring -> jstring.

Abbreviation applyCmds2 := (applyCmds tripSlug getTime formatDateTime).

(** X18. The import effect asks first: when the user declines, no setter
    is called and the state is left as it was, whatever the fragment
    holds.  A fragment that does not start with the state marker triggers
    nothing at all; one that does is always stripped, once, at the end.
    The alert is raised only for a token that does not decode, or, after
    a confirmation, for one that decodes to [null]. *)
Theorem import_asks_first (hash : jstring) (b : App) :
  setters (importEffect hash false) = []
  /\ applyCmds2 (importEffect hash false) b = Some b
  /\ (forall confirmed,
         match starts_with (lit "#state=") hash with
         | None => importEffect hash confirmed = []
         | Some token =>
             exists cs, importEffect hash confirmed = cs ++ [ReplaceState]
                        /\ ~ In ReplaceState cs
                        /\ (forall m, In (Alert m) cs ->
                                      decodeState token = None
                                      \/ (confirmed = true
                                          /\ decodeState token = Some JNull))
         end).
Proof.
  assert (Hshape : forall confirmed,
             match starts_with (lit "#state=") hash with
             | None => importEffect hash confirmed = []
             | Some token =>
                 exists cs, importEffect hash confirmed = cs ++ [ReplaceState]
                            /\ ~ In ReplaceState cs
                            /\ (forall m, In (Alert m) cs ->
                                          decodeState token = None
                                          \/ (confirmed = true
                                              /\ decodeState token = Some JNull))
                            /\ (confirmed = false -> setters cs = []
                                                     /\ applyCmds2 cs b = Some b)
             end).
  { intros confirmed. unfold importEffect.
    destruct (starts_with (lit "#state=") hash) as [token|]; [|reflexivity].
    eexists. split; [reflexivity|].
    assert (Hcase : forall cs : list Cmd,
               (cs = [] \/ (exists v, cs = [SetTasks v]) \/ (exists v, cs = [SetSettings v])
                \/ (exists v w, cs = [SetTasks v; SetSettings w])) ->
               ~ In ReplaceState cs /\ (forall m, ~ In (Alert m) cs)).
    { intros cs [->|[[v ->]|[[v ->]|[v [w ->]]]]]; cbn; split; try intros m;
        intuition congruence. }
    destruct (decodeState token) as [obj|] eqn:Hd;
      [|cbn; repeat split; try (intros; discriminate); intuition congruence].
    apply decodeState_defined in Hd.
    destruct confirmed;
      [|cbn; repeat split; try (intros; discriminate); intuition congruence].
    destruct obj; try discriminate Hd.
    1: { cbn. repeat split; try (intros; discriminate); intuition congruence. }
    all: match goal with
         | |- ~ In ReplaceState ?cs /\ _ =>
             destruct (Hcase cs) as [H1 H2];
               [ repeat match goal with
                        | |- context [if ?c then _ else _] => destruct c
                        end; cbn [app]; eauto 6
               | split; [exact H1|split; [intros m Hm; now elim (H2 m)|discriminate]] ]
         end. }
  split; [|split].
  - specialize (Hshape false). unfold importEffect in *.
    destruct (starts_with (lit "#state=") hash) as [token|]; [|reflexivity].
    destruct Hshape as (cs & E & _ & _ & H). apply List.app_inv_tail in E. subst cs.
    destruct (H eq_refl) as [H1 _]. unfold setters in *.
    rewrite List.filter_app, H1. reflexivity.
  - specialize (Hshape false). unfold importEffect in *.
    destruct (starts_with (lit "#state=") hash) as [token|]; [|reflexivity].
    destruct Hshape as (cs & E & _ & _ & H). apply List.app_inv_tail in E. subst cs.
    destruct (H eq_refl) as [_ H2].
    destruct (decodeState token); cbn in *; congruence.
  - intros confirmed. specialize (Hshape confirmed).
    destruct (starts_with (lit "#state=") hash) as [token|]; [|exact Hshape].
    destruct Hshape as (cs & E & H1 & H2 & _). exists cs. auto.
Qed.

End ImportFacts.

(** ** Assignees *)

Lemma existsb_str_In (x : jstring) (l : list jstring) :
  existsb (str_eqb x) l = true <-> In x l.
Proof.
  rewrite List.existsb_exists. split.
  - intros (y & Hy & E). apply str_eqb_eq in E. now subst.
  - intros H. exists x. split; [exact H|apply str_eqb_refl].
Qed.

Lemma Set_add_spec (x : jstring) (set : list jstring) :
  (forall y, In y (Set_add x set) <-> In y set \/ y = x)
  /\ (List.NoDup set -> List.NoDup (Set_add x set))
  /\ exists rest, Set_add x set = set ++ rest.
Proof.
  unfold Set_add. destruct (existsb (str_eqb x) set) eqn:E.
  - apply existsb_str_In in E. repeat split; try tauto.
    + intros [H| ->]; assumption.
    + exists []. now rewrite List.app_nil_r.
  - assert (Hn : ~ In x set)
      by (intros H; apply existsb_str_In in H; congruence).
    repeat split.
    + intros H. apply List.in_app_or in H as [H|[H|[]]]; auto.
    + intros [H| ->]; apply List.in_or_app; [now left|right; now left].
    + intros Hnd. apply List.NoDup_app; repeat split; auto.
      * repeat constructor. intros [].
      * intros y Hy [<-|[]]. contradiction.
    + now exists [x].
Qed.

Lemma fold_Set_add (l set : list jstring) :
  (forall y, In y (fold_left (fun s x => Set_add x s) l set) <-> In y set \/ In y l)
  /\ (List.NoDup set -> List.NoDup (fold_left (fun s x => Set_add x s) l set))
  /\ exists rest, fold_left (fun s x => Set_add x s) l set = set ++ rest.
Proof.
  revert set. induction l as [|x l IH]; intros set; cbn [fold_left].
  - repeat split; try tauto.
    + intros [H|[]]; exact H.
    + exists []. now rewrite List.app_nil_r.
  - destruct (IH (Set_add x set)) as (H1 & H2 & rest & H3).
    destruct (Set_add_spec x set) as (A1 & A2 & r0 & A3).
    repeat split.
    + intros H. apply H1 in H as [H|H]; [apply A1 in H as [H| ->]|]; cbn; auto.
    + intros [H|[<-|H]]; apply H1; [left; apply A1; now left|left; apply A1; now right|now right].
    + intros Hnd. auto.
    + exists (r0 ++ rest). now rewrite H3, A3, <- List.app_assoc.
Qed.

(** X19. The list of assignees offered in the form and the table holds
    every person of the people list and every assignee that a task
    names and that is not empty, and nothing else; it holds no name
    twice; and it starts with the people list when that has no
    duplicates.  So adding a task or a person never takes a name away. *)
Theorem allAssignees_covers (people : list jstring) (l : list Task) :
  (forall x, In x (allAssignees people l)
             <-> In x people \/ (x <> [] /\ exists t, In t l /\ assignee t = x))
  /\ List.NoDup (allAssignees people l)
  /\ (List.NoDup people -> exists rest, allAssignees people l = people ++ rest).
Proof.
  unfold allAssignees, Array_from_Set.
  match goal with
  | |- context [List.filter ?f (List.map assignee l)] =>
      set (named := List.filter f (List.map assignee l))
  end.
  destruct (fold_Set_add (people ++ named) []) as (H1 & H2 & _).
  split; [|split].
  - intros x. rewrite H1. subst named. split.
    + intros [[]|H]. apply List.in_app_or in H as [H|H]; [now left|right].
      apply List.filter_In in H as [H Hx]. apply List.in_map_iff in H as (t & <- & Ht).
      split; [|eauto]. intros E. rewrite E in Hx. discriminate.
    + intros H. right. apply List.in_or_app.
      destruct H as [H|(Hx & t & Ht & <-)]; [now left|right].
      apply List.filter_In. split; [now apply List.in_map|].
      destruct (assignee t); [congruence|reflexivity].
  - apply H2. constructor.
  - intros Hnd. rewrite List.fold_left_app.
    destruct (fold_Set_add people []) as (P1 & P2 & _).
    assert (E : fold_left (fun s x => Set_add x s) people [] = people).
    { assert (G : forall p acc, List.NoDup (acc ++ p) ->
                              fold_left (fun s x => Set_add x s) p acc = acc ++ p).
      { clear. induction p as [|x p IH]; intros acc Hacc; cbn [fold_left].
        - now rewrite List.app_nil_r.
        - assert (Hx : existsb (str_eqb x) acc = false).
          { destruct (existsb (str_eqb x) acc) eqn:E; [|reflexivity].
            apply existsb_str_In in E. apply List.NoDup_remove_2 in Hacc.
            elim Hacc. apply List.in_or_app. now left. }
          unfold Set_add at 2. rewrite Hx.
          rewrite IH; rewrite <- List.app_assoc; auto. }
      now apply (G people []). }
    rewrite E. destruct (fold_Set_add named people) as (_ & _ & rest & ->). eauto.
Qed.

(** X20. The Add button of the assignee dialog appends the trimmed name
    when it is not empty and not in the list yet, and changes nothing
    otherwise: the people list never shrinks or reorders, gets no
    duplicate, and adding the same name again changes nothing. *)
Theorem addPerson_appends_once (name : jstring) (people : list jstring) :
  (addPerson name people = people
   \/ (addPerson name people = people ++ [trim name]
       /\ trim name <> [] /\ ~ In (trim name) people))
  /\ (trim name <> [] -> In (trim name) (addPerson name people))
  /\ (List.NoDup people -> List.NoDup (addPerson name people))
  /\ addPerson name (addPerson name people) = addPerson name people.
Proof.
  unfold addPerson. destruct (trim name) as [|c n] eqn:E.
  - repeat split; auto. congruence.
  - destruct (existsb (str_eqb (c :: n)) people) eqn:Hin.
    + rewrite Hin. apply existsb_str_In in Hin. repeat split; auto.
    + assert (Hn : ~ In (c :: n) people)
        by (intros H; apply existsb_str_In in H; congruence).
      repeat split.
      * right. repeat split; [discriminate|exact Hn].
      * intros _. apply List.in_or_app. right. now left.
      * intros Hnd. apply List.NoDup_app; repeat split; auto.
        -- repeat constructor. intros [].
        -- intros y Hy [<-|[]]. contradiction.
      * rewrite List.existsb_app. cbn [existsb]. now rewrite str_eqb_refl, orb_true_r.
Qed.

(** ** Dashboard *)

Lemma count_split (f g : Task -> bool) (l : list Task) :
  (forall t, f t && g t = false) ->
  (count f l + count g l = count (fun t => f t || g t) l)%nat.
Proof.
  intros H. unfold count. induction l as [|t l IH]; [reflexivity|].
  cbn [List.filter]. specialize (H t).
  destruct (f t), (g t); try discriminate; cbn [orb length]; lia.
Qed.

Lemma count_le (f g : Task -> bool) (l : list Task) :
  (forall t, f t = true -> g t = true) -> (count f l <= count g l)%nat.
Proof.
  intros H. unfold count. induction l as [|t l IH]; [reflexivity|].
  cbn [List.filter]. specialize (H t).
  destruct (f t), (g t); cbn [length]; first [lia | discriminate (H eq_refl)].
Qed.

Lemma count_all (f : Task -> bool) (l : list Task) :
  (forall t, In t l -> f t = true) -> count f l = length l.
Proof.
  unfold count. induction l as [|t l IH]; intros H; [reflexivity|].
  cbn [List.filter]. rewrite (H t) by now left. cbn [length]. f_equal.
  apply IH. intros x Hx. apply H. now right.
Qed.

Lemma count_ext (f g : Task -> bool) (l : list Task) :
  (forall t, f t = g t) -> count f l = count g l.
Proof. intros H. unfold count. f_equal. now apply List.filter_ext. Qed.

Lemma count_zero (f : Task -> bool) (l : list Task) :
  count f l = 0%nat <-> forall t, In t l -> f t = false.
Proof.
  unfold count. induction l as [|t l IH]; cbn [List.filter].
  - split; [intros _ t []|reflexivity].
  - destruct (f t) eqn:E; cbn [length]; split.
    + discriminate.
    + intros H. rewrite (H t) in E by now left. discriminate.
    + intros H x [<-|Hx]; [exact E|now apply IH].
    + intros H. apply IH. intros x Hx. apply H. now right.
Qed.

(** X21. The stat cards add up: done, in progress and not started
    together are the total; no task is counted both overdue and due soon;
    the overdue tasks are among the unfinished ones; and the header shows
    no overdue task exactly when the classifier calls none overdue. *)
Theorem dashboard_cards_add_up (getTime : jstring -> jsnum) (now : Z) (l : list Task) :
  let c := cards getTime now l in
  (n_done c + n_inprog c + n_notStarted c = n_total c)%nat
  /\ (n_overdue c + n_soon c <= n_total c)%nat
  /\ (n_overdue c <= n_inprog c + n_notStarted c)%nat
  /\ (overdueCount getTime now l = 0%nat
      <-> forall t, In t l -> overdue (dueState getTime now t) = false).
Proof.
  cbv zeta. unfold cards, overdueCount. cbn [n_total n_done n_inprog n_notStarted n_overdue n_soon].
  split; [|split; [|split]].
  - rewrite !count_split by (intros t; destruct (status t); reflexivity).
    apply count_all. intros t _. destruct (status t); reflexivity.
  - rewrite count_split by (intros t; now destruct (overdue _)).
    unfold count. apply List.filter_length_le.
  - rewrite count_split by (intros t; destruct (status t); reflexivity).
    apply count_le. intros t. unfold dueState.
    destruct (truthy (sla t)); [|discriminate]. cbn [overdue].
    destruct (status t); cbn; rewrite ?andb_false_r; congruence.
  - apply count_zero.
Qed.

Lemma sum_count_names (names : list jstring) (f : Task -> bool) (l : list Task) :
  List.NoDup names ->
  list_sum (List.map (fun n => count (fun t => str_eqb (assignee t) n && f t) l) names)
  = count (fun t => existsb (str_eqb (assignee t)) names && f t) l.
Proof.
  intros Hnd. induction Hnd as [|n names Hn Hnd IH]; cbn [List.map list_sum fold_right].
  - unfold count. induction l; [reflexivity|]. cbn. assumption.
  - fold (list_sum (List.map (fun n => count (fun t => str_eqb (assignee t) n && f t) l) names)).
    rewrite IH, count_split.
    + apply count_ext. intros t. cbn [existsb]. now destruct (str_eqb _ n), (existsb _ names), (f t).
    + intros t. destruct (str_eqb (assignee t) n) eqn:E; [|reflexivity].
      apply str_eqb_eq in E. subst n.
      destruct (existsb (str_eqb (assignee t)) names) eqn:E'; [|now destruct (f t)].
      apply existsb_str_In in E'. contradiction.
Qed.

(** X22. The rows of the assignee panel partition the tasks: there is one
    row for each name that a task carries, none twice, every row counts at
    least one task and no more done tasks than tasks, the totals of the
    rows add up to the number of tasks, and their done counts to the
    number of done tasks. *)
Theorem byAssignee_partitions (l : list Task) :
  List.NoDup (List.map a_name (byAssignee l))
  /\ (forall x, In x (List.map a_name (byAssignee l)) <-> exists t, In t l /\ assignee t = x)
  /\ (forall r, In r (byAssignee l) -> (1 <= a_total r)%nat /\ (a_done r <= a_total r)%nat)
  /\ list_sum (List.map a_total (byAssignee l)) = length l
  /\ list_sum (List.map a_done (byAssignee l))
     = count (fun t => Status_eqb (status t) Done) l.
Proof.
  unfold byAssignee, Array_from_Set.
  destruct (fold_Set_add (List.map assignee l) []) as (H1 & H2 & _).
  set (names := fold_left _ (List.map assignee l) []) in *.
  assert (Hnd : List.NoDup names) by (apply H2; constructor).
  assert (Hin : forall x, In x names <-> exists t, In t l /\ assignee t = x).
  { intros x. rewrite H1. split.
    - intros [[]|H]. apply List.in_map_iff in H as (t & <- & Ht). eauto.
    - intros (t & Ht & <-). right. now apply List.in_map. }
  rewrite !List.map_map. cbn [a_name a_total a_done]. rewrite List.map_id.
  split; [exact Hnd|]. split; [exact Hin|]. split; [|split].
  - intros r Hr. apply List.in_map_iff in Hr as (n & <- & Hn). cbn [a_total a_done].
    split.
    + apply Hin in Hn as (t & Ht & <-). unfold count.
      assert (Hf : In t (List.filter (fun t0 => str_eqb (assignee t0) (assignee t)) l))
        by (apply List.filter_In; split; [exact Ht|apply str_eqb_refl]).
      destruct (List.filter _ l); [destruct Hf|cbn; lia].
    + apply count_le. intros t Ht. now apply andb_true_iff in Ht as [Ht _].
  - transitivity (list_sum (List.map (fun n => count (fun t => str_eqb (assignee t) n && true) l) names)).
    { f_equal. apply List.map_ext. intros n. apply count_ext. intros t.
      now rewrite andb_true_r. }
    rewrite sum_count_names by exact Hnd.
    apply count_all. intros t Ht. rewrite andb_true_r.
    apply existsb_str_In, Hin. eauto.
  - rewrite sum_count_names by exact Hnd.
    unfold count. f_equal. apply List.filter_ext_in. intros t Ht.
    assert (E : existsb (str_eqb (assignee t)) names = true)
      by (apply existsb_str_In, Hin; eauto).
    now rewrite E.
Qed.

(** ** Demo data *)

Section SeedFacts.

Variable getTime : jstring -> jsnum.
Variable formatDateTime : jstring -> jstring.
Variable toISOString : Z -> jstring.
Variable fresh : nat -> jstring.
Variable roll : nat -> nat.

Abbreviation seeds := (makeSeedTasks toISOString fresh roll).
Abbreviation seed := (seedTask toISOString fresh roll).

Lemma seeds_eq (now : Z) :
  seeds now = [seed now 0 (lit "Flights"); seed now 1 (lit "Accommodation");
               seed now 2 (lit "Golf Games"); seed now 3 (lit "Car Hire");
               seed now 4 (lit "Grocery"); seed now 5 (lit "Liquor");
               seed now 6 (lit "Partay Supplies")].
Proof. reflexivity. Qed.

Lemma seed_fires (now clock : Z) (i : nat) (cat : jstring) :
  seed_dates_read_back getTime toISOString now -> (i < 7)%nat ->
  fires getTime clock (seed now i cat)
  = negb (Status_eqb (status (seed now i cat)) Done)
    && (now + (Z.of_nat i + 1) * 86400000 - 3600000 <=? clock).
Proof.
  intros H Hi. destruct (H i Hi) as [Hg Hne].
  unfold fires, fireAt. cbn [sla seedTask reminderLeadMinutes sent reminderSent nullish].
  destruct (plusDays toISOString now (Z.of_nat i + 1)) as [|c r] eqn:E; [congruence|].
  cbn [truthy]. rewrite Hg. cbn [js_sub js_ge negb].
  destruct (Status_eqb _ Done); [reflexivity|]. rewrite andb_true_r. cbn [negb andb].
  f_equal.
Qed.

Lemma seed_overdue (now clock : Z) (i : nat) (cat : jstring) :
  seed_dates_read_back getTime toISOString now -> (i < 7)%nat ->
  overdue (dueState getTime clock (seed now i cat))
  = (now + (Z.of_nat i + 1) * 86400000 <? clock)
    && negb (Status_eqb (status (seed now i cat)) Done).
Proof.
  intros H Hi. destruct (H i Hi) as [Hg Hne].
  unfold dueState. cbn [sla seedTask].
  destruct (plusDays toISOString now (Z.of_nat i + 1)) as [|c r] eqn:E; [congruence|].
  cbn [truthy overdue]. rewrite Hg. reflexivity.
Qed.

(** X23. The demo data: seven tasks, one per default category, with the
    statuses done, in progress, not started in turn.  When the runtime
    reads the seven deadlines back as written, no seed task is overdue
    during the first 48 hours, no reminder fires during the first 47
    hours, and from then until the 71st hour a tick reminds for the
    second task alone (the first one is done). *)
Theorem seed_tasks_start_on_track (now clock : Z) (stamp : jstring) :
  seed_dates_read_back getTime toISOString now ->
  length (seeds now) = length DEFAULT_TASKS
  /\ List.map title (seeds now) = DEFAULT_TASKS
  /\ List.map category (seeds now) = DEFAULT_TASKS
  /\ List.map status (seeds now) = seedStatuses
  /\ (clock <= now + 48 * 3600000 -> overdueCount getTime clock (seeds now) = 0%nat)
  /\ (clock < now + 47 * 3600000 ->
      fst (tick getTime formatDateTime clock stamp (seeds now)) = [])
  /\ (now + 47 * 3600000 <= clock < now + 71 * 3600000 ->
      List.map rem_id (fst (tick getTime formatDateTime clock stamp (seeds now)))
      = [fresh 1]).
Proof.
  intros H.
  split; [reflexivity|]. split; [reflexivity|]. split; [reflexivity|].
  split; [reflexivity|].
  assert (Hf : forall i cat, (i < 7)%nat -> _) by (intros i cat; exact (seed_fires now clock i cat H)).
  assert (Ho : forall i cat, (i < 7)%nat -> _) by (intros i cat; exact (seed_overdue now clock i cat H)).
  split; [|split].
  - intros Hc. unfold overdueCount, count. rewrite seeds_eq. cbn [List.filter].
    rewrite !Ho by lia. cbn [status seedTask Nat.modulo Nat.divmod fst snd Nat.sub Status_eqb negb andb].
    rewrite !andb_false_r.
    repeat match goal with
           | |- context [?a <? ?b] => destruct (Z.ltb_spec a b); [lia|]
           end.
    reflexivity.
  - intros Hc. unfold tick. rewrite tick_loop_spec. cbn [fst]. rewrite seeds_eq.
    cbn [List.filter]. rewrite !Hf by lia.
    cbn [status seedTask Nat.modulo Nat.divmod fst snd Nat.sub Status_eqb negb andb].
    repeat match goal with
           | |- context [?a <=? ?b] => destruct (Z.leb_spec a b); [lia|]
           end.
    reflexivity.
  - intros Hc. unfold tick. rewrite tick_loop_spec. cbn [fst]. rewrite seeds_eq.
    cbn [List.filter]. rewrite !Hf by lia.
    cbn [status seedTask Nat.modulo Nat.divmod fst snd Nat.sub Status_eqb negb andb].
    destruct (Z.leb_spec (now + (Z.of_nat 1 + 1) * 86400000 - 3600000) clock); [|lia].
    repeat match goal with
           | |- context [?a <=? ?b] => destruct (Z.leb_spec a b); [lia|]
           end.
    reflexivity.
Qed.

End SeedFacts.

(** Seed tasks made at 2025-01-01 00:00 UTC, with [isoString] and
    [isoTime] as the runtime. *)
Lemma seed_dates_example : seed_dates_read_back isoTime isoString 1735689600000.
Proof.
  intros i Hi.
  do 7 (destruct i as [|i]; [vm_compute; split; [reflexivity|discriminate]|]).
  lia.
Defined.

(** No reminder 46 hours after the seed tasks were made. *)
Lemma seed_tasks_start_on_track_witness :
  fst (tick isoTime (fun x => x) (1735689600000 + 46 * 3600000)
            (lit "2025-01-02T22:00:00.000Z")
            (makeSeedTasks isoString (fun i => number_chars (Z.of_nat i)) (fun _ => O)
                           1735689600000))
  = [].
Proof.
  pose proof (seed_tasks_start_on_track isoTime (fun x => x) isoString
                (fun i => number_chars (Z.of_nat i)) (fun _ => O)
                1735689600000 (1735689600000 + 46 * 3600000)
                (lit "2025-01-02T22:00:00.000Z") seed_dates_example) as H.
  destruct H as (_ & _ & _ & _ & _ & H & _).
  apply H. reflexivity.
Defined.

(** ** New-task form *)

(** X24. The task the form submits carries the fresh identifier and one
    stamp for both timestamps, has no empty notes and no reminder flag, so
    it reads as not yet reminded.  Submitted without a deadline it never
    fires and is never overdue; submitted unfinished with a deadline that
    reads as the time [d], it fires at every clock reading from [d] minus
    the lead on. *)
Theorem submitted_task_is_armed (localToISO : jstring -> jstring)
        (getTime : jstring -> jsnum) (fresh stamp : jstring) (f : Form) (now d : Z) :
  let t := submit localToISO fresh stamp f in
  id t = fresh /\ createdAt t = stamp /\ updatedAt t = stamp
  /\ details t <> Some [] /\ sent t = false
  /\ (f_sla f = [] ->
      fires getTime now t = false
      /\ overdue (dueState getTime now t) = false)
  /\ (f_sla f <> [] -> localToISO (f_sla f) <> [] -> f_status f <> Done ->
      getTime (localToISO (f_sla f)) = Num d ->
      fires getTime now t = (d - formLead f * 60000 <=? now)).
Proof.
  cbv zeta. repeat split.
  - cbn. destruct (f_details f); discriminate.
  - unfold fires. cbn [sla submit]. now rewrite H.
  - unfold dueState. cbn [sla submit]. now rewrite H.
  - intros Hs Hne Hst Hg. unfold fires, fireAt, formLead.
    cbn [sla submit status reminderLeadMinutes sent reminderSent].
    destruct (f_sla f) as [|c0 r0]; [congruence|].
    destruct (localToISO (c0 :: r0)) as [|c r] eqn:E; [congruence|].
    cbn [truthy]. rewrite Hg.
    destruct (f_status f); try congruence; cbn [Status_eqb];
      destruct (f_lead f) as [[z|]|]; cbn [nullish js_sub js_ge negb];
      rewrite andb_true_r; f_equal; lia.
Qed.

(** ** Share-state codec on any value *)



(** ** Sorted views *)

Section SortFacts.

Variable before : Task -> Task -> bool.

(** The tasks the comparator orders consistently. *)
Variable P : Task -> Prop.
Hypothesis asym : forall a b, P a -> P b -> before a b = true -> before b a = false.
Hypothesis negtrans :
  forall a b c, P a -> P b -> P c ->
                before b a = false -> before c b = false -> before c a = false.

Lemma insert_sorted_perm (x : Task) (l : list Task) :
  Permutation (insert_sorted before x l) (x :: l).
Proof.
  induction l as [|y r IH]; cbn [insert_sorted]; [reflexivity|].
  destruct (before x y); [reflexivity|].
  rewrite IH. apply perm_swap.
Qed.

Lemma fold_insert_perm (l acc : list Task) :
  Permutation (fold_left (fun acc x => insert_sorted before x acc) l acc) (acc ++ l).
Proof.
  revert acc. induction l as [|x l IH]; intros acc; cbn [fold_left].
  - now rewrite List.app_nil_r.
  - rewrite IH, insert_sorted_perm. cbn [app]. apply Permutation_middle.
Qed.

Lemma Array_sort_perm (l : list Task) : Permutation (Array_sort before l) l.
Proof. apply (fold_insert_perm l []). Qed.

Lemma insert_sorted_ok (x : Task) (l : list Task) :
  P x -> Forall P l -> sorted_by before l -> sorted_by before (insert_sorted before x l).
Proof.
  intros Hx. induction l as [|y r IH]; intros Hl Hs; cbn [insert_sorted].
  - split; [constructor|exact I].
  - inversion Hl as [|? ? Hy Hr]; subst. destruct Hs as [Hy' Hs].
    destruct (before x y) eqn:E.
    + split; [|split; assumption]. constructor; [now apply asym|].
      clear IH Hs.
      induction Hy' as [|z r' Hz Hr' IH']; constructor.
      * inversion Hr; subst. apply (negtrans x y z); auto.
      * inversion Hr; subst. inversion Hl; subst. apply IH'; auto.
    + split; [|now apply IH].
      rewrite insert_sorted_perm. now constructor.
Qed.

Lemma fold_insert_ok (l acc : list Task) :
  Forall P l -> Forall P acc -> sorted_by before acc ->
  sorted_by before (fold_left (fun acc x => insert_sorted before x acc) l acc)
  /\ Forall P (fold_left (fun acc x => insert_sorted before x acc) l acc).
Proof.
  revert acc. induction l as [|x l IH]; intros acc Hl Ha Hs; cbn [fold_left]; [auto|].
  inversion Hl; subst. apply IH; auto.
  - rewrite insert_sorted_perm. now constructor.
  - now apply insert_sorted_ok.
Qed.

Lemma Array_sort_sorted (l : list Task) :
  Forall P l -> sorted_by before (Array_sort before l).
Proof. intros Hl. apply fold_insert_ok; [exact Hl|constructor|exact I]. Qed.

(** Stability: tasks the comparator does not tell apart keep their
    order. *)
Lemma insert_sorted_filter (f : Task -> bool) (x : Task) (l : list Task) :
  (forall a b, f a = true -> f b = true -> before a b = false) ->
  P x -> Forall P l -> sorted_by before l ->
  List.filter f (insert_sorted before x l)
  = List.filter f l ++ (if f x then [x] else []).
Proof.
  intros Htie Hx. induction l as [|y r IH]; intros Hl Hs; cbn [insert_sorted].
  - cbn. now destruct (f x).
  - inversion Hl as [|? ? Hy Hr]; subst. destruct Hs as [Hy' Hs].
    destruct (before x y) eqn:E.
    + change (List.filter f (x :: y :: r))
        with (if f x then x :: List.filter f (y :: r) else List.filter f (y :: r)).
      destruct (f x) eqn:Efx; [|now rewrite List.app_nil_r].
      assert (Hnone : List.filter f (y :: r) = []).
      { assert (G : forall z, In z (y :: r) -> f z = false).
        { intros z [<-|Hz].
          - destruct (f y) eqn:Efy; [|reflexivity].
            rewrite (Htie x y Efx Efy) in E. discriminate.
          - destruct (f z) eqn:Efz; [|reflexivity].
            assert (Pz : P z) by (rewrite List.Forall_forall in Hr; auto).
            assert (B1 : before z y = false) by (rewrite List.Forall_forall in Hy'; auto).
            pose proof (negtrans y z x Hy Pz Hx B1 (Htie x z Efx Efz)) as B2.
            congruence. }
        clear - G. induction (y :: r) as [|z l IH]; [reflexivity|].
        cbn. rewrite (G z) by now left. apply IH. intros w Hw. apply G. now right. }
      now rewrite Hnone.
    + cbn [List.filter]. rewrite (IH Hr Hs). now destruct (f y).
Qed.

Lemma Array_sort_stable (f : Task -> bool) (l : list Task) :
  (forall a b, f a = true -> f b = true -> before a b = false) ->
  Forall P l ->
  List.filter f (Array_sort before l) = List.filter f l.
Proof.
  intros Htie Hl. unfold Array_sort.
  assert (G : forall acc, Forall P acc -> sorted_by before acc ->
                          List.filter f (fold_left (fun acc x => insert_sorted before x acc) l acc)
                          = List.filter f acc ++ List.filter f l).
  { induction l as [|x l IH]; intros acc Ha Hs; cbn [fold_left].
    - cbn. now rewrite List.app_nil_r.
    - inversion Hl; subst. rewrite IH; auto.
      + rewrite insert_sorted_filter by auto. cbn [List.filter].
        rewrite <- List.app_assoc. now destruct (f x).
      + rewrite insert_sorted_perm. now constructor.
      + now apply insert_sorted_ok. }
  apply (G []); [constructor|exact I].
Qed.

Lemma sorted_by_filter (f : Task -> bool) (l : list Task) :
  sorted_by before l -> sorted_by before (List.filter f l).
Proof.
  induction l as [|x r IH]; intros Hs; [exact I|]. destruct Hs as [Hx Hs].
  cbn [List.filter]. destruct (f x); [|now apply IH].
  split; [|now apply IH].
  rewrite List.Forall_forall in *. intros y Hy. apply Hx.
  now apply List.filter_In in Hy as [Hy _].
Qed.

(** A sorted list splits into the tasks of a class the comparator puts
    first and the others. *)
Lemma sorted_by_split (g : Task -> bool) (l : list Task) :
  (forall a b, P a -> P b -> g a = true -> g b = false -> before a b = true) ->
  Forall P l -> sorted_by before l ->
  l = List.filter g l ++ List.filter (fun t => negb (g t)) l.
Proof.
  intros Hg. induction l as [|x r IH]; intros Hl Hs; [reflexivity|].
  destruct Hs as [Hx Hs]. inversion Hl as [|? ? Px Hr']; subst. cbn [List.filter].
  destruct (g x) eqn:E; cbn [negb app].
  - f_equal. now apply IH.
  - assert (Hr : forall y, In y r -> g y = false).
    { intros y Hy. destruct (g y) eqn:Ey; [|reflexivity].
      rewrite List.Forall_forall in Hx, Hr'. specialize (Hx y Hy).
      rewrite (Hg y x (Hr' y Hy) Px Ey E) in Hx. discriminate. }
    assert (E1 : List.filter g r = []).
    { clear - Hr. induction r as [|z r IH]; [reflexivity|]. cbn.
      rewrite (Hr z) by now left. apply IH. intros w Hw. apply Hr. now right. }
    assert (E2 : List.filter (fun t => negb (g t)) r = r).
    { clear - Hr. induction r as [|z r IH]; [reflexivity|]. cbn.
      rewrite (Hr z) by now left. cbn. f_equal. apply IH. intros w Hw. apply Hr. now right. }
    now rewrite E1, E2.
Qed.

End SortFacts.

Lemma filter_and {A : Type} (f g : A -> bool) (l : list A) :
  List.filter g (List.filter f l) = List.filter (fun x => f x && g x) l.
Proof.
  induction l as [|x l IH]; [reflexivity|]. cbn [List.filter].
  destruct (f x); cbn [List.filter andb]; [destruct (g x)|]; now rewrite IH.
Qed.

Lemma filter_all {A : Type} (f : A -> bool) (l : list A) :
  (forall x, In x l -> f x = true) -> List.filter f l = l.
Proof.
  induction l as [|x l IH]; intros H; [reflexivity|]. cbn [List.filter].
  rewrite (H x) by now left. f_equal. apply IH. intros y Hy. apply H. now right.
Qed.

Lemma truthy_Some (o : option jstring) (s : jstring) :
  truthy o = Some s -> o = Some s /\ s <> [].
Proof. destruct o as [[|c r]|]; intros [= <-]; split; [reflexivity|discriminate]. Qed.

Section ViewFacts.

Variable getTime : jstring -> jsnum.
Variable toLowerCase : jstring -> jstring.

Abbreviation slaTime1 := (slaTime getTime).
Abbreviation deadlineOf1 := (deadlineOf getTime).
Abbreviation byDeadline := (fun a b : Task => js_lt (js_sub (slaTime1 a) (slaTime1 b)) (Num 0)).

Lemma byDeadline_order :
  (forall a b, (exists d, slaTime1 a = Num d) -> (exists d, slaTime1 b = Num d) ->
               byDeadline a b = true -> byDeadline b a = false)
  /\ (forall a b c, (exists d, slaTime1 a = Num d) -> (exists d, slaTime1 b = Num d) ->
                    (exists d, slaTime1 c = Num d) ->
                    byDeadline b a = false -> byDeadline c b = false ->
                    byDeadline c a = false).
Proof.
  split.
  - intros a b [da Ha] [db Hb]. cbv beta. rewrite Ha, Hb. cbn.
    intros H. apply Z.ltb_lt in H. apply Z.ltb_ge. lia.
  - intros a b c [da Ha] [db Hb] [dc Hc]. cbv beta. rewrite Ha, Hb, Hc. cbn.
    intros H1 H2. apply Z.ltb_ge in H1, H2. apply Z.ltb_ge. lia.
Qed.

Lemma in_window_spec (now : Z) (t : Task) :
  in_window getTime now t = true ->
  has_deadline t = true
  /\ exists d, slaTime1 t = Num d /\ now < d < now + 259200000.
Proof.
  unfold in_window, has_deadline, slaTime.
  destruct (truthy (sla t)) as [s|] eqn:E; [|discriminate].
  apply truthy_Some in E as [-> _]. cbn [nullish].
  destruct (getTime s) as [d|]; [|discriminate]. cbn.
  intros H. apply andb_true_iff in H as [H1 H2].
  apply Z.ltb_lt in H1, H2. split; [reflexivity|]. exists d. split; [reflexivity|lia].
Qed.

Lemma upcoming_eq (now : Z) (l : list Task) :
  upcoming getTime now l = Array_sort byDeadline (List.filter (in_window getTime now) l).
Proof.
  unfold upcoming. f_equal. rewrite filter_and. apply List.filter_ext.
  intros t. unfold in_window, slaTime.
  destruct (truthy (sla t)) as [s|] eqn:E; [|reflexivity].
  apply truthy_Some in E as [-> _]. reflexivity.
Qed.

Lemma sorted_ascending (l : list Task) :
  Forall (fun t => exists d, slaTime1 t = Num d) l ->
  sorted_by byDeadline l -> ascending (List.map deadlineOf1 l).
Proof.
  induction l as [|x r IH]; intros Hl Hs; [exact I|].
  inversion Hl as [|? ? [dx Hx] Hr]; subst. destruct Hs as [Hxr Hs].
  cbn [List.map ascending]. split; [|now apply IH].
  rewrite List.Forall_forall in *. intros z Hz.
  apply List.in_map_iff in Hz as (y & <- & Hy).
  destruct (Hr y Hy) as [dy Hdy]. specialize (Hxr y Hy). cbv beta in Hxr.
  unfold deadlineOf. rewrite Hx, Hdy in *. cbn in Hxr. apply Z.ltb_ge in Hxr. lia.
Qed.

(** X27. The list under Upcoming SLAs holds exactly the tasks, finished
    or not, whose deadline reads as a time after now and less than 72
    hours away, each as often as the task list does; it is in ascending
    order of deadline, tasks due at the same time keep their order; and
    the line that nothing is due shows exactly when the list is empty. *)
Theorem upcoming_is_sorted_window (now : Z) (l : list Task) :
  Permutation (upcoming getTime now l) (List.filter (in_window getTime now) l)
  /\ Forall (fun t => has_deadline t = true
                      /\ exists d, slaTime1 t = Num d /\ now < d < now + 259200000)
            (upcoming getTime now l)
  /\ ascending (List.map deadlineOf1 (upcoming getTime now l))
  /\ (forall d, List.filter (fun t => deadlineOf1 t =? d) (upcoming getTime now l)
                = List.filter (fun t => deadlineOf1 t =? d)
                              (List.filter (in_window getTime now) l))
  /\ (nothingDue getTime now l = true <-> upcoming getTime now l = []).
Proof.
  rewrite upcoming_eq. set (W := List.filter (in_window getTime now) l).
  destruct byDeadline_order as [Hasym Htrans].
  assert (HW : Forall (fun t => has_deadline t = true
                                /\ exists d, slaTime1 t = Num d /\ now < d < now + 259200000) W).
  { apply List.Forall_forall. intros t Ht. apply List.filter_In in Ht as [_ Ht].
    now apply in_window_spec. }
  assert (HP : Forall (fun t => exists d, slaTime1 t = Num d) W).
  { apply List.Forall_forall. intros t Ht. rewrite List.Forall_forall in HW.
    destruct (HW t Ht) as (_ & d & Hd & _). eauto. }
  pose proof (Array_sort_perm byDeadline W) as Hperm.
  split; [exact Hperm|]. split; [|split; [|split]].
  - apply List.Forall_forall. intros t Ht. rewrite List.Forall_forall in HW.
    apply HW. now rewrite <- Hperm.
  - apply sorted_ascending.
    + apply List.Forall_forall. intros t Ht. rewrite List.Forall_forall in HP.
      apply HP. now rewrite <- Hperm.
    + now apply (Array_sort_sorted byDeadline _ Hasym Htrans).
  - intros d. apply (Array_sort_stable byDeadline _ Hasym Htrans); [|exact HP].
    intros a b Ha Hb. cbv beta. unfold deadlineOf in Ha, Hb.
    destruct (slaTime1 a) as [da|]; [|reflexivity].
    destruct (slaTime1 b) as [db|]; [|reflexivity].
    apply Z.eqb_eq in Ha, Hb. cbn. apply Z.ltb_ge. lia.
  - unfold nothingDue. fold (in_window getTime now). fold W. split.
    + destruct W; [reflexivity|discriminate].
    + intros E. rewrite E in Hperm. apply Permutation_nil in Hperm. now rewrite Hperm.
Qed.

Abbreviation dueBefore1 := (dueBefore getTime).
Abbreviation updatedBefore1 := (updatedBefore getTime).
Abbreviation rows := (fun q who state => List.filter (matches toLowerCase q who state)).

Lemma filter_unless {A : Type} (all : bool) (f : A -> bool) (l : list A) :
  (if all then l else List.filter f l) = List.filter (fun x => all || f x) l.
Proof.
  destruct all; cbn [orb]; [|reflexivity].
  symmetry. now apply filter_all.
Qed.

Lemma filtered_eq (q who state sort : jstring) (l : list Task) :
  filtered getTime toLowerCase q who state sort l
  = if str_eqb sort (lit "due") then Array_sort dueBefore1 (rows q who state l)
    else if str_eqb sort (lit "updated") then Array_sort updatedBefore1 (rows q who state l)
    else rows q who state l.
Proof.
  unfold filtered. cbv zeta.
  assert (E : match trim q with
              | [] =>
                  if str_eqb state (lit "All")
                  then if str_eqb who (lit "All") then l
                       else List.filter (fun t => str_eqb (assignee t) who) l
                  else List.filter (fun t => str_eqb (Status_str (status t)) state)
                         (if str_eqb who (lit "All") then l
                          else List.filter (fun t => str_eqb (assignee t) who) l)
              | _ :: _ =>
                  List.filter (fun t => includes (searchText toLowerCase t) (toLowerCase q))
                    (if str_eqb state (lit "All")
                     then if str_eqb who (lit "All") then l
                          else List.filter (fun t => str_eqb (assignee t) who) l
                     else List.filter (fun t => str_eqb (Status_str (status t)) state)
                            (if str_eqb who (lit "All") then l
                             else List.filter (fun t => str_eqb (assignee t) who) l))
              end = rows q who state l).
  { rewrite !filter_unless. unfold matches.
    destruct (trim q); rewrite !filter_and; apply List.filter_ext; intros t;
      rewrite ?andb_true_r, ?andb_assoc; reflexivity. }
  now rewrite E.
Qed.

Lemma dueKey_cases (t : Task) :
  dueKey getTime t <> Some NaN ->
  (has_deadline t = false /\ dueKey getTime t = None)
  \/ (has_deadline t = true /\ exists d, dueKey getTime t = Some (Num d)
                                         /\ slaTime1 t = Num d).
Proof.
  unfold dueKey, has_deadline, slaTime.
  destruct (truthy (sla t)) as [s|] eqn:E; [|now left].
  apply truthy_Some in E as [-> _]. cbn [option_map nullish].
  destruct (getTime s) as [d|]; [|congruence]. right. eauto.
Qed.

Lemma dueBefore_order :
  (forall a b, dueKey getTime a <> Some NaN -> dueKey getTime b <> Some NaN ->
               dueBefore1 a b = true -> dueBefore1 b a = false)
  /\ (forall a b c, dueKey getTime a <> Some NaN -> dueKey getTime b <> Some NaN ->
                    dueKey getTime c <> Some NaN ->
                    dueBefore1 b a = false -> dueBefore1 c b = false ->
                    dueBefore1 c a = false).
Proof.
  split.
  - intros a b Ha Hb. unfold dueBefore.
    destruct (dueKey_cases a Ha) as [[_ ->]|(_ & da & -> & _)];
      destruct (dueKey_cases b Hb) as [[_ ->]|(_ & db & -> & _)]; cbn; try congruence.
    intros H. apply Z.ltb_lt in H. apply Z.ltb_ge. lia.
  - intros a b c Ha Hb Hc. unfold dueBefore.
    destruct (dueKey_cases a Ha) as [[_ ->]|(_ & da & -> & _)];
      destruct (dueKey_cases b Hb) as [[_ ->]|(_ & db & -> & _)];
      destruct (dueKey_cases c Hc) as [[_ ->]|(_ & dc & -> & _)]; cbn; try congruence.
    intros H1 H2. apply Z.ltb_ge in H1, H2. apply Z.ltb_ge. lia.
Qed.

Lemma updatedBefore_order :
  (forall a b, getTime (updatedAt a) <> NaN -> getTime (updatedAt b) <> NaN ->
               updatedBefore1 a b = true -> updatedBefore1 b a = false)
  /\ (forall a b c, getTime (updatedAt a) <> NaN -> getTime (updatedAt b) <> NaN ->
                    getTime (updatedAt c) <> NaN ->
                    updatedBefore1 b a = false -> updatedBefore1 c b = false ->
                    updatedBefore1 c a = false).
Proof.
  split.
  - intros a b Ha Hb. unfold updatedBefore.
    destruct (getTime (updatedAt a)), (getTime (updatedAt b)); try congruence. cbn.
    intros H. apply Z.ltb_lt in H. apply Z.ltb_ge. lia.
  - intros a b c Ha Hb Hc. unfold updatedBefore.
    destruct (getTime (updatedAt a)), (getTime (updatedAt b)), (getTime (updatedAt c));
      try congruence. cbn.
    intros H1 H2. apply Z.ltb_ge in H1, H2. apply Z.ltb_ge. lia.
Qed.

Lemma Forall_perm (Q : Task -> Prop) (l l' : list Task) :
  Permutation l l' -> Forall Q l' -> Forall Q l.
Proof.
  intros Hp H. apply List.Forall_forall. intros t Ht.
  rewrite List.Forall_forall in H. apply H. now rewrite <- Hp.
Qed.

(** X28. The rows of the task table are the tasks that pass the three
    filters, each as often as the task list holds it, so sorting loses
    and repeats nothing.  With another sort value they are in list
    order.  Sorted by due date, when every deadline reads as a date, the
    tasks with a deadline come first, in ascending order of deadline, and
    the tasks without one follow in list order.  Sorted by update, when
    every update stamp reads as a date, the rows are in descending order
    of update time. *)
Theorem filtered_shows_matching_rows (q who state sort : jstring) (l : list Task) :
  let view := filtered getTime toLowerCase q who state sort l in
  Permutation view (rows q who state l)
  /\ (str_eqb sort (lit "due") = false -> str_eqb sort (lit "updated") = false ->
      view = rows q who state l)
  /\ (sort = lit "due" -> deadlines_read getTime (rows q who state l) ->
      view = List.filter has_deadline view
             ++ List.filter (fun t => negb (has_deadline t)) (rows q who state l)
      /\ ascending (List.map deadlineOf1 (List.filter has_deadline view)))
  /\ (sort = lit "updated" -> updates_read getTime (rows q who state l) ->
      descending (List.map (updatedOf getTime) view)).
Proof.
  cbv zeta. rewrite filtered_eq. set (R := rows q who state l).
  split; [|split; [|split]].
  - destruct (str_eqb sort (lit "due")); [apply Array_sort_perm|].
    destruct (str_eqb sort (lit "updated")); [apply Array_sort_perm|reflexivity].
  - now intros -> ->.
  - intros -> HR. change (str_eqb (lit "due") (lit "due")) with true. cbv iota.
    destruct dueBefore_order as [Hasym Htrans].
    pose proof (Array_sort_perm dueBefore1 R) as Hperm.
    pose proof (Array_sort_sorted dueBefore1 _ Hasym Htrans R HR) as Hs.
    pose proof (Forall_perm _ _ _ Hperm HR) as HS.
    set (sorted := Array_sort dueBefore1 R) in *.
    split.
    + rewrite <- (Array_sort_stable dueBefore1 _ Hasym Htrans
                                    (fun t => negb (has_deadline t)) R); [| |exact HR].
      * fold sorted. apply (sorted_by_split dueBefore1 (fun t => dueKey getTime t <> Some NaN));
          [|exact HS|exact Hs].
        intros a b Pa Pb Ha Hb. unfold dueBefore.
        destruct (dueKey_cases a Pa) as [[E _]|(_ & da & -> & _)]; [congruence|].
        destruct (dueKey_cases b Pb) as [[_ ->]|(E & _)]; [reflexivity|congruence].
      * intros a b Ha Hb. apply negb_true_iff in Ha, Hb. unfold dueBefore, dueKey.
        unfold has_deadline in Ha, Hb.
        destruct (truthy (sla a)); [discriminate|]. reflexivity.
    + pose proof (sorted_by_filter dueBefore1 has_deadline sorted Hs) as Hsf.
      assert (HD : Forall (fun t => exists d, dueKey getTime t = Some (Num d)
                                              /\ slaTime1 t = Num d)
                          (List.filter has_deadline sorted)).
      { apply List.Forall_forall. intros t Ht. apply List.filter_In in Ht as [Ht Hd].
        rewrite List.Forall_forall in HS.
        destruct (dueKey_cases t (HS t Ht)) as [[E _]|(_ & d & H1 & H2)]; [congruence|eauto]. }
      clear - Hsf HD. induction (List.filter has_deadline sorted) as [|x r IH]; [exact I|].
      inversion HD as [|? ? (dx & Kx & Tx) Hr]; subst. destruct Hsf as [Hx Hsf].
      cbn [List.map ascending]. split; [|now apply IH].
      rewrite List.Forall_forall in *. intros z Hz.
      apply List.in_map_iff in Hz as (y & <- & Hy).
      destruct (Hr y Hy) as (dy & Ky & Ty). specialize (Hx y Hy).
      unfold dueBefore in Hx. rewrite Kx, Ky in Hx. cbn in Hx.
      apply Z.ltb_ge in Hx. unfold deadlineOf. rewrite Tx, Ty. lia.
  - intros -> HR. change (str_eqb (lit "updated") (lit "due")) with false.
    change (str_eqb (lit "updated") (lit "updated")) with true. cbv iota.
    destruct updatedBefore_order as [Hasym Htrans].
    pose proof (Array_sort_perm updatedBefore1 R) as Hperm.
    pose proof (Array_sort_sorted updatedBefore1 _ Hasym Htrans R HR) as Hs.
    pose proof (Forall_perm _ _ _ Hperm HR) as HS.
    clear - Hs HS. induction (Array_sort updatedBefore1 R) as [|x r IH]; [exact I|].
    inversion HS as [|? ? Px Hr]; subst. destruct Hs as [Hx Hs].
    cbn [List.map descending]. split; [|now apply IH].
    rewrite List.Forall_forall in *. intros z Hz.
    apply List.in_map_iff in Hz as (y & <- & Hy).
    specialize (Hx y Hy). specialize (Hr y Hy). unfold updatedBefore in Hx.
    unfold updatedOf.
    destruct (getTime (updatedAt x)), (getTime (updatedAt y)); try congruence.
    cbn in Hx. apply Z.ltb_ge in Hx. lia.
Qed.

End ViewFacts.
